(** * StudyBuddy: the structured-record recovery pipeline

    A shallow embedding of the parsing and post-processing code of
    [backend/services/ai_service.py] and [backend/main.py]:

    - the delimiter-balanced scanners (object scanner of
      [_extract_questions_from_broken_json], bracket scanner of
      [parse_quiz_questions]);
    - the syntax repair pass [_fix_json];
    - the salvage scanners and the tiered extractors;
    - the error-record normalizer of [parse_midterm_analysis];
    - the quiz validator of [generate_quiz_from_errors];
    - the answer-position randomizer [randomize_question_options];
    - the token budget of [generate_response], the statistics of
      [analyze_midterm] and [save_midterm_analysis], the question list of
      the endpoint [generate_quiz_from_errors], the title clean-up of
      [generate_quiz_title] and the padding of [generate_rag_quiz].

    Text is a list of 8-bit characters: the code points 0 to 255 of a
    Python [str].
    Python values coming out of [json.loads] are the inductive type [json];
    a Python exception is the [Raise] outcome of the [result] type.  All
    definitions come first, the theorems follow. *)

From Stdlib Require Import String Ascii ZArith Lia Bool Arith List.
From Stdlib Require Import Permutation Sorted DecimalString DecimalNat.
Import ListNotations.

Local Open Scope list_scope.
Set Warnings "-register-all".

(* ================================================================== *)
(** ** Characters and text *)

Module Text.

Definition text := list ascii.

Definition dquote : ascii := ascii_of_nat 34.
Definition backslash : ascii := ascii_of_nat 92.
Definition newline : ascii := ascii_of_nat 10.
Definition squote : ascii := ascii_of_nat 39.
Definition bar : ascii := ascii_of_nat 124.

(** Literals are written with ['] standing for the double quote and [|]
    standing for a line feed. *)
Definition lit_char (c : ascii) : ascii :=
  if Ascii.eqb c squote then dquote
  else if Ascii.eqb c bar then newline
  else c.

Definition lit (s : string) : text := map lit_char (list_ascii_of_string s).

(** Plain conversion, no substitution. *)
Definition chars (s : string) : text := list_ascii_of_string s.

(** Python's [str.isspace] on the code points 0 to 255, which is also
    what [\s], [str.strip] and [str.split] take for white space there: TAB,
    LF, VT, FF, CR, FS, GS, RS, US, SPACE, NEL (133) and the no-break space
    (160). *)
Definition is_space (c : ascii) : bool :=
  let n := nat_of_ascii c in
  ((9 <=? n) && (n <=? 13)) || ((28 <=? n) && (n <=? 32))
  || (n =? 133) || (n =? 160).

Definition is_digit (c : ascii) : bool :=
  let n := nat_of_ascii c in (48 <=? n) && (n <=? 57).

Fixpoint drop_while (p : ascii -> bool) (s : text) : text :=
  match s with
  | [] => []
  | c :: rest => if p c then drop_while p rest else s
  end.

(** [s.strip()] *)
Definition strip (s : text) : text :=
  rev (drop_while is_space (rev (drop_while is_space s))).

(** [s.lower()] on the code points 0 to 255: the letters A to Z and the
    accented capitals 192 to 222, the multiplication sign 215 apart, move
    up by 32. *)
Definition lower_char (c : ascii) : ascii :=
  let n := nat_of_ascii c in
  if ((65 <=? n) && (n <=? 90))
     || ((192 <=? n) && (n <=? 222) && negb (n =? 215))
  then ascii_of_nat (n + 32) else c.

(** [s.upper()] likewise: the letters a to z and the accented small
    letters 224 to 254, the division sign 247 apart, move down by 32.  The
    upper-case forms of 181, 223 and 255 lie outside the 8-bit range; the
    one call of [upper] in the code is on an id made of a letter a to z or
    of digits. *)
Definition upper_char (c : ascii) : ascii :=
  let n := nat_of_ascii c in
  if ((97 <=? n) && (n <=? 122))
     || ((224 <=? n) && (n <=? 254) && negb (n =? 247))
  then ascii_of_nat (n - 32) else c.

Definition lower (s : text) : text := map lower_char s.
Definition upper (s : text) : text := map upper_char s.

Fixpoint starts_with (p s : text) : bool :=
  match p, s with
  | [], _ => true
  | _ :: _, [] => false
  | a :: p', b :: s' => Ascii.eqb a b && starts_with p' s'
  end.

Fixpoint text_eqb (a b : text) : bool :=
  match a, b with
  | [], [] => true
  | x :: a', y :: b' => Ascii.eqb x y && text_eqb a' b'
  | _, _ => false
  end.

(** [str(n)] for a natural number and for an integer. *)
Definition str_nat (n : nat) : text :=
  chars (NilEmpty.string_of_uint (Nat.to_uint n)).

Definition str_Z (z : Z) : text :=
  match z with
  | Z0 => chars "0"
  | Zpos _ => str_nat (Z.to_nat z)
  | Zneg _ => "-"%char :: str_nat (Z.to_nat (- z))
  end.

(** [chr(97 + n)] *)
Definition chr97 (n : nat) : text := [ascii_of_nat (97 + n)].

End Text.
Import Text.

(* ================================================================== *)
(** ** Python values and exceptions *)

Module Py.

(** The three floats [json.loads] reads from the constants [NaN],
    [Infinity] and [-Infinity]. *)
Inductive nonfinite :=
| NaN
| Infinity
| NegInfinity.

(** What [json.loads] builds, with integers and the three floats above
    for numbers; other floats (fractions, exponents) are not modelled.  A
    dict keeps its keys in insertion order, each key once. *)
Inductive json :=
| JNull
| JBool (b : bool)
| JNum (n : Z)
| JFloat (f : nonfinite)
| JStr (s : text)
| JList (l : list json)
| JDict (d : list (text * json)).

Definition dict := list (text * json).

Inductive exn :=
| TypeError
| AttributeError
| IndexError
| ValueError
| RecursionError
| JSONDecodeError
| Unmodelled.

Inductive result (A : Type) :=
| Ok (a : A)
| Raise (e : exn).
Arguments Ok {A} a.
Arguments Raise {A} e.

Definition bind {A B} (r : result A) (k : A -> result B) : result B :=
  match r with
  | Ok a => k a
  | Raise e => Raise e
  end.

(** [bool(v)] *)
Definition truthy (v : json) : bool :=
  match v with
  | JNull => false
  | JBool b => b
  | JNum n => negb (n =? 0)%Z
  | JFloat _ => true
  | JStr s => match s with [] => false | _ => true end
  | JList l => match l with [] => false | _ => true end
  | JDict d => match d with [] => false | _ => true end
  end.

(** [a or b] *)
Definition py_or (a b : json) : json := if truthy a then a else b.

Fixpoint lookup (k : text) (d : dict) : option json :=
  match d with
  | [] => None
  | (k', v) :: d' => if text_eqb k k' then Some v else lookup k d'
  end.

(** [k in d] *)
Definition has_key (k : text) (d : dict) : bool :=
  match lookup k d with Some _ => true | None => false end.

(** [d.get(k)] and [d.get(k, default)] *)
Definition get (d : dict) (k : text) : json :=
  match lookup k d with Some v => v | None => JNull end.

Definition get_default (d : dict) (k : text) (default : json) : json :=
  match lookup k d with Some v => v | None => default end.

(** [d[k] = v]: an existing key keeps its place, a new one goes last. *)
Fixpoint set (d : dict) (k : text) (v : json) : dict :=
  match d with
  | [] => [(k, v)]
  | (k', v') :: d' =>
      if text_eqb k k' then (k', v) :: d' else (k', v') :: set d' k v
  end.

Definition is_dict (v : json) : bool :=
  match v with JDict _ => true | _ => false end.

Definition is_none (v : json) : bool :=
  match v with JNull => true | _ => false end.

(** [a == b]; [True == 1] and [False == 0] as in Python, dicts compared
    without regard to key order.  An infinity equals itself only, and NaN
    equals nothing, itself included.  [nested] holds for the items of a
    list and the values of a dict: there Python takes two items for equal
    when they are one object, and [json.loads] hands out one and the same
    object for every [NaN] it reads, so inside a list or a dict a NaN
    equals a NaN. *)
Fixpoint py_eq_at (nested : bool) (a b : json) {struct a} : bool :=
  match a, b with
  | JNull, JNull => true
  | JBool x, JBool y => Bool.eqb x y
  | JBool x, JNum n => (Z.b2z x =? n)%Z
  | JNum n, JBool x => (n =? Z.b2z x)%Z
  | JNum n, JNum m => (n =? m)%Z
  | JFloat NaN, JFloat NaN => nested
  | JFloat Infinity, JFloat Infinity => true
  | JFloat NegInfinity, JFloat NegInfinity => true
  | JStr s, JStr t => text_eqb s t
  | JList l, JList m =>
      (fix go (l m : list json) : bool :=
         match l, m with
         | [], [] => true
         | x :: l', y :: m' => py_eq_at true x y && go l' m'
         | _, _ => false
         end) l m
  | JDict d, JDict e =>
      (List.length d =? List.length e) &&
      (fix go (d : dict) : bool :=
         match d with
         | [] => true
         | (k, v) :: d' =>
             match lookup k e with
             | Some w => py_eq_at true v w
             | None => false
             end && go d'
         end) d
  | _, _ => false
  end.

Definition py_eq (a b : json) : bool := py_eq_at false a b.

(** The number a value stands for in an ordering comparison with a
    number: an integer ([True] is 1, [False] is 0) or one of the three
    floats; [str], [list], [dict] and [None] raise [TypeError] there. *)
Inductive number :=
| Int (z : Z)
| Float (f : nonfinite).

Definition as_number (v : json) : result number :=
  match v with
  | JNum n => Ok (Int n)
  | JBool b => Ok (Int (Z.b2z b))
  | JFloat f => Ok (Float f)
  | _ => Raise TypeError
  end.

(** [x < y] and [x <= y] on numbers: minus infinity is below every
    integer and plus infinity above, and a comparison with NaN is false. *)
Definition num_lt (x y : number) : bool :=
  match x, y with
  | Int a, Int b => (a <? b)%Z
  | Float NaN, _ => false
  | _, Float NaN => false
  | Float NegInfinity, Float NegInfinity => false
  | Float NegInfinity, _ => true
  | Float Infinity, _ => false
  | Int _, Float Infinity => true
  | Int _, Float NegInfinity => false
  end.

Definition num_le (x y : number) : bool :=
  match x, y with
  | Int a, Int b => (a <=? b)%Z
  | Float NaN, _ => false
  | _, Float NaN => false
  | Float NegInfinity, _ => true
  | Float Infinity, Float Infinity => true
  | Float Infinity, _ => false
  | Int _, Float Infinity => true
  | Int _, Float NegInfinity => false
  end.

(** [a > b] and [a >= b] with [b] a number. *)
Definition py_gt (a b : json) : result bool :=
  bind (as_number a) (fun x => bind (as_number b) (fun y => Ok (num_lt y x))).

Definition py_ge (a b : json) : result bool :=
  bind (as_number a) (fun x => bind (as_number b) (fun y => Ok (num_le y x))).

(** [len(v)] *)
Definition py_len (v : json) : result nat :=
  match v with
  | JStr s => Ok (List.length s)
  | JList l => Ok (List.length l)
  | JDict d => Ok (List.length d)
  | _ => Raise TypeError
  end.

(** The items a [for x in v] loop visits. *)
Definition py_iter (v : json) : result (list json) :=
  match v with
  | JStr s => Ok (map (fun c => JStr [c]) s)
  | JList l => Ok l
  | JDict d => Ok (map (fun kv => JStr (fst kv)) d)
  | _ => Raise TypeError
  end.

Definition join_comma (parts : list text) : text :=
  match parts with
  | [] => []
  | p :: ps => p ++ concat (map (fun q => chars ", " ++ q) ps)
  end.

(** [repr(v)], with a string always shown between single quotes and its
    characters as they are.  The code takes [str] of a value only to compare
    it, in lower case and trimmed, with fixed words, and the text of a list
    or a dict begins with its bracket or brace whatever its strings hold. *)
Fixpoint py_repr (v : json) : text :=
  match v with
  | JNull => chars "None"
  | JBool true => chars "True"
  | JBool false => chars "False"
  | JNum n => str_Z n
  | JFloat NaN => chars "nan"
  | JFloat Infinity => chars "inf"
  | JFloat NegInfinity => chars "-inf"
  | JStr s => squote :: s ++ [squote]
  | JList l => "["%char :: join_comma (map py_repr l) ++ chars "]"
  | JDict d =>
      "{"%char ::
      join_comma
        (map (fun kv => squote :: fst kv ++ squote :: chars ": "
                        ++ py_repr (snd kv)) d)
      ++ chars "}"
  end.

(** [str(v)] *)
Definition py_str (v : json) : text :=
  match v with
  | JStr s => s
  | _ => py_repr v
  end.

End Py.
Import Py.

(* ================================================================== *)
(** ** Delimiter-balanced scanners *)

Module Scanner.

(** The three mutable locals of the inner [for j in range(i, len(json_str))]
    loop of [_extract_questions_from_broken_json]. *)
Record scan_state := mk_scan {
  brace_count : Z;
  in_string : bool;
  escape_next : bool
}.

Definition scan_init : scan_state := mk_scan 0 false false.

Inductive scan_step :=
| Continue (st : scan_state)
| Closed.

(** One iteration of the loop body on character [c]. *)
Definition scan_char (st : scan_state) (c : ascii) : scan_step :=
  if escape_next st then
    Continue (mk_scan (brace_count st) (in_string st) false)
  else if Ascii.eqb c backslash then
    Continue (mk_scan (brace_count st) (in_string st) true)
  else if Ascii.eqb c dquote then
    Continue (mk_scan (brace_count st) (negb (in_string st)) false)
  else if negb (in_string st) then
    if Ascii.eqb c "{"%char then
      Continue (mk_scan (brace_count st + 1) (in_string st) false)
    else if Ascii.eqb c "}"%char then
      if (brace_count st - 1 =? 0)%Z then Closed
      else Continue (mk_scan (brace_count st - 1) (in_string st) false)
    else Continue st
  else Continue st.

(** Runs the loop over [s]: [Some n] when the loop breaks on the [n]-th
    character read (the span is the first [n] characters), [None] when the
    loop runs off the end of the text (the [for ... else] branch). *)
Fixpoint scan_from (st : scan_state) (s : text) : option nat :=
  match s with
  | [] => None
  | c :: rest =>
      match scan_char st c with
      | Closed => Some 1
      | Continue st' => option_map S (scan_from st' rest)
      end
  end.

(** The state after reading all of [s], when the loop did not break. *)
Fixpoint scan_chars (st : scan_state) (s : text) : scan_step :=
  match s with
  | [] => Continue st
  | c :: rest =>
      match scan_char st c with
      | Closed => Closed
      | Continue st' => scan_chars st' rest
      end
  end.

(** [obj_str = json_str[start_pos : j + 1]], for a text that begins at
    [start_pos]. *)
Definition object_span (s : text) : option text :=
  option_map (fun n => firstn n s) (scan_from scan_init s).

(** The bracket loop of [parse_quiz_questions] (strategy 2): its only
    local is [bracket_count]; quotes are not looked at. *)
Definition bracket_char (count : Z) (c : ascii) : Z + unit :=
  if Ascii.eqb c "["%char then inl (count + 1)%Z
  else if Ascii.eqb c "]"%char then
    if (count - 1 =? 0)%Z then inr tt else inl (count - 1)%Z
  else inl count.

Fixpoint bracket_from (count : Z) (s : text) : option nat :=
  match s with
  | [] => None
  | c :: rest =>
      match bracket_char count c with
      | inr _ => Some 1
      | inl count' => option_map S (bracket_from count' rest)
      end
  end.

(** [ai_response[start_pos:end_pos]] when [end_pos > start_pos]. *)
Definition array_span (s : text) : option text :=
  option_map (fun n => firstn n s) (bracket_from 0 s).

(** The body of a string literal as the object scanner reads it: ordinary
    characters, and escape pairs (a backslash and the character after
    it). *)
Inductive string_body : text -> Prop :=
| body_nil : string_body []
| body_plain c s :
    c <> dquote -> c <> backslash -> string_body s -> string_body (c :: s)
| body_escape c s :
    string_body s -> string_body (backslash :: c :: s).

Definition quoted (body : text) : text := dquote :: body ++ [dquote].

End Scanner.
Import Scanner.

(* ================================================================== *)
(** ** The syntax repair pass *)

Module Repair.

Definition is_closer (c : ascii) : bool :=
  Ascii.eqb c "}"%char || Ascii.eqb c "]"%char.

(** Does [\s*[}\]]] match at the head of [s]? *)
Definition closer_ahead (s : text) : bool :=
  match drop_while is_space s with
  | c :: _ => is_closer c
  | [] => false
  end.

(** [re.sub(r",(\s*[}\]])", r"\1", s)].  A match is a comma, a run of
    white space and a closer, and is replaced by the run and the closer:
    the comma goes.  No match starts inside another one (only its first
    character is a comma), so the substitution deletes exactly the commas at
    which the pattern matches. *)
Fixpoint remove_trailing_commas (s : text) : text :=
  match s with
  | [] => []
  | c :: rest =>
      if Ascii.eqb c ","%char && closer_ahead rest
      then remove_trailing_commas rest
      else c :: remove_trailing_commas rest
  end.

(** The replacement argument of the second substitution is the Python
    literal ["\\n"], that is a backslash and the letter n; [re.sub] reads
    such a template and expands the escape, so what is inserted is one line
    feed. *)
Definition newline_template : text := [newline].

(** [re.sub(r"(?<!\\)\n", "\\n", s)]: every line feed whose preceding
    character is not a backslash is replaced by the expanded template. *)
Fixpoint sub_unescaped_newlines (after_backslash : bool) (s : text) : text :=
  match s with
  | [] => []
  | c :: rest =>
      (if Ascii.eqb c newline && negb after_backslash
       then newline_template else [c])
      ++ sub_unescaped_newlines (Ascii.eqb c backslash) rest
  end.

(** [re.sub(r"//.*?$", "", s, flags=re.MULTILINE)]: from the first [//]
    of a line up to, not including, the line feed that ends it (or the end
    of the text).  [in_comment] holds while inside such a match. *)
Fixpoint strip_line_comments (in_comment : bool) (s : text) : text :=
  match s with
  | [] => []
  | c :: rest =>
      if in_comment then
        if Ascii.eqb c newline then c :: strip_line_comments false rest
        else strip_line_comments true rest
      else
        match rest with
        | d :: _ =>
            if Ascii.eqb c "/"%char && Ascii.eqb d "/"%char
            then strip_line_comments true rest
            else c :: strip_line_comments false rest
        | [] => [c]
        end
  end.

Definition fix_json (json_str : text) : text :=
  let json_str := remove_trailing_commas json_str in
  let json_str := sub_unescaped_newlines false json_str in
  strip_line_comments false json_str.

(** Classes of text used to state where the pass does nothing new. *)

Definition head_is_slash (s : text) : bool :=
  match s with
  | c :: _ => Ascii.eqb c "/"%char
  | [] => false
  end.

(** Two slashes in a row somewhere. *)
Fixpoint has_double_slash (s : text) : bool :=
  match s with
  | [] => false
  | c :: rest =>
      match rest with
      | d :: _ =>
          (Ascii.eqb c "/"%char && Ascii.eqb d "/"%char)
          || has_double_slash rest
      | [] => false
      end
  end.

(** A comma followed, after white space only, by a closer. *)
Fixpoint has_trailing_comma (s : text) : bool :=
  match s with
  | [] => false
  | c :: rest =>
      (Ascii.eqb c ","%char && closer_ahead rest) || has_trailing_comma rest
  end.

(** Does [\s*,\s*[}\]]] match at the head of [s]? *)
Fixpoint comma_closer_ahead (s : text) : bool :=
  match s with
  | [] => false
  | c :: rest =>
      if is_space c then comma_closer_ahead rest
      else Ascii.eqb c ","%char && closer_ahead rest
  end.

(** Two commas, with white space only between them, before a closer. *)
Fixpoint has_double_trailing_comma (s : text) : bool :=
  match s with
  | [] => false
  | c :: rest =>
      (Ascii.eqb c ","%char && comma_closer_ahead rest)
      || has_double_trailing_comma rest
  end.

End Repair.
Import Repair.

(* ================================================================== *)
(** ** The regular expressions of the extractors

    The patterns the code hands to [re] are sequences of: literals (some
    matched ignoring case), an alternation of literals, greedy [c*] and
    [c+] over a character class, [[^c]*c], one character of any kind, lazy
    [.*?] under [re.DOTALL], and a lookahead.  [match_pieces] matches such
    a sequence at the head of a text the way a backtracking matcher does,
    trying longer runs first for a greedy piece and shorter ones first for
    a lazy piece, and returns the length matched with the offsets of the
    group marks. *)

Module Regex.

Inductive piece :=
| PLit (t : text)
| PLitI (t : text)
| PAltI (ts : list text)
| POpt (t : text)
| PStar (p : ascii -> bool)
| PPlus (p : ascii -> bool)
| PUntil (c : ascii)
| PAny
| PLazy
| PAhead (look : text -> bool)
| PMark.

Definition shift (k : nat) (r : option (nat * list nat))
  : option (nat * list nat) :=
  match r with
  | Some (n, ms) => Some (k + n, map (Nat.add k) ms)
  | None => None
  end.

Fixpoint index_of (c : ascii) (s : text) : option nat :=
  match s with
  | [] => None
  | d :: rest =>
      if Ascii.eqb c d then Some 0 else option_map S (index_of c rest)
  end.

(** [p] at the head of [s], letter case ignored; [p] is in lower
    case. *)
Fixpoint starts_with_ci (p s : text) : bool :=
  match p, s with
  | [], _ => true
  | _ :: _, [] => false
  | a :: p', b :: s' => Ascii.eqb a (lower_char b) && starts_with_ci p' s'
  end.

(** [$] without [re.MULTILINE]: the end of the text, or just before a
    line feed that ends it. *)
Definition at_end (s : text) : bool :=
  match s with
  | [] => true
  | [c] => Ascii.eqb c newline
  | _ => false
  end.

Fixpoint match_pieces (ps : list piece) (s : text) {struct ps}
  : option (nat * list nat) :=
  match ps with
  | [] => Some (0, [])
  | PLit t :: ps' =>
      if starts_with t s
      then shift (List.length t) (match_pieces ps' (skipn (List.length t) s))
      else None
  | PLitI t :: ps' =>
      if starts_with_ci t s
      then shift (List.length t) (match_pieces ps' (skipn (List.length t) s))
      else None
  | PAltI ts :: ps' =>
      (fix alternatives (ts : list text) : option (nat * list nat) :=
         match ts with
         | [] => None
         | t :: ts' =>
             match (if starts_with_ci t s
                    then shift (List.length t)
                           (match_pieces ps' (skipn (List.length t) s))
                    else None) with
             | Some r => Some r
             | None => alternatives ts'
             end
         end) ts
  | POpt t :: ps' =>
      match (if starts_with t s
             then shift (List.length t)
                    (match_pieces ps' (skipn (List.length t) s))
             else None) with
      | Some r => Some r
      | None => match_pieces ps' s
      end
  | PStar p :: ps' =>
      match (fix run (s : text) : option (nat * list nat) :=
               match s with
               | [] => None
               | c :: s' =>
                   if p c then
                     match run s' with
                     | Some r => shift 1 (Some r)
                     | None => shift 1 (match_pieces ps' s')
                     end
                   else None
               end) s with
      | Some r => Some r
      | None => match_pieces ps' s
      end
  | PPlus p :: ps' =>
      (fix run (s : text) : option (nat * list nat) :=
         match s with
         | [] => None
         | c :: s' =>
             if p c then
               match run s' with
               | Some r => shift 1 (Some r)
               | None => shift 1 (match_pieces ps' s')
               end
             else None
         end) s
  | PUntil c :: ps' =>
      match index_of c s with
      | Some i => shift (S i) (match_pieces ps' (skipn (S i) s))
      | None => None
      end
  | PAny :: ps' =>
      match s with
      | [] => None
      | _ :: s' => shift 1 (match_pieces ps' s')
      end
  | PLazy :: ps' =>
      (fix lazy (s : text) : option (nat * list nat) :=
         match match_pieces ps' s with
         | Some r => Some r
         | None =>
             match s with
             | [] => None
             | _ :: s' => shift 1 (lazy s')
             end
         end) s
  | PAhead look :: ps' =>
      if look s then match_pieces ps' s else None
  | PMark :: ps' =>
      match match_pieces ps' s with
      | Some (n, ms) => Some (n, 0 :: ms)
      | None => None
      end
  end.

(** [\s*] *)
Definition PSpaces : piece := PStar is_space.

(** A match: where it starts, the text matched, the group marks. *)
Record rmatch := mk_match {
  m_start : nat;
  m_text : text;
  m_marks : list nat
}.

Definition later (m : rmatch) : rmatch :=
  mk_match (S (m_start m)) (m_text m) (m_marks m).

(** [re.search]: the leftmost position at which the pattern matches. *)
Fixpoint search (ps : list piece) (s : text) : option rmatch :=
  match match_pieces ps s with
  | Some (n, ms) => Some (mk_match 0 (firstn n s) ms)
  | None =>
      match s with
      | [] => None
      | _ :: rest => option_map later (search ps rest)
      end
  end.

(** [re.finditer] for a pattern that matches no empty text: the matches
    from left to right, the scan resuming where a match ends.  [skip]
    counts the characters of the current match still to pass, [pos] is the
    offset of the head of [s]. *)
Fixpoint finditer_from (ps : list piece) (skip pos : nat) (s : text)
  : list rmatch :=
  match s with
  | [] => []
  | _ :: rest =>
      match skip with
      | S k => finditer_from ps k (S pos) rest
      | O =>
          match match_pieces ps s with
          | Some (n, ms) =>
              mk_match pos (firstn n s) ms
              :: finditer_from ps (n - 1) (S pos) rest
          | None => finditer_from ps 0 (S pos) rest
          end
      end
  end.

Definition finditer (ps : list piece) (s : text) : list rmatch :=
  finditer_from ps 0 0 s.

(** [m.group(k)], the text between marks [2k-2] and [2k-1]. *)
Definition group (k : nat) (m : rmatch) : text :=
  match nth_error (m_marks m) (2 * k - 2), nth_error (m_marks m) (2 * k - 1)
  with
  | Some a, Some b => firstn (b - a) (skipn a (m_text m))
  | _, _ => []
  end.

Definition group1 (m : rmatch) : text := group 1 m.


End Regex.
Import Regex.

(* ================================================================== *)
(** ** A reference decoder for [json.loads]

    The extractors below take the decoder as a parameter; this one is
    used to run them on concrete texts.  It covers objects, arrays,
    strings with the one-letter escapes, integers, the three constants
    [true], [false] and [null], and [NaN], [Infinity] and [-Infinity]; on
    [\u] escapes, fractions and exponents it answers [Unmodelled]. *)

Module JsonLib.

Inductive parse_out :=
| POk (v : json) (rest : text)
| PErr
| PFuel
| PUnsup.

Definition is_json_ws (c : ascii) : bool :=
  let n := nat_of_ascii c in
  (n =? 32) || (n =? 9) || (n =? 10) || (n =? 13).

Definition ws (s : text) : text := drop_while is_json_ws s.

Definition unescape (c : ascii) : option ascii :=
  let n := nat_of_ascii c in
  if n =? 34 then Some dquote
  else if n =? 92 then Some backslash
  else if n =? 47 then Some "/"%char
  else if n =? 98 then Some (ascii_of_nat 8)
  else if n =? 102 then Some (ascii_of_nat 12)
  else if n =? 110 then Some newline
  else if n =? 114 then Some (ascii_of_nat 13)
  else if n =? 116 then Some (ascii_of_nat 9)
  else None.

(** The characters after an opening quote, up to the closing one. *)
Fixpoint parse_string (acc s : text) : parse_out :=
  match s with
  | [] => PErr
  | c :: r =>
      if Ascii.eqb c dquote then POk (JStr (rev acc)) r
      else if Ascii.eqb c backslash then
        match r with
        | [] => PErr
        | e :: r' =>
            if Ascii.eqb e "u"%char then PUnsup
            else match unescape e with
                 | Some d => parse_string (d :: acc) r'
                 | None => PErr
                 end
        end
      else if nat_of_ascii c <? 32 then PErr
      else parse_string (c :: acc) r
  end.

Fixpoint parse_digits (acc : Z) (s : text) : Z * text :=
  match s with
  | c :: r =>
      if is_digit c
      then parse_digits (10 * acc + Z.of_nat (nat_of_ascii c - 48))%Z r
      else (acc, s)
  | [] => (acc, [])
  end.

Definition starts_fraction (s : text) : bool :=
  match s with
  | c :: _ => Ascii.eqb c "."%char || Ascii.eqb c "e"%char
              || Ascii.eqb c "E"%char
  | [] => false
  end.

(** An optional sign, then a single zero or a run of digits that does
    not begin with zero. *)
Definition parse_int (sign : Z) (s : text) : parse_out :=
  match s with
  | c :: r =>
      if Ascii.eqb c "0"%char then
        if starts_fraction r then PUnsup else POk (JNum 0) r
      else if is_digit c then
        let (n, r') := parse_digits 0 s in
        if starts_fraction r' then PUnsup else POk (JNum (sign * n)) r'
      else if starts_with (chars "Infinity") s
      then POk (JFloat (if (sign <? 0)%Z then NegInfinity else Infinity))
             (skipn 8 s)
      else PErr
  | [] => PErr
  end.

Inductive pmode :=
| MValue
| MElems (acc : list json)
| MMembers (acc : dict).

Fixpoint parse (fuel : nat) (m : pmode) (s : text) : parse_out :=
  match fuel with
  | O => PFuel
  | S f =>
      match m with
      | MValue =>
          match s with
          | [] => PErr
          | c :: r =>
              if Ascii.eqb c "{"%char then
                match ws r with
                | d :: r' =>
                    if Ascii.eqb d "}"%char then POk (JDict []) r'
                    else parse f (MMembers []) (ws r)
                | [] => PErr
                end
              else if Ascii.eqb c "["%char then
                match ws r with
                | d :: r' =>
                    if Ascii.eqb d "]"%char then POk (JList []) r'
                    else parse f (MElems []) (ws r)
                | [] => PErr
                end
              else if Ascii.eqb c dquote then parse_string [] r
              else if Ascii.eqb c "-"%char then parse_int (-1) r
              else if starts_with (chars "true") s
              then POk (JBool true) (skipn 4 s)
              else if starts_with (chars "false") s
              then POk (JBool false) (skipn 5 s)
              else if starts_with (chars "null") s
              then POk JNull (skipn 4 s)
              else if starts_with (chars "NaN") s
              then POk (JFloat NaN) (skipn 3 s)
              else parse_int 1 s
          end
      | MElems acc =>
          match parse f MValue s with
          | POk v r =>
              match ws r with
              | d :: r' =>
                  if Ascii.eqb d ","%char
                  then parse f (MElems (acc ++ [v])) (ws r')
                  else if Ascii.eqb d "]"%char
                  then POk (JList (acc ++ [v])) r'
                  else PErr
              | [] => PErr
              end
          | other => other
          end
      | MMembers acc =>
          match s with
          | q :: r =>
              if Ascii.eqb q dquote then
                match parse_string [] r with
                | POk (JStr k) r1 =>
                    match ws r1 with
                    | colon :: r2 =>
                        if Ascii.eqb colon ":"%char then
                          match parse f MValue (ws r2) with
                          | POk v r3 =>
                              match ws r3 with
                              | d :: r4 =>
                                  if Ascii.eqb d ","%char
                                  then parse f (MMembers (set acc k v)) (ws r4)
                                  else if Ascii.eqb d "}"%char
                                  then POk (JDict (set acc k v)) r4
                                  else PErr
                              | [] => PErr
                              end
                          | other => other
                          end
                        else PErr
                    | [] => PErr
                    end
                | POk _ _ => PErr
                | other => other
                end
              else PErr
          | [] => PErr
          end
      end
  end.

Definition py_json_loads (s : text) : result json :=
  match parse (2 * List.length s + 2) MValue (ws s) with
  | POk v r =>
      match ws r with
      | [] => Ok v
      | _ :: _ => Raise JSONDecodeError
      end
  | PErr => Raise JSONDecodeError
  | PFuel => Raise RecursionError
  | PUnsup => Raise Unmodelled
  end.

End JsonLib.
Import JsonLib.


(* ================================================================== *)
(** ** The salvage scanners *)

Module Salvage.

Section WithDecoder.

(** [json.loads] *)
Variable json_loads : text -> result json.

(** The test [isinstance(obj, dict) and "text" in obj and "options" in
    obj], then [isinstance(obj.get("options"), list) and
    len(obj.get("options", [])) >= 2]. *)
Definition question_shaped (obj : json) : option dict :=
  match obj with
  | JDict d =>
      if has_key (chars "text") d && has_key (chars "options") d then
        match get d (chars "options") with
        | JList l => if 2 <=? List.length l then Some d else None
        | _ => None
        end
      else None
  | _ => None
  end.

(** [if not obj.get(k): obj[k] = v] *)
Definition default_field (d : dict) (k : text) (v : json) : dict :=
  if truthy (get d k) then d else set d k v.

(** The four "Ensure required fields" assignments; [i] is the number
    written into a missing id. *)
Definition fill_defaults (i : nat) (d : dict) : dict :=
  let d := default_field d (chars "id") (JStr (str_nat i)) in
  let d := default_field d (chars "correctAnswer") (JStr (chars "a")) in
  let d := default_field d (chars "explanation")
             (JStr (chars "Generated question")) in
  default_field d (chars "topic") (JStr (chars "General")).

(** The body run when the scanner closes a span: decode, test, fill in,
    append.  Both [except] clauses leave [questions] as it was. *)
Definition process_span (questions : list json) (obj_str : text)
  : list json :=
  match json_loads obj_str with
  | Ok obj =>
      match question_shaped obj with
      | Some d =>
          questions ++ [JDict (fill_defaults (List.length questions + 1) d)]
      | None => questions
      end
  | Raise _ => questions
  end.

(** The [while i < len(json_str)] loop.  [s] is [json_str[i:]] and [skip]
    the number of characters still to pass after [i = j + 1]. *)
Fixpoint balanced_loop (skip : nat) (s : text) (questions : list json)
  : list json :=
  match s with
  | [] => questions
  | c :: rest =>
      match skip with
      | S k => balanced_loop k rest questions
      | O =>
          if Ascii.eqb c "{"%char then
            match scan_from scan_init s with
            | Some n =>
                balanced_loop (n - 1) rest
                  (process_span questions (firstn n s))
            | None => balanced_loop 0 rest questions
            end
          else balanced_loop 0 rest questions
      end
  end.

(** The same body and loop with, next to each record, the offset
    [start_pos] of the brace its span begins at; [pos] is the offset of the
    head of [s]. *)
Definition process_span_located (pos : nat) (questions : list (nat * json))
  (obj_str : text) : list (nat * json) :=
  match json_loads obj_str with
  | Ok obj =>
      match question_shaped obj with
      | Some d =>
          questions
          ++ [(pos, JDict (fill_defaults (List.length questions + 1) d))]
      | None => questions
      end
  | Raise _ => questions
  end.

Fixpoint balanced_loop_located (skip pos : nat) (s : text)
  (questions : list (nat * json)) : list (nat * json) :=
  match s with
  | [] => questions
  | c :: rest =>
      match skip with
      | S k => balanced_loop_located k (S pos) rest questions
      | O =>
          if Ascii.eqb c "{"%char then
            match scan_from scan_init s with
            | Some n =>
                balanced_loop_located (n - 1) (S pos) rest
                  (process_span_located pos questions (firstn n s))
            | None => balanced_loop_located 0 (S pos) rest questions
            end
          else balanced_loop_located 0 (S pos) rest questions
      end
  end.

(** [\{"id"\s*:\s*"[^"]*"\s*,\s*"text"\s*:\s*"[^"]*"\s*,\s*"options"\s*:\s*\[[^\]]*\]] *)
Definition question_pattern : list piece :=
  [ PLit (lit "{'id'"); PSpaces; PLit (chars ":"); PSpaces;
    PLit [dquote]; PUntil dquote; PSpaces; PLit (chars ","); PSpaces;
    PLit (lit "'text'"); PSpaces; PLit (chars ":"); PSpaces;
    PLit [dquote]; PUntil dquote; PSpaces; PLit (chars ","); PSpaces;
    PLit (lit "'options'"); PSpaces; PLit (chars ":"); PSpaces;
    PLit (chars "["); PUntil "]"%char ].

(** ["options"\s*:\s*\[.*?\]] under [re.DOTALL] *)
Definition options_pattern : list piece :=
  [ PLit (lit "'options'"); PSpaces; PLit (chars ":"); PSpaces;
    PLit (chars "["); PLazy; PLit (chars "]") ].

Definition ends_with_brace (s : text) : bool :=
  match rev s with
  | c :: _ => Ascii.eqb c "}"%char
  | [] => false
  end.

(** The body of the regex loop for the [i]-th match.  Every exception
    inside is swallowed by the bare [except]. *)
Definition complete_partial (i : nat) (obj_str : text) : option json :=
  if negb (ends_with_brace obj_str) then
    match search options_pattern obj_str with
    | Some m =>
        let options_end := m_start m + List.length (m_text m) in
        let partial_obj := firstn options_end obj_str ++ chars "}" in
        match json_loads partial_obj with
        | Ok (JDict d) =>
            if has_key (chars "text") d && has_key (chars "options") d
            then Some (JDict (fill_defaults i d))
            else None
        | _ => None
        end
    | None => None
    end
  else None.

Fixpoint regex_loop (i : nat) (matches : list rmatch) : list json :=
  match matches with
  | [] => []
  | m :: rest =>
      match complete_partial i (m_text m) with
      | Some obj => obj :: regex_loop (S i) rest
      | None => regex_loop (S i) rest
      end
  end.

Definition regex_pass (json_str : text) : list json :=
  regex_loop 1 (finditer question_pattern json_str).

Definition balanced_pass (json_str : text) : list json :=
  balanced_loop 0 json_str [].

Definition balanced_pass_located (json_str : text) : list (nat * json) :=
  balanced_loop_located 0 0 json_str [].

Definition extract_questions_from_broken_json (json_str : text)
  : list json :=
  match balanced_pass json_str with
  | [] => regex_pass json_str
  | questions => questions
  end.

(** [\{"question"[^}]*\}] *)
Definition error_object_pattern : list piece :=
  [ PLit (lit "{'question'"); PUntil "}"%char ].

Fixpoint decode_all (matches : list rmatch) : list json :=
  match matches with
  | [] => []
  | m :: rest =>
      match json_loads (m_text m) with
      | Ok error_obj => error_obj :: decode_all rest
      | Raise _ => decode_all rest
      end
  end.

Definition extract_errors_from_broken_json (json_str : text) : list json :=
  decode_all (finditer error_object_pattern json_str).

(** Where a located record comes from: the brace at offset [p] of the
    text opens a span the scanner closes, and the record is that span
    decoded, accepted and filled in. *)
Definition record_source (json_str : text) (located : nat * json) : Prop :=
  let (p, record) := located in
  exists n obj d k,
    nth_error json_str p = Some "{"%char
    /\ scan_from scan_init (skipn p json_str) = Some n
    /\ json_loads (firstn n (skipn p json_str)) = Ok obj
    /\ question_shaped obj = Some d
    /\ record = JDict (fill_defaults k d).


(** [r] decodes a span of [json_str] that begins with the quoted key
    [question] right after a brace and ends at the first closing brace
    after it. *)
Definition error_source (json_str : text) (r : json) : Prop :=
  exists pre body post,
    json_str = pre ++ (lit "{'question'" ++ body ++ chars "}") ++ post
    /\ ~ In "}"%char body
    /\ json_loads (lit "{'question'" ++ body ++ chars "}") = Ok r.

(** *** Truncated arrays

    The shape of a text cut off inside the last object of an array: some
    text with no brace, then complete records each followed by a separator
    with no brace, then a tail in which no closed span decodes to a
    record. *)

Definition no_brace (s : text) : bool :=
  forallb (fun c => negb (Ascii.eqb c "{"%char)) s.

(** Does the loop body keep the span [t]? *)
Definition accepted (t : text) : bool :=
  match json_loads t with
  | Ok obj =>
      match question_shaped obj with Some _ => true | None => false end
  | Raise _ => false
  end.

(** No brace of [s] opens a span that closes and is kept. *)
Fixpoint holds_no_record (s : text) : bool :=
  match s with
  | [] => true
  | c :: rest =>
      (if Ascii.eqb c "{"%char then
         match scan_from scan_init s with
         | Some n => negb (accepted (firstn n s))
         | None => true
         end
       else true)
      && holds_no_record rest
  end.

(** A complete record in the text: its characters, what follows it up
    to the next record, and the dict it decodes to. *)
Record complete_record := mk_record {
  rec_text : text;
  rec_sep : text;
  rec_dict : dict
}.

Definition well_formed_record (r : complete_record) : Prop :=
  (exists o, rec_text r = "{"%char :: o)
  /\ scan_from scan_init (rec_text r) = Some (List.length (rec_text r))
  /\ (exists obj, json_loads (rec_text r) = Ok obj
                  /\ question_shaped obj = Some (rec_dict r))
  /\ no_brace (rec_sep r) = true.

Definition records_text (records : list complete_record) : text :=
  concat (map (fun r => rec_text r ++ rec_sep r) records).

(** The records the loop appends, the first of them as number
    [start + 1]. *)
Fixpoint records_from (start : nat) (ds : list dict) : list json :=
  match ds with
  | [] => []
  | d :: ds' =>
      JDict (fill_defaults (start + 1) d) :: records_from (S start) ds'
  end.

(** A complete error record in the text: what stands between the quoted
    key [question] that follows its brace and its closing brace, what
    follows the record up to the next one, and the value it decodes to. *)
Record error_record := mk_error_record {
  err_body : text;
  err_sep : text;
  err_value : json
}.

Definition err_text (r : error_record) : text :=
  lit "{'question'" ++ err_body r ++ chars "}".

Definition no_closing_brace (s : text) : bool :=
  forallb (fun c => negb (Ascii.eqb c "}"%char)) s.

(** The body holds no closing brace, so the record is flat; the record
    decodes; the separator holds no opening brace. *)
Definition well_formed_error (r : error_record) : Prop :=
  no_closing_brace (err_body r) = true
  /\ json_loads (err_text r) = Ok (err_value r)
  /\ no_brace (err_sep r) = true.

Definition errors_text (records : list error_record) : text :=
  concat (map (fun r => err_text r ++ err_sep r) records).

End WithDecoder.

End Salvage.
Import Salvage.

(* ================================================================== *)
(** ** The error-record normalizer of [parse_midterm_analysis] *)

Module Normalizer.

Definition correct_words : list text :=
  [chars "correct"; chars "right"; chars "true"].

Definition incorrect_words : list text :=
  [chars "incorrect"; chars "wrong"; chars "false"].

Definition partial_words : list text :=
  [chars "partially_correct"; chars "partially correct"; chars "partial";
   chars "partially"].

Definition member (w : text) (ws : list text) : bool :=
  existsb (text_eqb w) ws.

(** The [if correctness: ... else: correctness = None] block:
    [Some] of a canonical word, or [None]. *)
Definition recognize (correctness : json) : option text :=
  if truthy correctness then
    let correctness_lower := strip (lower (py_str correctness)) in
    if member correctness_lower correct_words then Some (chars "correct")
    else if member correctness_lower incorrect_words
    then Some (chars "incorrect")
    else if member correctness_lower partial_words
    then Some (chars "partially_correct")
    else None
  else None.

(** The [if correctness is None and ... elif correctness is None] block,
    entered with [correctness is None]. *)
Definition from_marks (marks_received total_marks : json) : result text :=
  if negb (is_none marks_received) && negb (is_none total_marks) then
    bind (py_gt total_marks (JNum 0)) (fun positive =>
    if positive then
      bind (py_ge marks_received total_marks) (fun full =>
      if full then Ok (chars "correct")
      else
        bind (py_gt marks_received (JNum 0)) (fun some =>
        if some then Ok (chars "partially_correct")
        else Ok (chars "incorrect")))
    else Ok (chars "incorrect"))
  else Ok (chars "incorrect").

Definition marks_received_of (error : dict) : json :=
  py_or (get error (chars "marksReceived")) (get error (chars "marks_received")).

Definition total_marks_of (error : dict) : json :=
  py_or (get error (chars "totalMarks")) (get error (chars "total_marks")).

Definition correctness_of (error : dict) : json :=
  py_or (py_or (get error (chars "correctness")) (get error (chars "status")))
        (get error (chars "correctness_status")).

(** The value the loop body leaves in [correctness]. *)
Definition derive_correctness (error : dict) : result text :=
  match recognize (correctness_of error) with
  | Some c => Ok c
  | None => from_marks (marks_received_of error) (total_marks_of error)
  end.

(** One iteration of [for error in errors]; [error.get] raises
    [AttributeError] on anything but a dict. *)
Definition normalize_error (error : json) : result dict :=
  match error with
  | JDict e =>
      bind (derive_correctness e) (fun correctness =>
      Ok [ (chars "question", get_default e (chars "question") (JNum 0));
           (chars "yourAnswer",
            get_default e (chars "yourAnswer")
              (get_default e (chars "your_answer") (JStr [])));
           (chars "correctAnswer",
            get_default e (chars "correctAnswer")
              (get_default e (chars "correct_answer") (JStr [])));
           (chars "topic", get_default e (chars "topic") (JStr (chars "Unknown")));
           (chars "feedback", get_default e (chars "feedback") (JStr []));
           (chars "marksReceived", marks_received_of e);
           (chars "totalMarks", total_marks_of e);
           (chars "correctness", JStr correctness) ])
  | _ => Raise AttributeError
  end.

Fixpoint normalize_errors (errors : list json) : result (list json) :=
  match errors with
  | [] => Ok []
  | error :: rest =>
      bind (normalize_error error) (fun normalized_error =>
      bind (normalize_errors rest) (fun normalized_errors =>
      Ok (JDict normalized_error :: normalized_errors)))
  end.


(** The three values the field may end up with. *)
Definition canonical_correctness : list text :=
  [chars "correct"; chars "incorrect"; chars "partially_correct"].

(** A record whose correctness text is not a recognized word. *)
Definition sample_error (received : Z) : dict :=
  [ (chars "question", JNum 4);
    (chars "correctness", JStr (chars "see marks"));
    (chars "marksReceived", JNum received);
    (chars "totalMarks", JNum 5) ].


End Normalizer.
Import Normalizer.

(* ================================================================== *)
(** ** The tiered extractors *)

Module Extractor.

Section WithLibraries.

(** [json.loads] *)
Variable json_loads : text -> result json.

Definition colon_or_space (c : ascii) : bool :=
  Ascii.eqb c ":"%char || is_space c.

(** Is a question heading ahead: the word, or the letter q alone, then
    white space if any, then a digit? *)
Definition heading_ahead (s : text) : bool :=
  existsb
    (fun t =>
       starts_with_ci t s
       && match drop_while is_space (skipn (List.length t) s) with
          | c :: _ => is_digit c
          | [] => false
          end)
    [chars "question"; chars "q"].

(** The pattern of [_extract_questions_from_text], under [re.IGNORECASE]
    and [re.DOTALL]: the word question or the letter q, white space, digits,
    colons or white space, then a group of one character or more, lazily,
    up to where a heading or the end is ahead. *)
Definition question_text_pattern : list piece :=
  [ PAltI [chars "question"; chars "q"]; PStar is_space; PPlus is_digit;
    PPlus colon_or_space;
    PMark; PAny; PLazy; PMark;
    PAhead (fun s => heading_ahead s || at_end s) ].

(** [[m.group(1) for m in re.finditer(question_pattern, text, ...)]] *)
Definition question_text_groups (t : text) : list text :=
  map (group 1) (finditer question_text_pattern t).

(** The pattern of the structured-text fallback of
    [parse_midterm_analysis], under [re.IGNORECASE] and [re.DOTALL]: five
    labels, each followed by colons or white space and a group. *)
Definition error_text_pattern : list piece :=
  [ PLitI (chars "question"); PPlus colon_or_space;
    PMark; PPlus is_digit; PMark; PLazy;
    PLitI (chars "youranswer"); PPlus colon_or_space; PMark; PLazy; PMark;
    PLitI (chars "correctanswer"); PPlus colon_or_space; PMark; PLazy; PMark;
    PLitI (chars "topic"); PPlus colon_or_space; PMark; PLazy; PMark;
    PLitI (chars "feedback"); PPlus colon_or_space; PMark; PLazy; PMark;
    PAhead (fun s => starts_with_ci (chars "question") s || at_end s) ].

Definition error_text_groups (t : text)
  : list (text * text * text * text * text) :=
  map (fun m => (group 1 m, group 2 m, group 3 m, group 4 m, group 5 m))
    (finditer error_text_pattern t).

Definition str_field (k v : string) : text * json := (chars k, JStr (chars v)).

Definition placeholder_options : json :=
  JList [ JDict [str_field "id" "a"; str_field "text" "Option A"];
          JDict [str_field "id" "b"; str_field "text" "Option B"];
          JDict [str_field "id" "c"; str_field "text" "Option C"];
          JDict [str_field "id" "d"; str_field "text" "Option D"] ].

(** The loop of [_extract_questions_from_text]; [i] counts the matches
    from 1. *)
Fixpoint text_questions_loop (i : nat) (groups : list text) : list json :=
  match groups with
  | [] => []
  | g :: rest =>
      let question_text := strip g in
      if 20 <? List.length question_text then
        JDict [ (chars "id", JStr (str_nat i));
                (chars "text", JStr (firstn 200 question_text));
                (chars "options", placeholder_options);
                str_field "correctAnswer" "a";
                str_field "explanation" "Generated from AI response";
                str_field "topic" "General" ]
        :: text_questions_loop (S i) rest
      else text_questions_loop (S i) rest
  end.

Definition extract_questions_from_text (t : text) : list json :=
  text_questions_loop 1 (question_text_groups t).

(** Strategy 1: three backquotes, an optional [json], white space, a
    group from a bracket lazily up to a closing bracket, white space, three
    backquotes; under [re.DOTALL]. *)
Definition code_block_pattern : list piece :=
  [ PLit (chars "```"); POpt (chars "json"); PSpaces;
    PMark; PLit (chars "["); PLazy; PLit (chars "]"); PMark;
    PSpaces; PLit (chars "```") ].

(** [len(questions) > len(best_questions)] decides which list stays. *)
Definition keep_longer (best questions : list json) : list json :=
  if List.length best <? List.length questions then questions else best.

(** The body of the strategy-2 loop for the bracket at the head of
    [suffix]. *)
Definition try_bracket (best : list json) (suffix : text)
  : result (list json) :=
  match bracket_from 0 suffix with
  | None => Ok best
  | Some n =>
      let json_str := firstn n suffix in
      if 100 <? List.length json_str then
        match json_loads json_str with
        | Ok (JList questions) => Ok (keep_longer best questions)
        | Ok _ => Ok best
        | Raise JSONDecodeError =>
            let fixed := fix_json json_str in
            match json_loads fixed with
            | Ok (JList questions) => Ok (keep_longer best questions)
            | Ok _ => Ok best
            | Raise _ =>
                Ok (keep_longer best
                      (extract_questions_from_broken_json json_loads
                         json_str))
            end
        | Raise e => Raise e
        end
      else Ok best
  end.

(** [for start_match in json_matches], one iteration per bracket. *)
Fixpoint bracket_loop (s : text) (best : list json) : result (list json) :=
  match s with
  | [] => Ok best
  | c :: rest =>
      if Ascii.eqb c "["%char
      then bind (try_bracket best s) (bracket_loop rest)
      else bracket_loop rest best
  end.

Fixpoint last_index_of (c : ascii) (s : text) : option nat :=
  match s with
  | [] => None
  | d :: rest =>
      match last_index_of c rest with
      | Some i => Some (S i)
      | None => if Ascii.eqb c d then Some 0 else None
      end
  end.

(** The fallback search: a bracket, at least a hundred characters of any
    kind, greedily, and a closing bracket; so from the first bracket that
    has a closing bracket more than a hundred characters later, to the last
    closing bracket of the text. *)
Fixpoint search_long_array (s : text) : option text :=
  match s with
  | [] => None
  | c :: rest =>
      match (if Ascii.eqb c "["%char then
               match last_index_of "]"%char rest with
               | Some i => if 100 <=? i then Some (firstn (i + 2) s) else None
               | None => None
               end
             else None) with
      | Some m => Some m
      | None => search_long_array rest
      end
  end.

(** Strategy 3: a brace, lazily up to the key between quotes, lazily up
    to a closing brace. *)
Definition questions_object_pattern : list piece :=
  [ PLit (chars "{"); PLazy; PLit (lit "'questions'"); PLazy;
    PLit (chars "}") ].

(** What the strategies after the bracket loop do; [None] stands for
    falling through to the next strategy. *)
Definition fallback_search (ai_response : text)
  : result (option (list json)) :=
  match search_long_array ai_response with
  | None => Ok None
  | Some json_str =>
      match json_loads json_str with
      | Ok (JList (q :: qs)) => Ok (Some (q :: qs))
      | Ok _ => Ok None
      | Raise JSONDecodeError =>
          let json_str := fix_json json_str in
          match json_loads json_str with
          | Ok (JList (q :: qs)) => Ok (Some (q :: qs))
          | Ok _ => Ok None
          | Raise JSONDecodeError =>
              match extract_questions_from_broken_json json_loads json_str with
              | q :: qs => Ok (Some (q :: qs))
              | [] =>
                  match extract_questions_from_broken_json json_loads
                          ai_response with
                  | q :: qs => Ok (Some (q :: qs))
                  | [] => Ok None
                  end
              end
          | Raise e => Raise e
          end
      | Raise e => Raise e
      end
  end.

Definition questions_object (ai_response : text)
  : result (option (list json)) :=
  match search questions_object_pattern ai_response with
  | None => Ok None
  | Some m =>
      match json_loads (m_text m) with
      | Ok (JDict data) =>
          match lookup (chars "questions") data with
          | Some (JList (q :: qs)) => Ok (Some (q :: qs))
          | _ => Ok None
          end
      | Ok _ => Ok None
      | Raise JSONDecodeError => Ok None
      | Raise e => Raise e
      end
  end.

Definition code_block (ai_response : text) : result (option (list json)) :=
  match search code_block_pattern ai_response with
  | None => Ok None
  | Some m =>
      match json_loads (group1 m) with
      | Ok (JList (q :: qs)) => Ok (Some (q :: qs))
      | Ok _ => Ok None
      | Raise JSONDecodeError => Ok None
      | Raise e => Raise e
      end
  end.

(** [a] if it returned a list, else [b]. *)
Definition or_else (a : result (option (list json)))
  (b : result (list json)) : result (list json) :=
  match a with
  | Ok (Some questions) => Ok questions
  | Ok None => b
  | Raise e => Raise e
  end.

Definition nonempty (l : list json) : option (list json) :=
  match l with [] => None | _ => Some l end.

(** The [try] block of [parse_quiz_questions]. *)
Definition parse_quiz_questions_body (ai_response : text)
  : result (list json) :=
  or_else (code_block ai_response)
  (or_else (bind (bracket_loop ai_response [])
              (fun best => Ok (nonempty best)))
  (or_else (fallback_search ai_response)
  (or_else (questions_object ai_response)
  (or_else (Ok (nonempty
                  (extract_questions_from_broken_json json_loads
                     ai_response)))
  (or_else (Ok (nonempty (extract_questions_from_text ai_response)))
  (Ok [])))))).

(** [except Exception as e: ... return []] around the block.  The one
    statement in front of the [try] logs [ai_response[:1000]], which raises
    nothing on a [str]. *)
Definition parse_quiz_questions (ai_response : text) : result (list json) :=
  match parse_quiz_questions_body ai_response with
  | Ok questions => Ok questions
  | Raise _ => Ok []
  end.

(** [\[.*?\]] under [re.DOTALL] *)
Definition array_pattern : list piece :=
  [ PLit (chars "["); PLazy; PLit (chars "]") ].

(** A brace, lazily up to the key [errors] between quotes, lazily up to a
    closing brace. *)
Definition errors_object_pattern : list piece :=
  [ PLit (chars "{"); PLazy; PLit (lit "'errors'"); PLazy; PLit (chars "}") ].

Definition object_pattern : list piece :=
  [ PLit (chars "{"); PLazy; PLit (chars "}") ].

(** [re.search] of the alternation [p|q]: at each position [p] is tried
    before [q]. *)
Fixpoint search_either (p q : list piece) (s : text) : option text :=
  match match_pieces p s with
  | Some (n, _) => Some (firstn n s)
  | None =>
      match match_pieces q s with
      | Some (n, _) => Some (firstn n s)
      | None =>
          match s with
          | [] => None
          | _ :: rest => search_either p q rest
          end
      end
  end.

(** A match is never empty here, so [if not json_str] asks whether the
    earlier searches failed. *)
Definition find_json_str (ai_response : text) : option text :=
  match search array_pattern ai_response with
  | Some m => Some (m_text m)
  | None =>
      match search errors_object_pattern ai_response with
      | Some m => Some (m_text m)
      | None => search_either object_pattern array_pattern ai_response
      end
  end.

(** [errors] as chosen by the [isinstance] chain, then iterated. *)
Definition errors_of (data : json) : result (list json) :=
  match data with
  | JDict d =>
      match lookup (chars "errors") d with
      | Some errors => py_iter errors
      | None => Ok [data]
      end
  | JList l => Ok l
  | _ => Ok []
  end.

(** [int(s)] on a run of digits; CPython 3.11 and later raise
    [ValueError] beyond 4300 digits. *)
Definition py_int (digits : text) : result Z :=
  if 4300 <? List.length digits then Raise ValueError
  else if forallb is_digit digits && negb (List.length digits =? 0)
  then Ok (fst (parse_digits 0 digits))
  else Raise ValueError.

Fixpoint text_errors_loop (groups : list (text * text * text * text * text))
  : result (list json) :=
  match groups with
  | [] => Ok []
  | (g1, g2, g3, g4, g5) :: rest =>
      bind (py_int g1) (fun question =>
      bind (text_errors_loop rest) (fun errors =>
      Ok (JDict [ (chars "question", JNum question);
                  (chars "yourAnswer", JStr (strip g2));
                  (chars "correctAnswer", JStr (strip g3));
                  (chars "topic", JStr (strip g4));
                  (chars "feedback", JStr (strip g5));
                  (chars "marksReceived", JNull);
                  (chars "totalMarks", JNull);
                  str_field "correctness" "incorrect" ]
          :: errors)))
  end.

(** The [if json_str:] block. *)
Definition from_json_str (json_str : text) : result (option (list json)) :=
  let json_str := fix_json json_str in
  match json_loads json_str with
  | Ok data =>
      bind (errors_of data) (fun errors =>
      bind (normalize_errors errors) (fun normalized_errors =>
      Ok (nonempty normalized_errors)))
  | Raise JSONDecodeError =>
      Ok (nonempty (extract_errors_from_broken_json json_loads json_str))
  | Raise e => Raise e
  end.

(** The [try] block of [parse_midterm_analysis]. *)
Definition parse_midterm_analysis_body (ai_response : text)
  : result (list json) :=
  or_else (match find_json_str ai_response with
           | Some json_str => from_json_str json_str
           | None => Ok None
           end)
  (bind (text_errors_loop (error_text_groups ai_response)) (fun errors =>
   Ok errors)).

Definition parse_midterm_analysis (ai_response : text) : result (list json) :=
  match parse_midterm_analysis_body ai_response with
  | Ok errors => Ok errors
  | Raise _ => Ok []
  end.

(** *** The lists the bracket loop chooses from *)

(** The texts [ai_response[start_pos:]], one per bracket, from left to
    right. *)
Fixpoint bracket_suffixes (s : text) : list text :=
  match s with
  | [] => []
  | c :: rest =>
      if Ascii.eqb c "["%char then s :: bracket_suffixes rest
      else bracket_suffixes rest
  end.

(** The list one iteration offers: what it would leave in
    [best_questions] when that is still empty. *)
Definition candidate (suffix : text) : result (list json) :=
  try_bracket [] suffix.

(** [best] is in [candidates], nothing there is longer, and everything
    before it is shorter. *)
Definition first_longest (candidates : list (list json)) (best : list json)
  : Prop :=
  exists k,
    nth_error candidates k = Some best
    /\ forall j c,
         nth_error candidates j = Some c ->
         List.length c <= List.length best
         /\ (j < k -> List.length c < List.length best).

(** *** Where the returned lists come from *)







End WithLibraries.

End Extractor.
Import Extractor.

(* ================================================================== *)
(** ** The quiz validator of [generate_quiz_from_errors] *)

Module Validator.

(** [chr(97 + len(valid_options)) if len(valid_options) < 26 else
    str(len(valid_options))] *)
Definition default_id (n : nat) : text :=
  if n <? 26 then chr97 n else str_nat n.

Definition option_record (opt_id opt_text : json) : dict :=
  [ (chars "id", opt_id); (chars "text", opt_text) ].

(** One iteration of [for opt in options]. *)
Definition add_option (valid_options : list dict) (opt : json) : list dict :=
  match opt with
  | JDict o =>
      if has_key (chars "text") o || has_key (chars "id") o then
        let n := List.length valid_options in
        let opt_id :=
          if truthy (get o (chars "id")) then get o (chars "id")
          else JStr (default_id n) in
        let opt_text :=
          if truthy (get o (chars "text")) then get o (chars "text")
          else if truthy (get o (chars "id")) then get o (chars "id")
          else JStr (chars "Option " ++ upper (default_id n)) in
        valid_options ++ [option_record opt_id opt_text]
      else valid_options
  | JStr t =>
      valid_options
      ++ [option_record (JStr (default_id (List.length valid_options)))
            (JStr t)]
  | _ => valid_options
  end.

Definition collect_options (options : list json) : list dict :=
  fold_left add_option options [].

(** Every entry of [valid_options] is built by [option_record]. *)
Definition is_option_record (o : dict) : Prop :=
  exists opt_id opt_text, o = option_record opt_id opt_text.

(** [valid_options[0].get("id", "a")] *)
Definition first_option_id (valid_options : list dict) : json :=
  match valid_options with
  | o :: _ => get_default o (chars "id") (JStr (chars "a"))
  | [] => JStr (chars "a")
  end.

Section WithTopics.

(** [topics_list[0]]; the list is not empty when the loop is reached. *)
Variable first_topic : text.

(** One iteration of [for i, q in enumerate(parsed_questions)]:
    [Ok None] for [continue], [Ok (Some validated_q)] for an append;
    [count] is [len(validated_questions)]. *)
Definition validate_question (count : nat) (q : json)
  : result (option dict) :=
  match q with
  | JDict d =>
      let question_text :=
        py_or (py_or (get d (chars "text")) (get d (chars "question")))
              (JStr []) in
      if negb (truthy question_text) then Ok None
      else
        match question_text with
        | JStr t =>
            if List.length (strip t) <? 10 then Ok None
            else
              let options := get_default d (chars "options") (JList []) in
              if negb (truthy options) then
                bind (py_len options) (fun _ => Ok None)
              else
                bind (py_len options) (fun n =>
                if n <? 2 then Ok None
                else
                  bind (py_iter options) (fun items =>
                  let valid_options := collect_options items in
                  if List.length valid_options <? 2 then Ok None
                  else
                    Ok (Some
                      [ (chars "id",
                         py_or (get d (chars "id"))
                               (JStr (str_nat (count + 1))));
                        (chars "text", JStr (strip t));
                        (chars "options", JList (map JDict valid_options));
                        (chars "correctAnswer",
                         py_or (py_or (get d (chars "correctAnswer"))
                                      (get d (chars "correct_answer")))
                               (first_option_id valid_options));
                        (chars "explanation",
                         py_or (get d (chars "explanation")) (JStr []));
                        (chars "topic",
                         py_or (get d (chars "topic")) (JStr first_topic)) ])))
        | _ => Raise AttributeError
        end
  | _ => Raise AttributeError
  end.

Fixpoint validate_loop (validated_questions : list dict)
  (parsed_questions : list json) : result (list dict) :=
  match parsed_questions with
  | [] => Ok validated_questions
  | q :: rest =>
      bind (validate_question (List.length validated_questions) q)
        (fun r =>
           match r with
           | Some validated_q =>
               validate_loop (validated_questions ++ [validated_q]) rest
           | None => validate_loop validated_questions rest
           end)
  end.

Definition validate_questions (parsed_questions : list json)
  : result (list dict) :=
  validate_loop [] parsed_questions.


End WithTopics.

(** A raw record with two options and the given correct-answer value. *)
Definition sample_question (answer : json) : dict :=
  [ (chars "id", JStr (chars "7"));
    (chars "text", JStr (chars "What is two plus two?"));
    (chars "options",
     JList [ JDict [ (chars "id", JStr (chars "a"));
                     (chars "text", JStr (chars "3")) ];
             JDict [ (chars "id", JStr (chars "b"));
                     (chars "text", JStr (chars "4")) ] ]);
    (chars "correctAnswer", answer) ].

End Validator.
Import Validator.

(* ================================================================== *)
(** ** The answer-position randomizer *)

Module Randomizer.

Definition canonical_ids : list text :=
  [chars "a"; chars "b"; chars "c"; chars "d"; chars "e"; chars "f"].

(** [isinstance(opt, dict) and opt.get("id") == original_correct] *)
Definition is_correct (original_correct : json) (opt : json) : bool :=
  match opt with
  | JDict o => py_eq (get o (chars "id")) original_correct
  | _ => false
  end.

Fixpoint find_index (p : json -> bool) (l : list json) : option nat :=
  match l with
  | [] => None
  | x :: rest => if p x then Some 0 else option_map S (find_index p rest)
  end.

(** [for i, opt in enumerate(shuffled_options): opt["id"] =
    option_ids[i]]; the right-hand side is evaluated first, then the item
    assignment, which only a dict supports. *)
Fixpoint relabel (option_ids : list text) (shuffled_options : list json)
  {struct shuffled_options} : result (list json) :=
  match shuffled_options with
  | [] => Ok []
  | opt :: rest =>
      match option_ids with
      | [] => Raise IndexError
      | new_id :: ids =>
          match opt with
          | JDict o =>
              bind (relabel ids rest) (fun rest' =>
              Ok (JDict (set o (chars "id") (JStr new_id)) :: rest'))
          | _ => Raise TypeError
          end
      end
  end.

Definition nth_id (option_ids : list text) (idx : nat) : result text :=
  match nth_error option_ids idx with
  | Some t => Ok t
  | None => Raise IndexError
  end.

(** The body of [for question in questions]; [shuffle] is what
    [random.shuffle] does to the copy this time.  The option dicts are
    shared between [question["options"]] and the copy, and the question
    ends up holding the copy, so the relabelled copy is what it holds. *)
Definition randomize_question (shuffle : list json -> list json)
  (question : dict) : result dict :=
  match lookup (chars "options") question with
  | Some (JList options) =>
      if 1 <? List.length options then
        let original_correct :=
          get_default question (chars "correctAnswer") (JStr (chars "a")) in
        match find (is_correct original_correct) options with
        | Some correct_option =>
            if truthy correct_option then
              let shuffled_options := shuffle options in
              match find_index (is_correct original_correct)
                      shuffled_options with
              | Some idx =>
                  let option_ids :=
                    firstn (List.length shuffled_options) canonical_ids in
                  bind (relabel option_ids shuffled_options) (fun relabelled =>
                  bind (nth_id option_ids idx) (fun new_correct =>
                  Ok (set (set question (chars "correctAnswer")
                             (JStr new_correct))
                          (chars "options") (JList relabelled))))
              | None => Ok question
              end
            else Ok question
        | None => Ok question
        end
      else Ok question
  | _ => Ok question
  end.

(** [shuffle k] is the permutation drawn for the question at index [k]. *)
Fixpoint randomize_from (shuffle : nat -> list json -> list json) (k : nat)
  (questions : list dict) : result (list dict) :=
  match questions with
  | [] => Ok []
  | question :: rest =>
      bind (randomize_question (shuffle k) question) (fun question' =>
      bind (randomize_from shuffle (S k) rest) (fun rest' =>
      Ok (question' :: rest')))
  end.

Definition randomize_question_options
  (shuffle : nat -> list json -> list json) (questions : list dict)
  : result (list dict) :=
  randomize_from shuffle 0 questions.

(** [question.get("correctAnswer", "a")] *)
Definition correct_answer_of (question : dict) : json :=
  get_default question (chars "correctAnswer") (JStr (chars "a")).

(** The option a correct-answer id refers to: the first one carrying it,
    looked up the way the randomizer does. *)
Definition referenced_option (question : dict) : option json :=
  match lookup (chars "options") question with
  | Some (JList options) =>
      find (is_correct (correct_answer_of question)) options
  | _ => None
  end.

(** No two options carry the id the correct answer names. *)
Definition at_most_one_correct (question : dict) : Prop :=
  match lookup (chars "options") question with
  | Some (JList options) =>
      List.length (filter (is_correct (correct_answer_of question)) options)
      <= 1
  | _ => True
  end.

Definition all_dicts (l : list json) : Prop :=
  Forall (fun opt => is_dict opt = true) l.

(** An options list the relabelling loop can go through: dicts only, six
    at most. *)
Definition relabellable (question : dict) : Prop :=
  match lookup (chars "options") question with
  | Some (JList options) => all_dicts options /\ List.length options <= 6
  | _ => True
  end.

Definition make_option (i t : string) : json :=
  JDict [ (chars "id", JStr (chars i)); (chars "text", JStr (chars t)) ].

Definition make_question (options : list json) (answer : string) : dict :=
  [ (chars "text", JStr (chars "Pick the right one"));
    (chars "options", JList options);
    (chars "correctAnswer", JStr (chars answer)) ].

(** Seven options. *)
Definition seven_options : list json :=
  [ make_option "a" "one"; make_option "b" "two"; make_option "c" "three";
    make_option "d" "four"; make_option "e" "five"; make_option "f" "six";
    make_option "g" "seven" ].

(** Two options under one id. *)
Definition twin_options : list json :=
  [ make_option "a" "right"; make_option "a" "wrong" ].

Definition option_text (opt : json) : json :=
  match opt with
  | JDict o => get o (chars "text")
  | _ => JNull
  end.

Definition option_texts (question : dict) : list json :=
  match lookup (chars "options") question with
  | Some (JList options) => map option_text options
  | _ => []
  end.

Definition option_ids_of (question : dict) : list json :=
  match lookup (chars "options") question with
  | Some (JList options) =>
      map (fun opt => match opt with
                      | JDict o => get o (chars "id")
                      | _ => JNull
                      end) options
  | _ => []
  end.

End Randomizer.
Import Randomizer.

(* ================================================================== *)
(** ** Sample texts *)

Module Samples.

Definition first_record : complete_record :=
  mk_record
    (lit "{'id':'1','text':'First?','options':['x','y']}")
    (lit ", ")
    [ (chars "id", JStr (chars "1"));
      (chars "text", JStr (chars "First?"));
      (chars "options", JList [JStr (chars "x"); JStr (chars "y")]) ].

Definition second_record : complete_record :=
  mk_record
    (lit "{'text':'Second?','options':[{'id':'a','text':'u'},{'id':'b','text':'v'}]}")
    (lit ",|")
    [ (chars "text", JStr (chars "Second?"));
      (chars "options",
       JList [ JDict [ (chars "id", JStr (chars "a"));
                       (chars "text", JStr (chars "u")) ];
               JDict [ (chars "id", JStr (chars "b"));
                       (chars "text", JStr (chars "v")) ] ]) ].

(** An array of error records, the key [question] not first, cut off
    inside its third record. *)
Definition cut_errors : text :=
  lit "[{'topic': 'x', 'question': 1}, {'topic': 'y', 'question': 2}, {'topic': 'z', 'ques".

(** Two error records that begin with the key [question], and a third
    one cut off inside its topic. *)
Definition first_error : error_record :=
  mk_error_record (lit ": 1, 'topic': 'Algebra'") (lit ", ")
    (JDict [ (chars "question", JNum 1);
             (chars "topic", JStr (chars "Algebra")) ]).

Definition second_error : error_record :=
  mk_error_record (lit ": 2, 'correctness': 'incorrect'") (lit ",|")
    (JDict [ (chars "question", JNum 2);
             (chars "correctness", JStr (chars "incorrect")) ]).

Definition cut_error_tail : text :=
  lit "{'question': 3, 'topic': 'Geo".



(** A third record cut off inside its second option. *)
Definition cut_tail : text :=
  lit "{'id':'3','text':'Third?','options':[{'id':'a','text':'u'},{'id':'b'".

(** An array cut off inside its only record, after the options. *)
Definition cut_single : text :=
  lit "[{'id':'1','text':'Q','options':['x','y'],'correctAnswer':".

(** A one-question array whose options list is longer than a hundred
    characters, inside prose. *)
Definition planet_array : text :=
  lit "[{'id':'1','text':'Which planet is known as the red planet?','options':[{'id':'a','text':'Venus, the second planet from the sun'},{'id':'b','text':'Mars, the fourth planet from the sun'},{'id':'c','text':'Jupiter, the largest planet'}],'correctAnswer':'b'}]".

Definition planet_quiz : text :=
  lit "Here is your quiz: " ++ planet_array ++ lit " Good luck!".

Definition planet_options : list json :=
  [ JDict [ (chars "id", JStr (chars "a"));
            (chars "text",
             JStr (chars "Venus, the second planet from the sun")) ];
    JDict [ (chars "id", JStr (chars "b"));
            (chars "text",
             JStr (chars "Mars, the fourth planet from the sun")) ];
    JDict [ (chars "id", JStr (chars "c"));
            (chars "text", JStr (chars "Jupiter, the largest planet")) ] ].

(** A two-question array with short options, inside prose. *)
Definition short_quiz_array : text :=
  lit "[{'id':'1','text':'What is two plus two?','options':['3','4'],'correctAnswer':'b'}, {'id':'2','text':'What is three times three?','options':['6','9'],'correctAnswer':'b'}]".

Definition short_quiz : text :=
  lit "Your quiz: " ++ short_quiz_array ++ lit " Good luck!".

(** The fenced example. *)
Definition fenced_quiz : text :=
  lit "Here is the quiz:|```json|[{'id':'1','text':'What is 2+2?','options':[{'id':'a','text':'3'},{'id':'b','text':'4'}],'correctAnswer':'b','explanation':'basic math','topic':'Math'}]|```|Hope this helps!".

Definition fenced_question : json :=
  JDict [ (chars "id", JStr (chars "1"));
          (chars "text", JStr (chars "What is 2+2?"));
          (chars "options",
           JList [ JDict [ (chars "id", JStr (chars "a"));
                           (chars "text", JStr (chars "3")) ];
                   JDict [ (chars "id", JStr (chars "b"));
                           (chars "text", JStr (chars "4")) ] ]);
          (chars "correctAnswer", JStr (chars "b"));
          (chars "explanation", JStr (chars "basic math"));
          (chars "topic", JStr (chars "Math")) ].

End Samples.
Import Samples.

(* ================================================================== *)
(** ** The token budget of [generate_response] *)

Module Budget.

(** The two [if] statements on [max_tokens] at the head of the [try]:
    raised to 2048 when lower, then capped at 8192. *)
Definition clamp_max_tokens (max_tokens : Z) : Z :=
  let max_tokens :=
    if (max_tokens <? 2048)%Z then 2048%Z else max_tokens in
  if (8192 <? max_tokens)%Z then 8192%Z else max_tokens.

(** The two entries of [extra_body]; [max_tokens] is the value after the
    two [if] statements, and [//] is floor division. *)
Definition min_thinking_tokens : Z := 512.

Definition max_thinking_tokens (max_tokens : Z) : Z :=
  Z.min 2048 (clamp_max_tokens max_tokens / 2).

End Budget.
Import Budget.

(* ================================================================== *)
(** ** The midterm statistics

    The filter and the breakdown of [analyze_midterm] and the counts of
    [save_midterm_analysis], which both read the [correctness] field the
    normalizer writes. *)

Module Midterm.

(** [str(e.get("correctness", default)).lower().strip()] with the empty
    string as default; [e.get] raises [AttributeError] on anything but a
    dict. *)
Definition correctness_label (e : json) : result text :=
  match e with
  | JDict d =>
      Ok (strip (lower (py_str
                          (get_default d (chars "correctness") (JStr [])))))
  | _ => Raise AttributeError
  end.

(** [<label> == w] for one word, [<label> in [...]] for several. *)
Definition label_in (words : list text) (e : json) : result bool :=
  bind (correctness_label e) (fun l => Ok (member l words)).

(** [sum(1 for e in questions if test(e))] *)
Fixpoint count_if (test : json -> result bool) (questions : list json)
  : result nat :=
  match questions with
  | [] => Ok 0
  | e :: rest =>
      bind (test e) (fun b =>
      bind (count_if test rest) (fun n =>
      Ok (if b then S n else n)))
  end.

(** [[e for e in all_questions if <label> != "correct"]] *)
Fixpoint errors_only (all_questions : list json) : result (list json) :=
  match all_questions with
  | [] => Ok []
  | e :: rest =>
      bind (label_in [chars "correct"] e) (fun correct =>
      bind (errors_only rest) (fun errors =>
      Ok (if correct then errors else e :: errors)))
  end.

Definition partial_labels : list text :=
  [chars "partially_correct"; chars "partially correct"; chars "partial"].

Definition known_labels : list text :=
  [chars "correct"; chars "incorrect"; chars "partially_correct";
   chars "partially correct"; chars "partial"].

(** The test of the [unknown] entry of the breakdown: [not
    e.get("correctness") or <label> not in [...]]. *)
Definition is_unknown (e : json) : result bool :=
  match e with
  | JDict d =>
      if negb (truthy (get d (chars "correctness"))) then Ok true
      else bind (label_in known_labels e) (fun known => Ok (negb known))
  | _ => Raise AttributeError
  end.

(** The counts [save_midterm_analysis] stores. *)
Record stats := mk_stats {
  total_errors : nat;
  total_questions : nat;
  correct_count : nat;
  wrong_count : nat;
  partially_correct_count : nat
}.

Definition midterm_stats (errors all_questions : list json) : result stats :=
  let questions_for_stats :=
    if truthy (JList all_questions) then all_questions else errors in
  bind (count_if (label_in [chars "correct"]) questions_for_stats)
    (fun correct =>
  bind (count_if (label_in [chars "incorrect"]) questions_for_stats)
    (fun wrong =>
  bind (count_if (label_in partial_labels) questions_for_stats)
    (fun partly =>
  Ok (mk_stats (List.length errors) (List.length questions_for_stats)
        correct wrong partly)))).

End Midterm.
Import Midterm.

(* ================================================================== *)
(** ** The endpoint [generate_quiz_from_errors] *)

Module Endpoint.

(** [s.split(sep)] for a separator of one character. *)
Fixpoint split_on (sep : ascii) (s : text) : list text :=
  match s with
  | [] => [[]]
  | c :: rest =>
      if Ascii.eqb c sep then [] :: split_on sep rest
      else
        match split_on sep rest with
        | w :: ws => (c :: w) :: ws
        | [] => [[c]]
        end
  end.

Definition nonblank (t : text) : bool :=
  match t with [] => false | _ :: _ => true end.

(** [[t.strip() for t in error_topics.split(",") if t.strip()]] *)
Definition topics_list (error_topics : text) : list text :=
  filter nonblank (map strip (split_on ","%char error_topics)).

(** [l[:n]] for an integer [n]: a negative [n] counts from the end. *)
Definition py_slice_to {A : Type} (n : Z) (l : list A) : list A :=
  if (0 <=? n)%Z then firstn (Z.to_nat n) l
  else firstn (List.length l - Z.to_nat (- n)) l.

(** The placeholder loop, [i] counting from 0. *)
Fixpoint fallback_from (i : nat) (topics : list text) : list dict :=
  match topics with
  | [] => []
  | topic :: rest =>
      [ (chars "id", JStr (str_nat (i + 1)));
        (chars "text", JStr (chars "Test question about " ++ topic));
        (chars "options", placeholder_options);
        str_field "correctAnswer" "a";
        (chars "explanation",
         JStr (chars "This is a placeholder question about " ++ topic));
        (chars "topic", JStr topic) ]
      :: fallback_from (S i) rest
  end.

Definition fallback_questions (topics : list text) (num_questions : Z)
  : list dict :=
  fallback_from 0 (py_slice_to num_questions topics).

(** [p in s] for two strings. *)
Fixpoint is_infix (p s : text) : bool :=
  starts_with p s
  || match s with
     | [] => false
     | _ :: rest => is_infix p rest
     end.

(** The body of the randomizer's loop for a parsed item of any type.
    On a string or a list the test ["options" in question] is a substring
    or a membership test, and [question["options"]] then raises
    [TypeError]; on a number of either kind, a boolean or [None] the test
    itself does. *)
Definition randomize_item (shuffle : list json -> list json)
  (question : json) : result json :=
  match question with
  | JDict d => bind (randomize_question shuffle d) (fun d' => Ok (JDict d'))
  | JStr s =>
      if is_infix (chars "options") s then Raise TypeError else Ok question
  | JList l =>
      if existsb (py_eq (JStr (chars "options"))) l then Raise TypeError
      else Ok question
  | _ => Raise TypeError
  end.

Fixpoint randomize_items (shuffle : nat -> list json -> list json) (k : nat)
  (questions : list json) : result (list json) :=
  match questions with
  | [] => Ok []
  | question :: rest =>
      bind (randomize_item (shuffle k) question) (fun question' =>
      bind (randomize_items shuffle (S k) rest) (fun rest' =>
      Ok (question' :: rest')))
  end.

(** Does [JSONResponse(content=...)] render the value?  It calls
    [json.dumps] with [allow_nan=False], which raises [ValueError] on a NaN
    or an infinity wherever it stands; every other value of the model is
    written out, and its text, being 8-bit, is encoded. *)
Fixpoint renders (v : json) : bool :=
  match v with
  | JFloat _ => false
  | JList l => forallb renders l
  | JDict d => forallb (fun kv => renders (snd kv)) d
  | _ => true
  end.

(** What the endpoint answers: the questions of the quiz, or one of the
    two [HTTPException]s. *)
Inductive response :=
| Returned (questions : list dict)
| BadRequest
| ServerError.

Section WithLibraries.

(** [json.loads], and the permutation [random.shuffle] draws for the
    question at each index. *)
Variable json_loads : text -> result json.
Variable shuffle : nat -> list json -> list json.

(** [if not questions or len(questions) == 0] and the placeholder loop
    under it. *)
Definition or_placeholders (topics : list text) (num_questions : Z)
  (questions : list dict) : list dict :=
  match questions with
  | [] => fallback_questions topics num_questions
  | _ :: _ => questions
  end.

(** The [return JSONResponse(content=result)] that ends the [try]: next
    to the questions [result] holds the title, a string, and the quiz id,
    which the database gave or which is a fresh UUID, so the response is
    rendered when the questions are; an exception here is caught like any
    other. *)
Definition json_response (questions : list dict) : response :=
  if forallb (fun q => renders (JDict q)) questions
  then Returned questions
  else ServerError.

(** The questions the endpoint returns for the model's answer
    [ai_response]: parsed, shuffled, validated, replaced by placeholders
    when none is left, and rendered.  The title and the saving of the quiz
    stand between the placeholders and the rendering, each inside a [try]
    of its own that lets nothing out.  Any exception other than the
    [HTTPException] of the empty topic list becomes status 500. *)
Definition quiz_from_errors (error_topics : text) (num_questions : Z)
  (ai_response : text) : response :=
  match topics_list error_topics with
  | [] => BadRequest
  | first_topic :: _ =>
      match
        bind (parse_quiz_questions json_loads ai_response) (fun parsed =>
        bind (randomize_items shuffle 0 parsed) (fun parsed =>
        validate_questions first_topic parsed))
      with
      | Ok questions =>
          json_response
            (or_placeholders (topics_list error_topics) num_questions
               questions)
      | Raise _ => ServerError
      end
  end.

End WithLibraries.

End Endpoint.
Import Endpoint.

(* ================================================================== *)
(** ** Shapes of texts and records *)

Module Shapes.

(** How many times [c] occurs in [s]. *)
Definition occurrences (c : ascii) (s : text) : nat :=
  List.length (filter (Ascii.eqb c) s).

(** [c] does not occur in [s]. *)
Definition lacks (c : ascii) (s : text) : bool :=
  forallb (fun d => negb (Ascii.eqb c d)) s.

(** Some literal piece of the pattern [ps] holds the character [c]. *)
Definition needs (c : ascii) (ps : list piece) : bool :=
  existsb (fun p => match p with
                    | PLit t => existsb (Ascii.eqb c) t
                    | _ => false
                    end) ps.

(** [a] is [b] with some of its characters left out. *)
Inductive subsequence : text -> text -> Prop :=
| sub_nil : subsequence [] []
| sub_keep c a b : subsequence a b -> subsequence (c :: a) (c :: b)
| sub_drop c a b : subsequence a b -> subsequence a (c :: b).

(** The fields the salvage passes test for and fill in. *)
Definition has_required_fields (r : json) : bool :=
  match r with
  | JDict d =>
      has_key (chars "text") d && has_key (chars "options") d
      && truthy (get d (chars "id"))
      && truthy (get d (chars "correctAnswer"))
      && truthy (get d (chars "explanation"))
      && truthy (get d (chars "topic"))
  | _ => false
  end.

(** A record of the first salvage pass. *)
Definition kept_record (r : json) : Prop :=
  has_required_fields r = true /\ exists d, question_shaped r = Some d.

(** A record of the text fallback: a text of 21 to 200 characters, the
    four placeholder options and the answer [a]. *)
Definition placeholder_record (r : json) : Prop :=
  exists d t,
    r = JDict d
    /\ get d (chars "text") = JStr t
    /\ 21 <= List.length t <= 200
    /\ get d (chars "options") = placeholder_options
    /\ get d (chars "correctAnswer") = JStr (chars "a")
    /\ get d (chars "topic") = JStr (chars "General").

(** The eight keys of a normalized error record. *)
Definition error_keys : list text :=
  [ chars "question"; chars "yourAnswer"; chars "correctAnswer";
    chars "topic"; chars "feedback"; chars "marksReceived";
    chars "totalMarks"; chars "correctness" ].

(** A record as the normalization loop writes it: the eight keys in
    their order, and one of the three canonical words as correctness. *)
Definition normalized_record (r : json) : Prop :=
  exists d c,
    r = JDict d
    /\ map fst d = error_keys
    /\ get d (chars "correctness") = JStr c
    /\ In c canonical_correctness.

(** A record with no correctness field, as the salvage scanner of
    [parse_midterm_analysis] returns them. *)
Definition unlabelled_record (r : json) : Prop :=
  exists d, r = JDict d /\ lookup (chars "correctness") d = None.

(** The six keys of a quiz question. *)
Definition question_keys : list text :=
  [ chars "id"; chars "text"; chars "options"; chars "correctAnswer";
    chars "explanation"; chars "topic" ].

(** An option as the validator and the placeholder loops write it: the
    two keys, and an id that is not empty. *)
Definition well_formed_option (opt : json) : Prop :=
  exists opt_id opt_text,
    opt = JDict (option_record opt_id opt_text) /\ truthy opt_id = true.

(** The same for an entry of [valid_options]. *)
Definition identified (o : dict) : Prop :=
  exists opt_id opt_text,
    o = option_record opt_id opt_text /\ truthy opt_id = true.

(** A question a quiz can show: the six keys, a text of ten characters or
    more, two options or more, and an id, a correct answer and a topic that
    are not empty. *)
Definition presentable (q : dict) : Prop :=
  map fst q = question_keys
  /\ (exists t, get q (chars "text") = JStr t /\ 10 <= List.length t)
  /\ (exists options,
        get q (chars "options") = JList options
        /\ 2 <= List.length options
        /\ Forall well_formed_option options)
  /\ truthy (get q (chars "id")) = true
  /\ truthy (get q (chars "correctAnswer")) = true
  /\ truthy (get q (chars "topic")) = true.

(** A string, or a value that counts as false. *)
Definition str_or_empty (v : json) : bool :=
  match v with
  | JStr _ => true
  | _ => negb (truthy v)
  end.

(** A question the validation loop can read: a dict whose [text] and
    [question] are strings or empty and whose [options], when present, is a
    list. *)
Definition validatable (q : json) : bool :=
  match q with
  | JDict d =>
      str_or_empty (get d (chars "text"))
      && str_or_empty (get d (chars "question"))
      && match lookup (chars "options") d with
         | None => true
         | Some (JList _) => true
         | Some _ => false
         end
  | _ => false
  end.

(** A question the randomizer can read as well: its options, when
    present, are dicts, six at most. *)
Definition safe_question (q : json) : bool :=
  validatable q
  && match q with
     | JDict d =>
         match lookup (chars "options") d with
         | Some (JList options) =>
             forallb is_dict options && (List.length options <=? 6)
         | _ => true
         end
     | _ => false
     end.

(** An answer whose one question is well formed but for its
    explanation, which is the constant [NaN]. *)
Definition nan_quiz : text :=
  lit "[{'id': '1', 'text': 'What is the capital of France?', 'options': [{'id': 'a', 'text': 'Paris'}, {'id': 'b', 'text': 'Rome'}], 'correctAnswer': 'a', 'explanation': NaN}]".

(** An answer that is a list of strings, a hundred characters long or
    more. *)
Definition string_list_answer : text :=
  lit "['What is the capital of France?', 'Which planet is the largest in the solar system?', 'Who wrote the play Hamlet?']".

End Shapes.
Import Shapes.

(* ================================================================== *)
(** ** The quiz title of [generate_quiz_title] *)

Module Title.

(** [s.strip(c)] for a set of one character. *)
Definition strip_char (c : ascii) (s : text) : text :=
  rev (drop_while (Ascii.eqb c) (rev (drop_while (Ascii.eqb c) s))).

(** [re.split(r"[\.\n]", s)[0]]: what stands before the first full stop
    or line feed. *)
Fixpoint first_sentence (s : text) : text :=
  match s with
  | [] => []
  | c :: rest =>
      if Ascii.eqb c "."%char || Ascii.eqb c newline then []
      else c :: first_sentence rest
  end.

Definition begins_word (s : text) : bool :=
  match s with
  | c :: _ => negb (is_space c)
  | [] => false
  end.

(** [s.split()]: the runs of characters that are not white space. *)
Fixpoint py_split (s : text) : list text :=
  match s with
  | [] => []
  | c :: rest =>
      if is_space c then py_split rest
      else if begins_word rest then
        match py_split rest with
        | w :: ws => (c :: w) :: ws
        | [] => [[c]]
        end
      else [c] :: py_split rest
  end.

(** [" ".join(ws)] *)
Fixpoint join_space (ws : list text) : text :=
  match ws with
  | [] => []
  | w :: rest =>
      match rest with
      | [] => w
      | _ :: _ => w ++ " "%char :: join_space rest
      end
  end.

(** A word: not empty, no white space in it. *)
Definition is_word (w : text) : bool :=
  nonblank w && forallb (fun c => negb (is_space c)) w.

Definition generic_subjects : list text :=
  [chars "computer science"; chars "cs"; chars "general"; chars "quiz"].

(** The [if subject and len(subject.strip()) > 0] block: [Some] of the
    title it returns, [None] when control goes on. *)
Definition subject_title (subject : option text) : option text :=
  match subject with
  | Some subject =>
      if nonblank subject && (0 <? List.length (strip subject)) then
        let subject_clean :=
          strip_char squote (strip_char dquote (strip subject)) in
        if member (lower subject_clean) generic_subjects then None
        else if List.length (py_split subject_clean) <=? 6
        then Some subject_clean
        else None
      else None
  | None => None
  end.

(** The three statements that clean the response up. *)
Definition clean_response (response : text) : text :=
  let title := strip response in
  let title := strip (strip_char squote (strip_char dquote title)) in
  strip (first_sentence title).

(** The [if len(words) > 6 ... elif ...] statement. *)
Definition sized_title (topics : list text) (title : text) : text :=
  let words := py_split title in
  if 6 <? List.length words then join_space (firstn 6 words)
  else if (List.length words <? 3) && (0 <? List.length words) then
    match topics with
    | first :: _ =>
        let first_topic_words := firstn 2 (py_split first) in
        let title := title ++ " "%char :: join_space first_topic_words in
        let words := py_split title in
        if 6 <? List.length words then join_space (firstn 6 words)
        else title
    | [] => title
    end
  else title.

Definition short_stop_words : list text :=
  [chars "the"; chars "of"; chars "and"; chars "or"; chars "a"; chars "an"].

Definition long_stop_words : list text :=
  [chars "the"; chars "of"; chars "and"; chars "or"; chars "a"; chars "an";
   chars "in"; chars "on"; chars "at"].

(** The loop over [topics[:3]]: two words at most of each topic, the
    stop words left out. *)
Fixpoint key_words (stop : list text) (topics : list text) : list text :=
  match topics with
  | [] => []
  | topic :: rest =>
      firstn 2 (filter (fun w => negb (member (lower w) stop))
                  (py_split topic))
      ++ key_words stop rest
  end.

(** The fallback inside the [try]. *)
Definition topics_title (topics : list text) : text :=
  match topics with
  | [] => chars "General Quiz"
  | first :: _ =>
      match key_words short_stop_words (firstn 3 topics) with
      | [] => first
      | topic_words => join_space (firstn 6 topic_words)
      end
  end.

(** What the [try] makes of the response once it has it. *)
Definition title_from_response (topics : list text) (response : text)
  : text :=
  let title := sized_title topics (clean_response response) in
  if negb (nonblank title) || (List.length title <? 2)
  then topics_title topics
  else title.

(** [any(word in s for word in words)] *)
Definition any_in (words : list text) (s : text) : bool :=
  existsb (fun word => is_infix word s) words.

(** The [except] branch. *)
Definition rescue_title (topics : list text) : text :=
  match topics with
  | [] => chars "General Quiz"
  | first :: _ =>
      match key_words long_stop_words (firstn 3 topics) with
      | [] => first
      | topic_parts =>
          let title := join_space (firstn 6 topic_parts) in
          let title_lower := lower title in
          let title :=
            if negb (is_infix (chars "algorithm") title_lower)
               && negb (is_infix (chars "structure") title_lower)
               && negb (is_infix (chars "complexity") title_lower)
            then
              let all_topics_str := lower (join_space (firstn 3 topics)) in
              if any_in [chars "sort"; chars "search"; chars "traversal";
                         chars "dfs"; chars "bfs"] all_topics_str
              then title ++ chars " Algorithms"
              else if any_in [chars "tree"; chars "graph"; chars "list";
                              chars "array"; chars "heap"] all_topics_str
              then title ++ chars " Structures"
              else title
            else title in
          firstn 50 title
      end
  end.

(** The whole function; [response] is what [generate_response] answers
    to the prompt, or the exception it raises. *)
Definition generate_quiz_title (topics : list text) (subject : option text)
  (response : result text) : text :=
  match subject_title subject with
  | Some title => title
  | None =>
      match topics with
      | [] => chars "General Quiz"
      | _ :: _ =>
          match response with
          | Ok r => title_from_response topics r
          | Raise _ => rescue_title topics
          end
      end
  end.

End Title.
Import Title.

(* ================================================================== *)
(** ** The padding of [generate_rag_quiz] *)

Module RagQuiz.

(** [min(8192, max(4096, num_questions * 400))] *)
Definition rag_max_tokens (num_questions : Z) : Z :=
  Z.min 8192 (Z.max 4096 (num_questions * 400)).

(** The placeholder appended for index [i]. *)
Definition rag_placeholder (i : nat) (topic : text) : json :=
  JDict [ (chars "id", JStr ("q"%char :: str_nat (i + 1)));
          (chars "question",
           JStr (chars "Test your understanding of " ++ topic));
          (chars "options",
           JList [ JStr (chars "Option A"); JStr (chars "Option B");
                   JStr (chars "Option C"); JStr (chars "Option D") ]);
          str_field "correctAnswer" "Option A";
          (chars "topic", JStr topic);
          str_field "difficulty" "medium";
          (chars "explanation",
           JStr (chars "This question tests your knowledge of " ++ topic)) ].

(** [while len(topics_list) < num_questions:
    topics_list.extend(list(all_weak_topics))]; [None] when the loop has not
    stopped after [fuel] rounds. *)
Fixpoint extend_topics (fuel : nat) (all_weak_topics topics_list : list text)
  (num_questions : Z) : option (list text) :=
  if (Z.of_nat (List.length topics_list) <? num_questions)%Z then
    match fuel with
    | O => None
    | S fuel' =>
        extend_topics fuel' all_weak_topics
          (topics_list ++ all_weak_topics) num_questions
    end
  else Some topics_list.

(** [topics_list[i % len(topics_list)] if topics_list else "General"] *)
Definition topic_at (i : nat) (topics_list : list text) : text :=
  match topics_list with
  | [] => chars "General"
  | _ :: _ => nth (i mod List.length topics_list) topics_list []
  end.

(** [for i in range(len(questions), num_questions)], [count] rounds from
    index [i]. *)
Fixpoint pad_from (count i : nat) (topics_list : list text) : list json :=
  match count with
  | O => []
  | S count' =>
      rag_placeholder i (topic_at i topics_list)
      :: pad_from count' (S i) topics_list
  end.

(** From the randomized list to the list returned: padded when short,
    then cut to [num_questions].  [all_weak_topics] is the set of weak
    topics in the order [list] gives it. *)
Definition rag_questions (fuel : nat) (all_weak_topics : list text)
  (num_questions : Z) (questions : list json) : option (list json) :=
  let padded :=
    if negb (truthy (JList questions))
       || (Z.of_nat (List.length questions) <? num_questions)%Z
    then
      match extend_topics fuel all_weak_topics all_weak_topics
              num_questions with
      | Some topics_list =>
          Some (questions
                ++ pad_from
                     (Z.to_nat (num_questions
                                - Z.of_nat (List.length questions)))
                     (List.length questions) topics_list)
      | None => None
      end
    else Some questions in
  option_map (py_slice_to num_questions) padded.

End RagQuiz.
Import RagQuiz.

(* ================================================================== *)
(** * Properties *)

(* ================================================================== *)
(** ** The delimiter-balanced scanners *)

Section ScannerFacts.

Lemma scan_from_app st s rest :
  scan_from st (s ++ rest) =
  match scan_from st s with
  | Some n => Some n
  | None =>
      match scan_chars st s with
      | Continue st' =>
          option_map (fun n => List.length s + n) (scan_from st' rest)
      | Closed => None
      end
  end.
Proof.
  revert st. induction s as [|c s IH]; intros st; simpl.
  - destruct (scan_from st rest); reflexivity.
  - destruct (scan_char st c) as [st'|]; [|reflexivity].
    rewrite IH. destruct (scan_from st' s); simpl; [reflexivity|].
    destruct (scan_chars st' s) as [st''|]; [|reflexivity].
    destruct (scan_from st'' rest); reflexivity.
Qed.

(** Inside a string nothing but the two flags moves, and the loop does
    not break. *)
Lemma scan_body_in_string d body :
  string_body body ->
  scan_chars (mk_scan d true false) body = Continue (mk_scan d true false)
  /\ scan_from (mk_scan d true false) body = None.
Proof.
  induction 1 as [|c s Hq Hb _ [IH1 IH2]|c s _ [IH1 IH2]]; simpl.
  - split; reflexivity.
  - unfold scan_char; simpl.
    destruct (Ascii.eqb_spec c backslash); [contradiction|].
    destruct (Ascii.eqb_spec c dquote); [contradiction|].
    simpl. rewrite IH1, IH2. split; reflexivity.
  - unfold scan_char; simpl.
    rewrite IH1, IH2. split; reflexivity.
Qed.

Lemma scan_chars_app st s rest :
  scan_chars st (s ++ rest) =
  match scan_chars st s with
  | Continue st' => scan_chars st' rest
  | Closed => Closed
  end.
Proof.
  revert st. induction s as [|c s IH]; intros st; simpl; [reflexivity|].
  destruct (scan_char st c); [apply IH | reflexivity].
Qed.

Lemma scan_quoted d body :
  string_body body ->
  scan_chars (mk_scan d false false) (quoted body)
  = Continue (mk_scan d false false)
  /\ scan_from (mk_scan d false false) (quoted body) = None.
Proof.
  intros Hb. destruct (scan_body_in_string d body Hb) as [H1 H2].
  unfold quoted.
  change (dquote :: body ++ [dquote]) with ([dquote] ++ body ++ [dquote]).
  split.
  - rewrite !scan_chars_app. cbn [scan_chars].
    change (scan_char (mk_scan d false false) dquote)
      with (Continue (mk_scan d true false)).
    cbv iota. rewrite scan_chars_app, H1. reflexivity.
  - rewrite !scan_from_app. cbn [scan_from scan_chars].
    change (scan_char (mk_scan d false false) dquote)
      with (Continue (mk_scan d true false)).
    cbv iota. rewrite scan_from_app, H2, H1. reflexivity.
Qed.

(** C2 (amended). The brace scanner of the salvage pass does not count
    what stands inside a quoted string: reading a whole string literal,
    escape pairs included, leaves the depth and the flags as they were and
    does not end the span, so the scan of a literal followed by [rest] ends
    where the scan of [rest] ends.  On the text [{"a": "}"}] the span found
    from the opening brace is the whole text, which is 10 characters
    long. *)
Theorem object_scanner_skips_strings :
  (forall d body rest,
      string_body body ->
      scan_from (mk_scan d false false) (quoted body ++ rest)
      = option_map (fun n => List.length (quoted body) + n)
          (scan_from (mk_scan d false false) rest))
  /\ object_span (lit "{'a': '}'}") = Some (lit "{'a': '}'}")
  /\ List.length (lit "{'a': '}'}") = 10.
Proof.
  split; [|split; reflexivity].
  intros d body rest Hb.
  destruct (scan_quoted d body Hb) as [H1 H2].
  rewrite scan_from_app, H2, H1. reflexivity.
Qed.

Lemma object_scanner_skips_strings_witness :
  string_body (chars "}")
  /\ scan_from (mk_scan 1 false false) (quoted (chars "}") ++ chars "}")
     = Some 4.
Proof.
  assert (Hb : string_body (chars "}")).
  { apply body_plain; [discriminate | discriminate | apply body_nil]. }
  split; [exact Hb|].
  rewrite (proj1 object_scanner_skips_strings 1%Z (chars "}") (chars "}") Hb).
  reflexivity.
Defined.

(** C2 (as stated) fails twice.  The bracket scanner of strategy 2 ends
    the span at a bracket that stands inside a quoted string; and the whole
    span of the example text has 10 characters, not 11. *)
Lemma scanner_claim_counterexample :
  array_span (lit "['a]', 'b']") = Some (lit "['a]")
  /\ object_span (lit "{'a': '}'}") = Some (lit "{'a': '}'}")
  /\ List.length (lit "{'a': '}'}") <> 11.
Proof.
  split; [reflexivity|]. split; [reflexivity|]. discriminate.
Qed.

End ScannerFacts.

(* ================================================================== *)
(** ** The syntax repair pass *)

Section RepairFacts.

Lemma closer_ahead_cons c r :
  closer_ahead (c :: r) = if is_space c then closer_ahead r else is_closer c.
Proof. unfold closer_ahead. simpl. destruct (is_space c); reflexivity. Qed.

Lemma comma_not_space_not_closer c :
  Ascii.eqb c ","%char = true -> is_space c = false /\ is_closer c = false.
Proof.
  intros H. apply Ascii.eqb_eq in H. subst c. split; reflexivity.
Qed.

(** The second substitution puts a line feed where a line feed was. *)
Lemma sub_unescaped_newlines_id b s : sub_unescaped_newlines b s = s.
Proof.
  revert b. induction s as [|c s IH]; intros b; simpl; [reflexivity|].
  rewrite IH. destruct (Ascii.eqb_spec c newline) as [->|]; simpl.
  - destruct b; reflexivity.
  - reflexivity.
Qed.

Lemma strip_line_comments_clean s :
  has_double_slash s = false -> strip_line_comments false s = s.
Proof.
  induction s as [|c s IH]; simpl; [reflexivity|].
  destruct s as [|d s']; [reflexivity|].
  intros H. apply orb_false_iff in H as [H1 H2].
  rewrite H1. f_equal. apply IH, H2.
Qed.

Lemma closer_ahead_after_removal r :
  closer_ahead (remove_trailing_commas r)
  = closer_ahead r || comma_closer_ahead r.
Proof.
  induction r as [|c r IH]; [reflexivity|].
  simpl remove_trailing_commas. simpl comma_closer_ahead.
  destruct (Ascii.eqb c ","%char) eqn:Hc; simpl andb.
  - destruct (comma_not_space_not_closer c Hc) as [Hs Hcl].
    rewrite closer_ahead_cons, Hs, Hcl. simpl.
    destruct (closer_ahead r) eqn:Hr.
    + rewrite IH. reflexivity.
    + rewrite closer_ahead_cons, Hs, Hcl. reflexivity.
  - rewrite !closer_ahead_cons. destruct (is_space c); [apply IH|].
    rewrite orb_false_r. reflexivity.
Qed.

Lemma remove_trailing_commas_clean s :
  has_trailing_comma s = false -> remove_trailing_commas s = s.
Proof.
  induction s as [|c s IH]; simpl; [reflexivity|].
  intros H. apply orb_false_iff in H as [H1 H2].
  rewrite H1. f_equal. apply IH, H2.
Qed.

Lemma remove_trailing_commas_twice s :
  has_double_trailing_comma s = false ->
  remove_trailing_commas (remove_trailing_commas s)
  = remove_trailing_commas s.
Proof.
  induction s as [|c s IH]; simpl; [reflexivity|].
  intros H. apply orb_false_iff in H as [H1 H2].
  destruct (Ascii.eqb c ","%char && closer_ahead s) eqn:Hd.
  - apply IH, H2.
  - simpl. rewrite closer_ahead_after_removal.
    replace (Ascii.eqb c ","%char && (closer_ahead s || comma_closer_ahead s))
      with false.
    + f_equal. apply IH, H2.
    + rewrite andb_orb_distrib_r, Hd, H1. reflexivity.
Qed.

Lemma closer_ahead_head r :
  closer_ahead r = true -> head_is_slash (remove_trailing_commas r) = false.
Proof.
  destruct r as [|c r]; [discriminate|].
  rewrite closer_ahead_cons. simpl.
  destruct (Ascii.eqb_spec c ","%char) as [->|Hn]; simpl.
  - discriminate.
  - intros H. destruct (Ascii.eqb_spec c "/"%char) as [->|]; [|reflexivity].
    discriminate.
Qed.

Lemma head_after_removal r :
  head_is_slash r = false -> head_is_slash (remove_trailing_commas r) = false.
Proof.
  destruct r as [|c r]; [reflexivity|]. simpl.
  destruct (Ascii.eqb c ","%char && closer_ahead r) eqn:Hd.
  - intros _. apply andb_true_iff in Hd as [_ Hd].
    apply closer_ahead_head, Hd.
  - simpl. trivial.
Qed.

Lemma double_slash_cons c r :
  has_double_slash (c :: r)
  = (Ascii.eqb c "/"%char && head_is_slash r) || has_double_slash r.
Proof.
  destruct r as [|d r]; simpl; [|reflexivity].
  rewrite andb_false_r. reflexivity.
Qed.

Lemma no_double_slash_after_removal s :
  has_double_slash s = false ->
  has_double_slash (remove_trailing_commas s) = false.
Proof.
  induction s as [|c s IH]; [reflexivity|].
  rewrite double_slash_cons. intros H.
  apply orb_false_iff in H as [H1 H2].
  simpl remove_trailing_commas.
  destruct (Ascii.eqb c ","%char && closer_ahead s); [apply IH, H2|].
  rewrite double_slash_cons, (IH H2), orb_false_r.
  destruct (Ascii.eqb c "/"%char); [|reflexivity]. simpl in *.
  apply head_after_removal, H1.
Qed.

Lemma fix_json_no_comment s :
  has_double_slash s = false -> fix_json s = remove_trailing_commas s.
Proof.
  intros H. unfold fix_json. rewrite sub_unescaped_newlines_id.
  apply strip_line_comments_clean, no_double_slash_after_removal, H.
Qed.

(** C3 (as stated) fails.  On [,,}] the first run removes one comma and
    the second run the other; a comment between a comma and a closer does
    the same, the first run removing the comment and the second the comma;
    and the valid JSON text [["a,]"]] comes out as [["a]"]], whose decoded
    value is another string. *)
Lemma fix_json_claim_counterexample :
  fix_json (fix_json (chars ",,}")) <> fix_json (chars ",,}")
  /\ fix_json (fix_json (lit "{'a': 1, // one|}"))
     <> fix_json (lit "{'a': 1, // one|}")
  /\ py_json_loads (lit "['a,]']") = Ok (JList [JStr (chars "a,]")])
  /\ py_json_loads (fix_json (lit "['a,]']")) = Ok (JList [JStr (chars "a]")]).
Proof.
  split; [discriminate|]. split; [discriminate|]. split; reflexivity.
Qed.

Example fix_json_samples :
  fix_json (chars ",,}") = chars ",}"
  /\ fix_json (lit "{'a': 1, // one|}") = lit "{'a': 1, |}"
  /\ fix_json (lit "{'u': 'http://x'}") = lit "{'u': 'http:".
Proof. repeat split. Qed.

End RepairFacts.

(* ================================================================== *)
(** ** The error-record normalizer *)

Section NormalizerFacts.

Lemma recognize_canonical v c :
  recognize v = Some c -> In c canonical_correctness.
Proof.
  unfold recognize, canonical_correctness.
  destruct (truthy v); [|discriminate].
  repeat match goal with
         | |- context [if ?b then _ else _] => destruct b
         end; intros H; inversion H; simpl; auto.
Qed.

Lemma from_marks_canonical m t c :
  from_marks m t = Ok c -> In c canonical_correctness.
Proof.
  unfold from_marks, py_gt, py_ge, bind, canonical_correctness.
  destruct (negb (is_none m) && negb (is_none t));
    [|intros H; inversion H; simpl; auto].
  destruct (as_number t) as [x|]; [|discriminate]. cbn [as_number].
  destruct (num_lt (Int 0) x); [|intros H; inversion H; simpl; auto].
  destruct (as_number m) as [y|]; [|discriminate].
  destruct (num_le x y); [intros H; inversion H; simpl; auto|].
  destruct (num_lt (Int 0) y); intros H; inversion H; simpl; auto.
Qed.








End NormalizerFacts.

(* ================================================================== *)
(** ** The quiz validator *)

Section ValidatorFacts.

Variable first_topic : text.

Lemma add_option_records valid opt :
  Forall is_option_record valid ->
  Forall is_option_record (add_option valid opt).
Proof.
  intros H. unfold add_option.
  destruct opt; try assumption.
  - apply Forall_app. split; [assumption|].
    constructor; [|constructor]. eexists _, _. reflexivity.
  - destruct (has_key (chars "text") d || has_key (chars "id") d);
      [|assumption].
    apply Forall_app. split; [assumption|].
    constructor; [|constructor]. eexists _, _. reflexivity.
Qed.

Lemma fold_add_option_records items valid :
  Forall is_option_record valid ->
  Forall is_option_record (fold_left add_option items valid).
Proof.
  revert valid. induction items as [|opt items IH]; intros valid H; simpl.
  - assumption.
  - apply IH, add_option_records, H.
Qed.

Lemma collect_options_records items :
  Forall is_option_record (collect_options items).
Proof. apply fold_add_option_records. constructor. Qed.

(** What a surviving record looks like. *)
Lemma validate_question_shape count d v :
  validate_question first_topic count (JDict d) = Ok (Some v) ->
  exists t items,
    v = [ (chars "id",
           py_or (get d (chars "id")) (JStr (str_nat (count + 1))));
          (chars "text", JStr (strip t));
          (chars "options", JList (map JDict (collect_options items)));
          (chars "correctAnswer",
           py_or (py_or (get d (chars "correctAnswer"))
                        (get d (chars "correct_answer")))
                 (first_option_id (collect_options items)));
          (chars "explanation",
           py_or (get d (chars "explanation")) (JStr []));
          (chars "topic",
           py_or (get d (chars "topic")) (JStr first_topic)) ]
    /\ 2 <= List.length (collect_options items).
Proof.
  unfold validate_question.
  destruct (negb (truthy _)); [discriminate|].
  destruct (py_or _ _) as [| | | |t| |]; try discriminate.
  destruct (List.length (strip t) <? 10); [discriminate|].
  destruct (negb (truthy _)).
  { destruct (py_len _); discriminate. }
  destruct (py_len _) as [n|]; [|discriminate]. simpl.
  destruct (n <? 2); [discriminate|].
  destruct (py_iter _) as [items|]; [|discriminate]. simpl.
  destruct (List.length (collect_options items) <? 2) eqn:Hlen;
    [discriminate|].
  intros H. inversion H. exists t, items. split; [reflexivity|].
  apply Nat.ltb_ge in Hlen. exact Hlen.
Qed.

(** C1 (amended). For every quiz record that survives validation: when
    the raw record's correctAnswer and correct_answer are both missing or
    empty, the resulting correctAnswer is the id of the first surviving
    option; otherwise it is the first of the two raw values that is not
    empty, kept as it is. *)
Theorem validated_correct_answer :
  forall count d v,
    validate_question first_topic count (JDict d) = Ok (Some v) ->
    exists first others,
      option_ids_of v = first :: others
      /\ (truthy (get d (chars "correctAnswer")) = false ->
          truthy (get d (chars "correct_answer")) = false ->
          get v (chars "correctAnswer") = first)
      /\ (truthy (get d (chars "correctAnswer")) = true ->
          get v (chars "correctAnswer") = get d (chars "correctAnswer"))
      /\ (truthy (get d (chars "correctAnswer")) = false ->
          truthy (get d (chars "correct_answer")) = true ->
          get v (chars "correctAnswer") = get d (chars "correct_answer")).
Proof.
  intros count d v H.
  destruct (validate_question_shape count d v H) as (t & items & -> & Hlen).
  pose proof (collect_options_records items) as Hrec.
  destruct (collect_options items) as [|o valid]; [simpl in Hlen; lia|].
  inversion Hrec as [|? ? (opt_id & opt_text & ->) _]; subst.
  exists opt_id. eexists. split; [cbn; reflexivity|].
  cbn [get lookup text_eqb chars list_ascii_of_string Ascii.eqb Bool.eqb andb].
  unfold py_or. split; [|split].
  - intros Ha Hb. rewrite Ha, Hb. reflexivity.
  - intros Ha. rewrite Ha. cbv iota. rewrite Ha. reflexivity.
  - intros Ha Hb. rewrite Ha. cbv iota. rewrite Hb. reflexivity.
Qed.

End ValidatorFacts.

Lemma validated_correct_answer_witness :
  exists v,
    validate_question (chars "Algebra") 0 (JDict (sample_question (JStr [])))
    = Ok (Some v)
    /\ get v (chars "correctAnswer") = JStr (chars "a").
Proof.
  eexists. split; [vm_compute; reflexivity|].
  match goal with
  | |- get ?v _ = _ =>
      destruct (validated_correct_answer (chars "Algebra") 0
                  (sample_question (JStr [])) v eq_refl)
        as (first & others & Hids & Hdefault & _)
  end.
  rewrite (Hdefault eq_refl eq_refl).
  injection Hids as Hfirst _. symmetry. exact Hfirst.
Defined.

(** C1 (as stated) fails: a raw correctAnswer that names no surviving
    option is kept, not rebound to the first option. *)
Lemma validated_answer_counterexample :
  exists v,
    validate_question (chars "Algebra") 0
      (JDict (sample_question (JStr (chars "z"))))
    = Ok (Some v)
    /\ option_ids_of v = [JStr (chars "a"); JStr (chars "b")]
    /\ get v (chars "correctAnswer") = JStr (chars "z").
Proof.
  eexists. split; [vm_compute; reflexivity|]. split; reflexivity.
Qed.

(* ================================================================== *)
(** ** Dict updates *)

Section DictFacts.

Lemma text_eqb_eq a b : text_eqb a b = true <-> a = b.
Proof.
  revert b. induction a as [|x a IH]; intros [|y b]; simpl;
    try (split; [discriminate | congruence]); try tauto.
  rewrite andb_true_iff, Ascii.eqb_eq, IH. split.
  - intros [-> ->]. reflexivity.
  - intros H. inversion H. auto.
Qed.

Lemma text_eqb_refl a : text_eqb a a = true.
Proof. apply text_eqb_eq. reflexivity. Qed.

Lemma text_eqb_trans_false k k' k'' :
  text_eqb k k' = false -> text_eqb k' k'' = true -> text_eqb k k'' = false.
Proof.
  intros H1 H2. apply text_eqb_eq in H2. subst. exact H1.
Qed.

Lemma lookup_set_same d k v : lookup k (set d k v) = Some v.
Proof.
  induction d as [|[k' v'] d IH]; simpl.
  - rewrite text_eqb_refl. reflexivity.
  - destruct (text_eqb k k') eqn:E; simpl; rewrite E; [reflexivity|exact IH].
Qed.

Lemma lookup_set_other d k k' v :
  text_eqb k k' = false -> lookup k (set d k' v) = lookup k d.
Proof.
  intros Hk. induction d as [|[k'' v''] d IH]; simpl.
  - rewrite Hk. reflexivity.
  - destruct (text_eqb k' k'') eqn:E; simpl.
    + rewrite (text_eqb_trans_false _ _ _ Hk E). reflexivity.
    + destruct (text_eqb k k''); [reflexivity|exact IH].
Qed.

End DictFacts.

(* ================================================================== *)
(** ** The answer-position randomizer *)

Section RandomizerFacts.

Lemma find_head_filter (p : json -> bool) l :
  find p l = hd_error (filter p l).
Proof.
  induction l as [|x l IH]; simpl; [reflexivity|].
  destruct (p x); [reflexivity|exact IH].
Qed.

Lemma find_index_nth (p : json -> bool) l idx :
  find_index p l = Some idx -> nth_error l idx = find p l.
Proof.
  revert idx. induction l as [|x l IH]; intros idx; simpl; [discriminate|].
  destruct (p x).
  - intros H. inversion H. reflexivity.
  - destruct (find_index p l) as [i|]; [|discriminate].
    intros H. inversion H. simpl. apply IH. reflexivity.
Qed.

Lemma find_index_some (p : json -> bool) l x :
  find p l = Some x -> exists idx, find_index p l = Some idx.
Proof.
  induction l as [|y l IH]; simpl; [discriminate|].
  destruct (p y); [eauto|].
  intros H. destruct (IH H) as [i ->]. simpl. eauto.
Qed.

Lemma find_index_bound (p : json -> bool) l idx :
  find_index p l = Some idx -> idx < List.length l.
Proof.
  revert idx. induction l as [|x l IH]; intros idx; simpl; [discriminate|].
  destruct (p x).
  - intros H. inversion H. lia.
  - destruct (find_index p l) as [i|]; [|discriminate].
    intros H. inversion H. specialize (IH i eq_refl). lia.
Qed.

Lemma filter_permutation (p : json -> bool) l l' :
  Permutation l l' -> Permutation (filter p l) (filter p l').
Proof.
  induction 1; simpl.
  - constructor.
  - destruct (p x); [constructor|]; assumption.
  - destruct (p x), (p y); first [apply perm_swap | apply Permutation_refl].
  - eapply Permutation_trans; eassumption.
Qed.

(** With at most one candidate, the first one found after a shuffle is
    the first one found before it. *)
Lemma find_unique_permutation (p : json -> bool) l l' :
  Permutation l l' ->
  List.length (filter p l) <= 1 ->
  find p l' = find p l.
Proof.
  intros Hp Hlen. rewrite !find_head_filter.
  pose proof (filter_permutation p l l' Hp) as Hf.
  destruct (filter p l) as [|x [|y r]].
  - apply Permutation_nil in Hf. rewrite Hf. reflexivity.
  - apply Permutation_length_1_inv in Hf. rewrite Hf. reflexivity.
  - simpl in Hlen. lia.
Qed.

Lemma relabel_length ids l l' :
  relabel ids l = Ok l' -> List.length l' = List.length l.
Proof.
  revert ids l'. induction l as [|opt l IH]; intros ids l'; simpl.
  - intros H. inversion H. reflexivity.
  - destruct ids as [|i ids]; [discriminate|].
    destruct opt; try discriminate.
    destruct (relabel ids l) as [r|] eqn:E; [|discriminate].
    simpl. intros H. inversion H. simpl. f_equal. eapply IH, E.
Qed.

Lemma option_text_set_id o v :
  option_text (JDict (set o (chars "id") v)) = option_text (JDict o).
Proof.
  unfold option_text, get. rewrite lookup_set_other; reflexivity.
Qed.

Lemma relabel_texts ids l l' :
  relabel ids l = Ok l' -> map option_text l' = map option_text l.
Proof.
  revert ids l'. induction l as [|opt l IH]; intros ids l'; simpl.
  - intros H. inversion H. reflexivity.
  - destruct ids as [|i ids]; [discriminate|].
    destruct opt; try discriminate.
    destruct (relabel ids l) as [r|] eqn:E; [|discriminate].
    simpl. intros H. inversion H. cbn [map].
    rewrite option_text_set_id. f_equal. eapply IH, E.
Qed.

Lemma is_correct_relabelled o new_id t :
  is_correct (JStr t) (JDict (set o (chars "id") (JStr new_id)))
  = text_eqb new_id t.
Proof.
  unfold is_correct, get. rewrite lookup_set_same. reflexivity.
Qed.

(** After relabelling with distinct ids, the option found under the id
    at position [idx] is the one at position [idx]. *)
Lemma find_relabelled ids l l' idx t :
  relabel ids l = Ok l' ->
  NoDup ids ->
  nth_error ids idx = Some t ->
  idx < List.length l ->
  find (is_correct (JStr t)) l' = nth_error l' idx.
Proof.
  revert ids l' idx. induction l as [|opt l IH]; intros ids l' idx; simpl.
  - intros _ _ _ H. lia.
  - destruct ids as [|i ids]; [discriminate|].
    destruct opt; try discriminate.
    destruct (relabel ids l) as [r|] eqn:E; [|discriminate].
    simpl. intros H Hnd Hnth Hlt. inversion H; subst. clear H.
    inversion Hnd as [|? ? Hnotin Hnd']; subst.
    cbn [find]. rewrite is_correct_relabelled.
    destruct idx as [|idx]; cbn [nth_error List.length] in *.
    + inversion Hnth; subst. rewrite text_eqb_refl. reflexivity.
    + destruct (text_eqb i t) eqn:Heq.
      * apply text_eqb_eq in Heq. subst.
        exfalso. apply Hnotin. eapply nth_error_In, Hnth.
      * eapply IH; eauto. lia.
Qed.

Lemma relabel_nth_text ids l l' idx :
  relabel ids l = Ok l' ->
  option_map option_text (nth_error l' idx)
  = option_map option_text (nth_error l idx).
Proof.
  intros H. apply relabel_texts in H.
  rewrite <- !nth_error_map, H. reflexivity.
Qed.

Lemma in_firstn_in (x : text) n l : In x (firstn n l) -> In x l.
Proof.
  revert l. induction n as [|n IH]; intros [|y l]; simpl; try tauto.
  intros [H|H]; [left; exact H|right; apply IH, H].
Qed.

Lemma canonical_ids_nodup n : NoDup (firstn n canonical_ids).
Proof.
  assert (H : NoDup canonical_ids).
  { unfold canonical_ids.
    repeat (constructor; [simpl; intros H;
      repeat (destruct H as [H|H]; [discriminate|]); exact H|]).
    constructor. }
  revert H. generalize canonical_ids. induction n as [|n IH];
    intros l H; simpl; [constructor|].
  destruct l as [|x l]; [constructor|].
  inversion H; subst. constructor; [|apply IH; assumption].
  intros Hin. apply in_firstn_in in Hin. contradiction.
Qed.

Lemma relabel_returns ids l :
  all_dicts l -> List.length l <= List.length ids ->
  exists l', relabel ids l = Ok l'.
Proof.
  revert ids. induction l as [|opt l IH]; intros ids Hd Hlen; simpl.
  - eauto.
  - destruct ids as [|i ids]; [simpl in Hlen; lia|].
    inversion Hd as [|? ? Hopt Hd']; subst.
    destruct opt; try discriminate.
    destruct (IH ids Hd') as [r ->]; [simpl in Hlen; lia|].
    simpl. eauto.
Qed.

Lemma relabel_runs_out ids l :
  all_dicts l -> List.length ids < List.length l ->
  relabel ids l = Raise IndexError.
Proof.
  revert ids. induction l as [|opt l IH]; intros ids Hd Hlen; simpl.
  - simpl in Hlen. lia.
  - destruct ids as [|i ids]; [reflexivity|].
    inversion Hd as [|? ? Hopt Hd']; subst.
    destruct opt; try discriminate.
    rewrite IH; [reflexivity|assumption|simpl in Hlen; lia].
Qed.

(** What a call that returns has done. *)
Lemma randomize_question_cases shuffle question question' :
  randomize_question shuffle question = Ok question' ->
  question' = question
  \/ exists options idx relabelled new_correct,
       lookup (chars "options") question = Some (JList options)
       /\ find_index (is_correct (correct_answer_of question))
            (shuffle options) = Some idx
       /\ relabel (firstn (List.length (shuffle options)) canonical_ids)
            (shuffle options) = Ok relabelled
       /\ nth_error (firstn (List.length (shuffle options)) canonical_ids)
            idx = Some new_correct
       /\ question'
          = set (set question (chars "correctAnswer") (JStr new_correct))
              (chars "options") (JList relabelled).
Proof.
  unfold randomize_question, correct_answer_of.
  destruct (lookup (chars "options") question) as [[| | | | |options|]|];
    try (intros H; inversion H; left; reflexivity).
  destruct (1 <? List.length options);
    [|intros H; inversion H; left; reflexivity].
  destruct (find _ options) as [co|];
    [|intros H; inversion H; left; reflexivity].
  destruct (truthy co); [|intros H; inversion H; left; reflexivity].
  destruct (find_index _ (shuffle options)) as [idx|] eqn:Hidx;
    [|intros H; inversion H; left; reflexivity].
  destruct (relabel _ (shuffle options)) as [relabelled|] eqn:Hrel;
    [|discriminate].
  unfold nth_id. simpl.
  destruct (nth_error _ idx) as [new_correct|] eqn:Hnth; [|discriminate].
  simpl. intros H. inversion H. right.
  exists options, idx, relabelled, new_correct. auto.
Qed.

(** C7 (amended). For every quiz record and every permutation drawn for
    it: a record whose correct option is not found by id is returned as it
    is; on a record whose options are at most six dicts the randomizer
    returns; and whenever it returns, the option texts of the result are a
    permutation of those of the input and, provided no two options carry the
    id that correctAnswer names, the option that correctAnswer refers to
    afterwards has the text of the option it referred to before. *)
Theorem randomizer_keeps_texts_and_answer :
  forall (shuffle : list json -> list json) (question : dict),
    (forall l, Permutation l (shuffle l)) ->
    (referenced_option question = None ->
     randomize_question shuffle question = Ok question)
    /\ (relabellable question ->
        exists question', randomize_question shuffle question = Ok question')
    /\ (forall question',
          randomize_question shuffle question = Ok question' ->
          Permutation (option_texts question) (option_texts question')
          /\ (at_most_one_correct question ->
              option_map option_text (referenced_option question')
              = option_map option_text (referenced_option question))).
Proof.
  intros shuffle question Hperm. split; [|split].
  - unfold referenced_option, randomize_question, correct_answer_of.
    destruct (lookup (chars "options") question) as [[| | | | |options|]|];
      try reflexivity.
    intros ->. destruct (1 <? List.length options); reflexivity.
  - unfold relabellable, randomize_question.
    destruct (lookup (chars "options") question) as [[| | | | |options|]|];
      eauto.
    intros [Hd Hlen].
    destruct (1 <? List.length options); [|eauto].
    destruct (find _ options) as [co|]; [|eauto].
    destruct (truthy co); [|eauto].
    destruct (find_index _ (shuffle options)) as [idx|] eqn:Hidx; [|eauto].
    pose proof (Hperm options) as Hp.
    assert (Hlen' : List.length (shuffle options) = List.length options)
      by (symmetry; apply Permutation_length, Hp).
    destruct (relabel_returns
                (firstn (List.length (shuffle options)) canonical_ids)
                (shuffle options)) as [relabelled Hrel].
    { unfold all_dicts in *. eapply Permutation_Forall; eassumption. }
    { rewrite length_firstn. unfold canonical_ids. simpl List.length. lia. }
    rewrite Hrel. simpl. unfold nth_id.
    apply find_index_bound in Hidx.
    destruct (nth_error _ idx) as [t|] eqn:Hnth; [simpl; eauto|].
    apply nth_error_None in Hnth. rewrite length_firstn in Hnth.
    unfold canonical_ids in Hnth. simpl List.length in Hnth. lia.
  - intros question' H.
    destruct (randomize_question_cases _ _ _ H)
      as [->|(options & idx & relabelled & new_correct
              & Hopt & Hidx & Hrel & Hnth & ->)].
    { split; [apply Permutation_refl|reflexivity]. }
    assert (Hopt' : lookup (chars "options")
                      (set (set question (chars "correctAnswer")
                              (JStr new_correct))
                         (chars "options") (JList relabelled))
                    = Some (JList relabelled)) by apply lookup_set_same.
    split.
    + unfold option_texts. rewrite Hopt, Hopt'.
      rewrite (relabel_texts _ _ _ Hrel).
      apply Permutation_map, Hperm.
    + unfold at_most_one_correct, referenced_option.
      rewrite Hopt, Hopt'. intros Hone.
      assert (Hca : correct_answer_of
                      (set (set question (chars "correctAnswer")
                              (JStr new_correct))
                         (chars "options") (JList relabelled))
                    = JStr new_correct).
      { unfold correct_answer_of, get_default.
        rewrite lookup_set_other by reflexivity.
        rewrite lookup_set_same. reflexivity. }
      rewrite Hca.
      rewrite (find_relabelled _ _ _ idx new_correct Hrel
                 (canonical_ids_nodup _) Hnth
                 (find_index_bound _ _ _ Hidx)).
      rewrite (relabel_nth_text _ _ _ idx Hrel).
      rewrite (find_index_nth _ _ _ Hidx).
      rewrite (find_unique_permutation _ options (shuffle options)
                 (Hperm options) Hone).
      reflexivity.
Qed.

Lemma randomizer_keeps_texts_and_answer_witness :
  exists question',
    randomize_question (@rev json) (make_question seven_options "z")
    = Ok (make_question seven_options "z")
    /\ randomize_question (@rev json)
         (make_question (firstn 4 seven_options) "b")
       = Ok question'
    /\ Permutation
         (option_texts (make_question (firstn 4 seven_options) "b"))
         (option_texts question')
    /\ option_map option_text (referenced_option question')
       = Some (JStr (chars "two")).
Proof.
  assert (Hperm : forall l : list json, Permutation l (rev l))
    by (intros l; apply Permutation_rev).
  eexists. split; [|split].
  - apply (randomizer_keeps_texts_and_answer (@rev json)
             (make_question seven_options "z") Hperm). reflexivity.
  - vm_compute. reflexivity.
  - match goal with
    | |- Permutation _ (option_texts ?q') /\ _ =>
        destruct (randomizer_keeps_texts_and_answer (@rev json)
                    (make_question (firstn 4 seven_options) "b") Hperm)
          as (_ & _ & Hkeep);
        destruct (Hkeep q' eq_refl) as [Htexts Hanswer]
    end.
    split; [exact Htexts|].
    rewrite Hanswer; [reflexivity|]. vm_compute. lia.
Defined.

(** C7 (as stated) fails when two options carry the id that correctAnswer
    names: after the shuffle the first option found under that id can be
    the other one.  The record below goes through the validator with its
    options and its correctAnswer as they are; the answer referred to has
    the text "right" before the shuffle and "wrong" after. *)
Lemma randomizer_answer_counterexample :
  Permutation twin_options (rev twin_options)
  /\ (exists v,
        validate_question (chars "Algebra") 0
          (JDict (make_question twin_options "a")) = Ok (Some v)
        /\ lookup (chars "options") v = Some (JList twin_options)
        /\ get v (chars "correctAnswer") = JStr (chars "a"))
  /\ option_map option_text
       (referenced_option (make_question twin_options "a"))
     = Some (JStr (chars "right"))
  /\ exists question',
       randomize_question (@rev json) (make_question twin_options "a")
       = Ok question'
       /\ option_map option_text (referenced_option question')
          = Some (JStr (chars "wrong")).
Proof.
  split; [apply Permutation_rev|].
  split; [eexists; split; [vm_compute; reflexivity|split; reflexivity]|].
  split; [reflexivity|].
  eexists. split; [vm_compute; reflexivity|reflexivity].
Qed.

(** C8 fails on the code: with more than six options, all of them dicts,
    and the correct one found, the relabelling loop runs out of ids and
    the call raises [IndexError], whatever the permutation. *)
Theorem randomizer_raises_beyond_six :
  forall (shuffle : list json -> list json) (question : dict)
         (options : list json) (correct_option : json),
    (forall l, Permutation l (shuffle l)) ->
    lookup (chars "options") question = Some (JList options) ->
    all_dicts options ->
    6 < List.length options ->
    referenced_option question = Some correct_option ->
    truthy correct_option = true ->
    randomize_question shuffle question = Raise IndexError.
Proof.
  intros shuffle question options co Hperm Hopt Hd Hlen Href Hco.
  unfold referenced_option in Href. rewrite Hopt in Href.
  unfold randomize_question. rewrite Hopt.
  fold (correct_answer_of question). rewrite Href, Hco.
  replace (1 <? List.length options) with true
    by (symmetry; apply Nat.ltb_lt; lia).
  pose proof (Hperm options) as Hp.
  assert (Hlen' : List.length (shuffle options) = List.length options)
    by (symmetry; apply Permutation_length, Hp).
  assert (Hfound : exists idx,
             find_index (is_correct (correct_answer_of question))
               (shuffle options) = Some idx).
  { assert (Hin : In co (filter (is_correct (correct_answer_of question))
                           options)).
    { rewrite find_head_filter in Href.
      destruct (filter _ options); inversion Href. left. reflexivity. }
    eapply Permutation_in in Hin; [|apply filter_permutation, Hp].
    destruct (find (is_correct (correct_answer_of question))
                (shuffle options)) as [x|] eqn:Hf.
    - eapply find_index_some, Hf.
    - rewrite find_head_filter in Hf.
      destruct (filter _ (shuffle options)); [destruct Hin|discriminate]. }
  destruct Hfound as [idx ->].
  rewrite relabel_runs_out; [reflexivity| |].
  - unfold all_dicts in *. eapply Permutation_Forall; eassumption.
  - rewrite length_firstn. unfold canonical_ids. simpl List.length. lia.
Qed.

Lemma randomizer_raises_beyond_six_witness :
  randomize_question (@rev json) (make_question seven_options "c")
  = Raise IndexError.
Proof.
  apply (randomizer_raises_beyond_six (@rev json)
           (make_question seven_options "c") seven_options
           (make_option "c" "three")).
  - intros l. apply Permutation_rev.
  - reflexivity.
  - repeat constructor.
  - simpl. lia.
  - reflexivity.
  - reflexivity.
Defined.

End RandomizerFacts.

(* ================================================================== *)
(** ** Matches of the regular expressions *)

Section RegexFacts.

Lemma starts_with_split t s :
  starts_with t s = true -> s = t ++ skipn (List.length t) s.
Proof.
  revert s. induction t as [|a t IH]; intros s; simpl; [reflexivity|].
  destruct s as [|b s]; [discriminate|].
  intros H. apply andb_true_iff in H as [Hab Ht].
  apply Ascii.eqb_eq in Hab. subst b. simpl. f_equal. apply IH, Ht.
Qed.

Lemma index_of_split c s i :
  index_of c s = Some i ->
  firstn (S i) s = firstn i s ++ [c] /\ ~ In c (firstn i s).
Proof.
  revert i. induction s as [|d s IH]; intros i; simpl; [discriminate|].
  destruct (Ascii.eqb_spec c d) as [->|Hne].
  - intros H. inversion H. simpl. auto.
  - destruct (index_of c s) as [j|]; [|discriminate].
    simpl. intros H. inversion H; subst.
    destruct (IH j eq_refl) as [Hf Hn]. split.
    + rewrite Hf. reflexivity.
    + simpl. intros [Hd|Hin]; [congruence|contradiction].
Qed.

(** Every match of a scan is a match of the pattern at the head of some
    suffix of the text. *)
Lemma finditer_from_in ps skip pos s m :
  In m (finditer_from ps skip pos s) ->
  exists pre suffix n marks,
    s = pre ++ suffix
    /\ match_pieces ps suffix = Some (n, marks)
    /\ m_text m = firstn n suffix.
Proof.
  revert skip pos. induction s as [|c s IH]; intros skip pos;
    cbn [finditer_from]; [intros []|].
  assert (Hrest : forall k p,
             In m (finditer_from ps k p s) ->
             exists pre suffix n marks,
               c :: s = pre ++ suffix
               /\ match_pieces ps suffix = Some (n, marks)
               /\ m_text m = firstn n suffix).
  { intros k p Hin.
    destruct (IH k p Hin) as (pre & suf & n & ms & -> & Hm & Ht).
    exists (c :: pre), suf, n, ms. auto. }
  destruct skip as [|k]; [|apply Hrest].
  destruct (match_pieces ps (c :: s)) as [[n ms]|] eqn:Hm; [|apply Hrest].
  intros [<-|Hin]; [|eapply Hrest, Hin].
  exists [], (c :: s), n, ms. auto.
Qed.


(** A match of a literal followed by [[^c]*c] is the literal, a body
    without [c], and [c]. *)
Lemma lit_until_match t c suffix n marks :
  match_pieces [PLit t; PUntil c] suffix = Some (n, marks) ->
  exists body,
    firstn n suffix = t ++ body ++ [c] /\ ~ In c body.
Proof.
  cbn [match_pieces].
  destruct (starts_with t suffix) eqn:Hs; [|discriminate].
  apply starts_with_split in Hs.
  remember (skipn (List.length t) suffix) as rest.
  destruct (index_of c rest) as [i|] eqn:Hi; [|discriminate].
  cbn [shift]. intros H. inversion H; subst n. clear H.
  destruct (index_of_split _ _ _ Hi) as [Hf Hn].
  exists (firstn i rest). split; [|exact Hn].
  rewrite Hs at 1. rewrite firstn_app.
  rewrite firstn_all2 by lia.
  replace (List.length t + S (i + 0) - List.length t) with (S i) by lia.
  rewrite Hf. reflexivity.
Qed.







End RegexFacts.

(* ================================================================== *)
(** ** Textual order *)

Section OrderFacts.

Variable json_loads : text -> result json.
Variable first_topic : text.


Lemma process_span_located_erase pos acc t :
  map snd (process_span_located json_loads pos acc t)
  = process_span json_loads (map snd acc) t.
Proof.
  unfold process_span_located, process_span.
  destruct (json_loads t) as [obj|]; [|reflexivity].
  destruct (question_shaped obj); [|reflexivity].
  rewrite map_app, length_map. reflexivity.
Qed.

Lemma located_erase skip pos s acc :
  map snd (balanced_loop_located json_loads skip pos s acc)
  = balanced_loop json_loads skip s (map snd acc).
Proof.
  revert skip pos acc. induction s as [|c s IH]; intros skip pos acc;
    cbn [balanced_loop balanced_loop_located].
  - reflexivity.
  - destruct skip as [|k]; [|apply IH].
    destruct (Ascii.eqb c "{"%char); [|apply IH].
    destruct (scan_from scan_init (c :: s)); [|apply IH].
    rewrite IH, process_span_located_erase. reflexivity.
Qed.



Lemma skipn_step (s0 : text) pos c rest :
  skipn pos s0 = c :: rest ->
  skipn (S pos) s0 = rest /\ nth_error s0 pos = Some c.
Proof.
  revert s0. induction pos as [|pos IH]; intros s0 H.
  - simpl in H. subst. auto.
  - destruct s0 as [|x s0]; [discriminate|]. exact (IH s0 H).
Qed.

Lemma located_sources s0 skip pos s acc :
  skipn pos s0 = s ->
  Forall (record_source json_loads s0) acc ->
  Forall (record_source json_loads s0)
    (balanced_loop_located json_loads skip pos s acc).
Proof.
  revert skip pos acc. induction s as [|c s IH]; intros skip pos acc Hs Hall;
    cbn [balanced_loop_located]; [assumption|].
  destruct (skipn_step s0 pos c s Hs) as [Hrest Hc].
  destruct skip as [|k]; [|apply IH; assumption].
  destruct (Ascii.eqb_spec c "{"%char) as [->|]; [|apply IH; assumption].
  destruct (scan_from scan_init ("{"%char :: s)) as [n|] eqn:Hscan;
    [|apply IH; assumption].
  apply IH; [assumption|].
  unfold process_span_located.
  destruct (json_loads _) as [obj|] eqn:Hobj; [|assumption].
  destruct (question_shaped obj) as [d|] eqn:Hd; [|assumption].
  apply Forall_app. split; [assumption|]. constructor; [|constructor].
  simpl. exists n, obj, d, (List.length acc + 1).
  rewrite Hs. auto.
Qed.





Lemma decode_all_sources json_str matches :
  (forall m, In m matches ->
             exists pre suffix n marks,
               json_str = pre ++ suffix
               /\ match_pieces error_object_pattern suffix = Some (n, marks)
               /\ m_text m = firstn n suffix) ->
  Forall (error_source json_loads json_str) (decode_all json_loads matches).
Proof.
  induction matches as [|m rest IH]; intros Hin; cbn [decode_all];
    [constructor|].
  assert (Hrest : Forall (error_source json_loads json_str)
                    (decode_all json_loads rest)).
  { apply IH. intros m' Hm'. apply Hin. right. exact Hm'. }
  destruct (json_loads (m_text m)) as [obj|] eqn:Hm; [|exact Hrest].
  constructor; [|exact Hrest].
  destruct (Hin m (or_introl eq_refl)) as (pre & suf & n & ms & Hs & Hp & Ht).
  destruct (lit_until_match _ _ _ _ _ Hp) as (body & Hb & Hnot).
  exists pre, body, (skipn n suf). change (chars "}") with ["}"%char].
  split; [|split].
  - rewrite <- Hb, firstn_skipn. exact Hs.
  - exact Hnot.
  - rewrite <- Hb, <- Ht. exact Hm.
Qed.

End OrderFacts.

(* ================================================================== *)
(** ** The salvage scanner on truncated arrays *)

Section SalvageFacts.

Variable json_loads : text -> result json.

Lemma balanced_loop_no_brace pre s acc :
  no_brace pre = true ->
  balanced_loop json_loads 0 (pre ++ s) acc
  = balanced_loop json_loads 0 s acc.
Proof.
  induction pre as [|c pre IH]; [reflexivity|].
  cbn [no_brace forallb]. intros H. apply andb_true_iff in H as [Hc Hpre].
  rewrite <- app_comm_cons. cbn [balanced_loop].
  apply negb_true_iff in Hc. rewrite Hc. apply IH, Hpre.
Qed.

Lemma balanced_loop_skip s1 s2 acc :
  balanced_loop json_loads (List.length s1) (s1 ++ s2) acc
  = balanced_loop json_loads 0 s2 acc.
Proof.
  induction s1 as [|c s1 IH]; [reflexivity|].
  rewrite <- app_comm_cons. cbn [balanced_loop List.length]. exact IH.
Qed.

Lemma scan_from_closed st o rest :
  scan_from st o = Some (List.length o) ->
  scan_from st (o ++ rest) = Some (List.length o).
Proof. intros H. rewrite scan_from_app, H. reflexivity. Qed.

Lemma process_span_accepted acc t obj d :
  json_loads t = Ok obj -> question_shaped obj = Some d ->
  process_span json_loads acc t
  = acc ++ [JDict (fill_defaults (List.length acc + 1) d)].
Proof. intros H1 H2. unfold process_span. rewrite H1, H2. reflexivity. Qed.

Lemma process_span_rejected acc t :
  accepted json_loads t = false -> process_span json_loads acc t = acc.
Proof.
  unfold accepted, process_span.
  destruct (json_loads t) as [obj|]; [|reflexivity].
  destruct (question_shaped obj); [discriminate|reflexivity].
Qed.

Lemma balanced_loop_record r rest acc :
  well_formed_record json_loads r ->
  balanced_loop json_loads 0 ((rec_text r ++ rec_sep r) ++ rest) acc
  = balanced_loop json_loads 0 rest
      (acc ++ [JDict (fill_defaults (List.length acc + 1) (rec_dict r))]).
Proof.
  intros ((o & Ho) & Hscan & (obj & Hobj & Hshape) & Hsep).
  rewrite <- app_assoc.
  pose proof (scan_from_closed _ _ (rec_sep r ++ rest) Hscan) as Hfull.
  assert (Hfirst : firstn (List.length (rec_text r))
                     (rec_text r ++ rec_sep r ++ rest) = rec_text r).
  { rewrite firstn_app, Nat.sub_diag, firstn_all. simpl.
    apply app_nil_r. }
  revert Hfull Hfirst. rewrite Ho. cbn [app List.length].
  intros Hfull Hfirst.
  cbn [balanced_loop]. change (Ascii.eqb "{" "{") with true. cbv iota.
  rewrite Hfull, Hfirst. rewrite <- Ho.
  rewrite (process_span_accepted _ _ _ _ Hobj Hshape).
  replace (S (List.length o) - 1) with (List.length o) by lia.
  rewrite balanced_loop_skip. apply balanced_loop_no_brace, Hsep.
Qed.

Lemma balanced_loop_tail skip tail acc :
  holds_no_record json_loads tail = true ->
  balanced_loop json_loads skip tail acc = acc.
Proof.
  revert skip. induction tail as [|c tail IH]; intros skip; [reflexivity|].
  cbn [holds_no_record]. intros H. apply andb_true_iff in H as [Hc Htail].
  cbn [balanced_loop]. destruct skip as [|k]; [|apply IH, Htail].
  destruct (Ascii.eqb c "{"%char); [|apply IH, Htail].
  destruct (scan_from scan_init (c :: tail)) as [n|]; [|apply IH, Htail].
  apply negb_true_iff in Hc.
  rewrite (process_span_rejected _ _ Hc). apply IH, Htail.
Qed.

Lemma balanced_loop_records records tail acc :
  Forall (well_formed_record json_loads) records ->
  holds_no_record json_loads tail = true ->
  balanced_loop json_loads 0 (records_text records ++ tail) acc
  = acc ++ records_from (List.length acc) (map rec_dict records).
Proof.
  intros Hrec Htail. revert acc.
  induction Hrec as [|r records Hr _ IH]; intros acc.
  - simpl. rewrite app_nil_r. apply balanced_loop_tail, Htail.
  - unfold records_text. cbn [map concat].
    rewrite <- (app_assoc (rec_text r ++ rec_sep r)).
    rewrite (balanced_loop_record r _ acc Hr).
    fold (records_text records). rewrite IH.
    rewrite <- app_assoc, length_app. cbn [map records_from List.length app].
    replace (List.length acc + 1) with (S (List.length acc)) by lia.
    reflexivity.
Qed.

Lemma records_from_length start ds :
  List.length (records_from start ds) = List.length ds.
Proof.
  revert start. induction ds as [|d ds IH]; intros start; simpl;
    [reflexivity|]. f_equal. apply IH.
Qed.

Lemma index_of_absent c s :
  forallb (fun x => negb (Ascii.eqb x c)) s = true -> index_of c s = None.
Proof.
  induction s as [|d s IH]; [reflexivity|].
  cbn [forallb index_of]. intros H. apply andb_true_iff in H as [Hd Hs].
  apply negb_true_iff in Hd. rewrite Ascii.eqb_sym, Hd, (IH Hs).
  reflexivity.
Qed.

Lemma index_of_first c body rest :
  forallb (fun x => negb (Ascii.eqb x c)) body = true ->
  index_of c (body ++ c :: rest) = Some (List.length body).
Proof.
  induction body as [|d body IH]; cbn [forallb index_of app List.length].
  - intros _. rewrite Ascii.eqb_refl. reflexivity.
  - intros H. apply andb_true_iff in H as [Hd Hs].
    apply negb_true_iff in Hd. rewrite Ascii.eqb_sym, Hd, (IH Hs).
    reflexivity.
Qed.

Lemma starts_with_app t s : starts_with t (t ++ s) = true.
Proof.
  induction t as [|c t IH]; [reflexivity|].
  cbn [app starts_with]. rewrite Ascii.eqb_refl. exact IH.
Qed.

Lemma skipn_app_exact {A : Type} (a b : list A) :
  skipn (List.length a) (a ++ b) = b.
Proof. induction a as [|x a IH]; [reflexivity|exact IH]. Qed.

Lemma firstn_app_exact {A : Type} (a b : list A) :
  firstn (List.length a) (a ++ b) = a.
Proof.
  induction a as [|x a IH]; [reflexivity|].
  cbn [List.length app firstn]. rewrite IH. reflexivity.
Qed.

Lemma forallb_skipn {A : Type} (f : A -> bool) n (l : list A) :
  forallb f l = true -> forallb f (skipn n l) = true.
Proof.
  revert l. induction n as [|n IH]; intros [|x l] H; try exact H.
  cbn [skipn]. cbn [forallb] in H. apply andb_true_iff in H as [_ H].
  apply IH, H.
Qed.

(** The error-object pattern at the head of a flat record matches the
    record and nothing more. *)
Lemma error_pattern_at_record body rest :
  no_closing_brace body = true ->
  match_pieces error_object_pattern
    ((lit "{'question'" ++ body ++ chars "}") ++ rest)
  = Some (List.length (lit "{'question'" ++ body ++ chars "}"), []).
Proof.
  intros Hb. unfold error_object_pattern. cbn [match_pieces].
  rewrite <- !app_assoc. rewrite starts_with_app, skipn_app_exact.
  change (chars "}" ++ rest) with ("}"%char :: rest).
  rewrite (index_of_first "}"%char body rest Hb).
  cbn [shift map]. rewrite !length_app.
  change (List.length (chars "}")) with 1. f_equal. f_equal. lia.
Qed.

Lemma error_pattern_needs_closer s :
  no_closing_brace s = true ->
  match_pieces error_object_pattern s = None.
Proof.
  intros Hs. unfold error_object_pattern. cbn [match_pieces].
  destruct (starts_with _ s); [|reflexivity].
  rewrite index_of_absent; [reflexivity|]. apply forallb_skipn, Hs.
Qed.

Lemma error_pattern_needs_opener c s :
  Ascii.eqb c "{"%char = false ->
  match_pieces error_object_pattern (c :: s) = None.
Proof.
  intros Hc. unfold error_object_pattern. cbn [match_pieces].
  change (lit "{'question'") with ("{"%char :: lit "'question'").
  cbn [starts_with]. rewrite (Ascii.eqb_sym "{"%char c), Hc. reflexivity.
Qed.

Lemma decode_all_positions ps s :
  forall skip pos pos',
    decode_all json_loads (finditer_from ps skip pos s)
    = decode_all json_loads (finditer_from ps skip pos' s).
Proof.
  induction s as [|c s IH]; intros skip pos pos'; [reflexivity|].
  cbn [finditer_from]. destruct skip as [|k]; [|apply IH].
  destruct (match_pieces ps (c :: s)) as [[n ms]|]; [|apply IH].
  cbn [decode_all m_text]. rewrite (IH (n - 1) (S pos) (S pos')).
  reflexivity.
Qed.

Lemma finditer_errors_lead lead s :
  no_brace lead = true ->
  forall pos,
    decode_all json_loads (finditer_from error_object_pattern 0 pos (lead ++ s))
    = decode_all json_loads (finditer_from error_object_pattern 0 0 s).
Proof.
  induction lead as [|c lead IH]; intros H pos.
  - apply decode_all_positions.
  - cbn [no_brace forallb] in H. apply andb_true_iff in H as [Hc Hl].
    apply negb_true_iff in Hc.
    rewrite <- app_comm_cons. cbn [finditer_from].
    rewrite (error_pattern_needs_opener c _ Hc). apply IH, Hl.
Qed.

Lemma finditer_from_skip ps a s :
  forall pos,
    decode_all json_loads (finditer_from ps (List.length a) pos (a ++ s))
    = decode_all json_loads (finditer_from ps 0 0 s).
Proof.
  induction a as [|c a IH]; intros pos.
  - apply decode_all_positions.
  - cbn [List.length app finditer_from]. apply IH.
Qed.

Lemma finditer_errors_tail tail :
  no_closing_brace tail = true ->
  forall skip pos, finditer_from error_object_pattern skip pos tail = [].
Proof.
  induction tail as [|c tail IH]; intros H skip pos; [reflexivity|].
  cbn [finditer_from]. destruct skip as [|k].
  - rewrite (error_pattern_needs_closer _ H).
    cbn [no_closing_brace forallb] in H.
    apply andb_true_iff in H as [_ H]. apply IH, H.
  - cbn [no_closing_brace forallb] in H.
    apply andb_true_iff in H as [_ H]. apply IH, H.
Qed.

Lemma decode_error_records records tail :
  Forall (well_formed_error json_loads) records ->
  decode_all json_loads
    (finditer_from error_object_pattern 0 0 (errors_text records ++ tail))
  = map err_value records
    ++ decode_all json_loads (finditer_from error_object_pattern 0 0 tail).
Proof.
  induction 1 as [|r records (Hb & Hd & Hs) _ IH]; [reflexivity|].
  unfold errors_text. cbn [map concat]. fold (errors_text records).
  rewrite <- !app_assoc.
  pose proof (error_pattern_at_record (err_body r)
                (err_sep r ++ errors_text records ++ tail) Hb) as Hm.
  fold (err_text r) in Hm.
  remember (err_sep r ++ errors_text records ++ tail) as rest eqn:Erest.
  assert (Hshape : exists o, err_text r = "{"%char :: o)
    by (eexists; reflexivity).
  destruct Hshape as [o Ho].
  assert (Hfirst : firstn (List.length (err_text r)) (err_text r ++ rest)
                   = err_text r) by apply firstn_app_exact.
  rewrite Ho in Hm, Hfirst, Hd |- *. rewrite <- app_comm_cons in *.
  cbn [finditer_from]. rewrite Hm. cbn [decode_all m_text].
  rewrite Hfirst, Hd.
  cbn [List.length]. rewrite Nat.sub_1_r. cbn [Nat.pred].
  rewrite (finditer_from_skip error_object_pattern o rest 1).
  subst rest. rewrite (finditer_errors_lead _ _ Hs 0), IH. reflexivity.
Qed.

(** C4 (amended). On a text made of a brace-free lead, N-1 complete
    records (each a span the scanner closes that decodes to a dict with a
    text and at least two options, followed by a brace-free separator) and
    a cut-off tail in which no closed span decodes to such a dict, the
    brace-balanced pass returns exactly the N-1 records, in order, with the
    missing fields filled in; when N-1 is at least one that is also what
    the salvage scanner returns.  On a text made of a brace-free lead, N-1
    complete flat error records that begin with the quoted key question
    right after their brace and decode, each followed by a brace-free
    separator, and a tail, the error-object scanner returns the N-1
    decoded records, in order, followed by what it finds in the tail
    alone; it finds nothing in a tail with no closing brace.  For every
    text, each record the brace-balanced pass returns is the decoding of a
    span that the scanner closed, and each record the error-object scanner
    returns is the decoding of a span that begins with the quoted key
    question right after a brace and ends at the first closing brace after
    it. *)
Theorem salvage_recovers_complete_records :
  (forall lead records tail,
      no_brace lead = true ->
      Forall (well_formed_record json_loads) records ->
      holds_no_record json_loads tail = true ->
      let json_str := lead ++ records_text records ++ tail in
      let recovered := records_from 0 (map rec_dict records) in
      balanced_pass json_loads json_str = recovered
      /\ List.length recovered = List.length records
      /\ (records <> [] ->
          extract_questions_from_broken_json json_loads json_str
          = recovered))
  /\ (forall lead records tail,
         no_brace lead = true ->
         Forall (well_formed_error json_loads) records ->
         let json_str := lead ++ errors_text records ++ tail in
         extract_errors_from_broken_json json_loads json_str
         = map err_value records
           ++ extract_errors_from_broken_json json_loads tail
         /\ (no_closing_brace tail = true ->
             extract_errors_from_broken_json json_loads json_str
             = map err_value records
             /\ List.length
                  (extract_errors_from_broken_json json_loads json_str)
                = List.length records))
  /\ (forall json_str,
         map snd (balanced_pass_located json_loads json_str)
         = balanced_pass json_loads json_str
         /\ Forall (record_source json_loads json_str)
              (balanced_pass_located json_loads json_str))
  /\ (forall json_str,
         Forall (error_source json_loads json_str)
           (extract_errors_from_broken_json json_loads json_str)).
Proof.
  split; [|split; [|split]].
  - intros lead records tail Hlead Hrec Htail json_str recovered.
    assert (Hpass : balanced_pass json_loads json_str = recovered).
    { unfold balanced_pass, json_str.
      rewrite (balanced_loop_no_brace _ _ _ Hlead).
      apply (balanced_loop_records records tail [] Hrec Htail). }
    split; [exact Hpass|]. split.
    + unfold recovered. rewrite records_from_length, length_map.
      reflexivity.
    + intros Hne. unfold extract_questions_from_broken_json.
      rewrite Hpass. unfold recovered.
      destruct records as [|r records]; [contradiction|]. reflexivity.
  - intros lead records tail Hlead Hrec json_str.
    assert (Hall : extract_errors_from_broken_json json_loads json_str
                   = map err_value records
                     ++ extract_errors_from_broken_json json_loads tail).
    { unfold extract_errors_from_broken_json, finditer, json_str.
      rewrite (finditer_errors_lead _ _ Hlead 0).
      apply decode_error_records, Hrec. }
    split; [exact Hall|]. intros Htail.
    assert (Hnone : extract_errors_from_broken_json json_loads tail = []).
    { unfold extract_errors_from_broken_json, finditer.
      rewrite (finditer_errors_tail tail Htail). reflexivity. }
    rewrite Hall, Hnone, app_nil_r, length_map. split; reflexivity.
  - intros s. unfold balanced_pass_located, balanced_pass. split.
    + apply located_erase.
    + apply located_sources; [reflexivity|constructor].
  - intros s. apply decode_all_sources.
    intros m Hm. eapply finditer_from_in, Hm.
Qed.

End SalvageFacts.

Lemma salvage_recovers_complete_records_witness :
  balanced_pass py_json_loads
    (lit "Here: [" ++ records_text [first_record; second_record] ++ cut_tail)
  = records_from 0 [rec_dict first_record; rec_dict second_record]
  /\ extract_questions_from_broken_json py_json_loads
       (lit "Here: [" ++ records_text [first_record; second_record]
        ++ cut_tail)
     = records_from 0 [rec_dict first_record; rec_dict second_record]
  /\ extract_errors_from_broken_json py_json_loads
       (lit "Here: [" ++ errors_text [first_error; second_error]
        ++ cut_error_tail)
     = [err_value first_error; err_value second_error].
Proof.
  assert (Hrec : Forall (well_formed_record py_json_loads)
                   [first_record; second_record]).
  { repeat constructor.
    - eexists. reflexivity.
    - eexists. split; reflexivity.
    - eexists. reflexivity.
    - eexists. split; reflexivity. }
  assert (Herr : Forall (well_formed_error py_json_loads)
                   [first_error; second_error]).
  { repeat constructor. }
  destruct (salvage_recovers_complete_records py_json_loads)
    as (Hquiz & Herrors & _).
  destruct (Hquiz (lit "Here: [") [first_record; second_record] cut_tail
              eq_refl Hrec eq_refl) as (Hpass & _ & Hall).
  destruct (Herrors (lit "Here: [") [first_error; second_error]
              cut_error_tail eq_refl Herr) as (_ & Hcut).
  split; [exact Hpass|]. split; [apply Hall; discriminate|].
  apply Hcut. reflexivity.
Defined.

(** C4 (as stated) fails.  On an array of error records cut off inside
    its third record, whose records do not begin with the key question, the
    error-object scanner returns nothing, not the two complete records.
    And on an array cut off inside its only quiz record, after the options
    list, the scanner closes no span and the brace-balanced pass returns
    nothing, but the regex pass then completes the cut-off object with a
    closing brace and returns it, with the answer "a" filled in. *)
Lemma salvage_claim_counterexample :
  extract_errors_from_broken_json py_json_loads cut_errors = []
  /\ scan_from scan_init (skipn 1 cut_single) = None
  /\ balanced_pass py_json_loads cut_single = []
  /\ extract_questions_from_broken_json py_json_loads cut_single
     = [ JDict [ (chars "id", JStr (chars "1"));
                 (chars "text", JStr (chars "Q"));
                 (chars "options", JList [JStr (chars "x"); JStr (chars "y")]);
                 (chars "correctAnswer", JStr (chars "a"));
                 (chars "explanation", JStr (chars "Generated question"));
                 (chars "topic", JStr (chars "General")) ] ].
Proof.
  split; [reflexivity|]. split; [reflexivity|].
  split; vm_compute; reflexivity.
Qed.

(* ================================================================== *)
(** ** The tiered extractors *)

Section ExtractorFacts.

Variable json_loads : text -> result json.

Lemma keep_longer_nil c : keep_longer [] c = c.
Proof.
  unfold keep_longer. destruct c; reflexivity.
Qed.

Lemma try_bracket_candidate best suffix :
  try_bracket json_loads best suffix
  = bind (candidate json_loads suffix) (fun c => Ok (keep_longer best c)).
Proof.
  unfold candidate, try_bracket.
  destruct (bracket_from 0 suffix) as [n|]; [|reflexivity].
  destruct (100 <? _); [|reflexivity].
  destruct (json_loads (firstn n suffix)) as [[]|[]];
    try reflexivity; simpl; rewrite ?keep_longer_nil; try reflexivity.
  destruct (json_loads (fix_json (firstn n suffix))) as [[]|];
    simpl; rewrite ?keep_longer_nil; reflexivity.
Qed.

Lemma bracket_loop_fold s best0 best :
  bracket_loop json_loads s best0 = Ok best ->
  exists candidates,
    Forall2 (fun suffix c => candidate json_loads suffix = Ok c)
      (bracket_suffixes s) candidates
    /\ best = fold_left keep_longer candidates best0.
Proof.
  revert best0. induction s as [|c s IH]; intros best0;
    cbn [bracket_loop bracket_suffixes].
  - intros H. inversion H. exists []. split; [constructor|reflexivity].
  - destruct (Ascii.eqb c "["%char); [|apply IH].
    rewrite try_bracket_candidate.
    destruct (candidate json_loads (c :: s)) as [cand|] eqn:Hc;
      [|discriminate].
    simpl. intros H. destruct (IH _ H) as (cands & Hf & ->).
    exists (cand :: cands). split; [constructor; assumption|reflexivity].
Qed.

Lemma fold_keep_longer candidates best0 :
  (fold_left keep_longer candidates best0 = best0
   /\ Forall (fun c => List.length c <= List.length best0) candidates)
  \/ (List.length best0
      < List.length (fold_left keep_longer candidates best0)
      /\ first_longest candidates
           (fold_left keep_longer candidates best0)).
Proof.
  revert best0. induction candidates as [|c cs IH]; intros best0;
    cbn [fold_left].
  - left. split; [reflexivity|constructor].
  - destruct (List.length best0 <? List.length c) eqn:Hlt.
    + assert (Hk : keep_longer best0 c = c)
        by (unfold keep_longer; rewrite Hlt; reflexivity).
      rewrite Hk. apply Nat.ltb_lt in Hlt. right.
      destruct (IH c) as [[Hb Hall]|[Hlen (k & Hk' & Hmax)]].
      * rewrite Hb. split; [exact Hlt|]. exists 0. split; [reflexivity|].
        intros [|j] x Hx; simpl in Hx.
        -- inversion Hx; subst. split; [lia|intros; lia].
        -- split; [|intros; lia].
           rewrite Forall_forall in Hall.
           apply Hall. eapply nth_error_In, Hx.
      * split; [lia|]. exists (S k). split; [exact Hk'|].
        intros [|j] x Hx; simpl in Hx.
        -- inversion Hx; subst. split; [lia|intros; lia].
        -- destruct (Hmax j x Hx) as [H1 H2].
           split; [exact H1|intros; apply H2; lia].
    + assert (Hk : keep_longer best0 c = best0)
        by (unfold keep_longer; rewrite Hlt; reflexivity).
      rewrite Hk. apply Nat.ltb_ge in Hlt.
      destruct (IH best0) as [[Hb Hall]|[Hlen (k & Hk' & Hmax)]].
      * left. split; [exact Hb|]. constructor; assumption.
      * right. split; [exact Hlen|]. exists (S k). split; [exact Hk'|].
        intros [|j] x Hx; simpl in Hx.
        -- inversion Hx; subst. split; [lia|intros; lia].
        -- destruct (Hmax j x Hx) as [H1 H2].
           split; [exact H1|intros; apply H2; lia].
Qed.

Lemma bracket_from_closed z arr trail :
  bracket_from z arr = Some (List.length arr) ->
  bracket_from z (arr ++ trail) = Some (List.length arr).
Proof.
  revert z. induction arr as [|c arr IH]; intros z; simpl; [discriminate|].
  destruct (bracket_char z c) as [z'|].
  - destruct (bracket_from z' arr) as [n|] eqn:E; [|discriminate].
    simpl. intros H. inversion H; subst.
    rewrite (IH z' E). reflexivity.
  - intros H. inversion H as [H1].
    destruct arr; [reflexivity|discriminate].
Qed.

Lemma candidate_of_array arr trail questions :
  bracket_from 0 arr = Some (List.length arr) ->
  100 < List.length arr ->
  json_loads arr = Ok (JList questions) ->
  candidate json_loads (arr ++ trail) = Ok questions.
Proof.
  intros Hb Hlen Hj. unfold candidate, try_bracket.
  rewrite (bracket_from_closed _ _ trail Hb).
  rewrite firstn_app, Nat.sub_diag, firstn_all. simpl firstn.
  rewrite app_nil_r.
  replace (100 <? List.length arr) with true
    by (symmetry; apply Nat.ltb_lt; exact Hlen).
  rewrite Hj, keep_longer_nil. reflexivity.
Qed.

(** C5 (amended). When the fenced-block search finds a block that decodes
    to a non-empty list, the extractor returns that list.  When it yields
    nothing, the extractor goes through the brackets of the text from left
    to right; each offers a candidate list, and if the loop ends with a
    non-empty list, that list is what the extractor returns: it is one of
    the candidates, none is longer, and every earlier one is shorter.  The
    candidate offered at the opening bracket of an array that the bracket
    count closes at its own last character, that is longer than 100
    characters and that decodes to a list, is that list, element for
    element. *)
Theorem extractor_returns_first_longest :
  forall ai_response,
    (forall m q qs,
        search code_block_pattern ai_response = Some m ->
        json_loads (group1 m) = Ok (JList (q :: qs)) ->
        parse_quiz_questions json_loads ai_response
        = Ok (q :: qs))
    /\ (forall best,
           code_block json_loads ai_response = Ok None ->
           bracket_loop json_loads ai_response [] = Ok best ->
           best <> [] ->
           parse_quiz_questions json_loads ai_response
           = Ok best
           /\ exists candidates,
                Forall2 (fun suffix c => candidate json_loads suffix = Ok c)
                  (bracket_suffixes ai_response) candidates
                /\ first_longest candidates best)
    /\ (forall arr trail questions,
           bracket_from 0 arr = Some (List.length arr) ->
           100 < List.length arr ->
           json_loads arr = Ok (JList questions) ->
           candidate json_loads (arr ++ trail) = Ok questions).
Proof.
  intros s. split; [|split].
  - intros m q qs Hm Hj.
    unfold parse_quiz_questions, parse_quiz_questions_body, code_block.
    rewrite Hm, Hj. reflexivity.
  - intros best Hcb Hloop Hne. split.
    + unfold parse_quiz_questions, parse_quiz_questions_body.
      rewrite Hcb, Hloop. simpl.
      destruct best; [contradiction|reflexivity].
    + destruct (bracket_loop_fold _ _ _ Hloop) as (cands & Hf & Hbest).
      exists cands. split; [exact Hf|].
      destruct (fold_keep_longer cands []) as [[Hb _]|[_ Hfl]].
      * rewrite <- Hbest in Hb. contradiction.
      * rewrite Hbest. exact Hfl.
  - apply candidate_of_array.
Qed.

(** C9. Both entry points return a list on every text and raise nothing;
    the list is empty when every strategy comes back with nothing, and on
    the empty text. *)
Theorem extractors_never_raise :
  (forall ai_response,
      (exists questions,
          parse_quiz_questions json_loads ai_response = Ok questions)
      /\ (exists errors,
             parse_midterm_analysis json_loads ai_response = Ok errors))
  /\ (forall ai_response,
         code_block json_loads ai_response = Ok None ->
         bracket_loop json_loads ai_response [] = Ok [] ->
         fallback_search json_loads ai_response = Ok None ->
         questions_object json_loads ai_response = Ok None ->
         extract_questions_from_broken_json json_loads ai_response = [] ->
         extract_questions_from_text ai_response = [] ->
         parse_quiz_questions json_loads ai_response = Ok [])
  /\ (forall ai_response,
         match find_json_str ai_response with
         | Some json_str => from_json_str json_loads json_str = Ok None
         | None => True
         end ->
         error_text_groups ai_response = [] ->
         parse_midterm_analysis json_loads ai_response = Ok [])
  /\ parse_quiz_questions json_loads [] = Ok []
  /\ parse_midterm_analysis json_loads [] = Ok [].
Proof.
  split; [|split; [|split; [|split]]].
  - intros s. split.
    + unfold parse_quiz_questions.
      destruct (parse_quiz_questions_body _ s); eauto.
    + unfold parse_midterm_analysis.
      destruct (parse_midterm_analysis_body _ s); eauto.
  - intros s H1 H2 H3 H4 H5 H6.
    unfold parse_quiz_questions, parse_quiz_questions_body.
    rewrite H1, H2, H3, H4, H5, H6. reflexivity.
  - intros s Hj Hg.
    unfold parse_midterm_analysis, parse_midterm_analysis_body.
    rewrite Hg. destruct (find_json_str s); [rewrite Hj|]; reflexivity.
  - reflexivity.
  - reflexivity.
Qed.

End ExtractorFacts.

Lemma extractor_returns_first_longest_witness :
  exists questions,
    py_json_loads short_quiz_array = Ok (JList questions)
    /\ List.length questions = 2
    /\ parse_quiz_questions py_json_loads short_quiz = Ok questions
    /\ parse_quiz_questions py_json_loads fenced_quiz
       = Ok [fenced_question].
Proof.
  eexists. split; [vm_compute; reflexivity|]. split; [reflexivity|]. split.
  - apply (extractor_returns_first_longest py_json_loads
             short_quiz).
    + vm_compute. reflexivity.
    + vm_compute. reflexivity.
    + discriminate.
  - eapply (proj1 (extractor_returns_first_longest py_json_loads
                     fenced_quiz)).
    + vm_compute. reflexivity.
    + vm_compute. reflexivity.
Defined.

(** C5 (as stated) fails: the text holds a valid, complete array of one
    record, and the extractor returns the three options of that record
    instead, because the options list is itself a bracket span of more than
    100 characters with more elements than the array. *)
Lemma extractor_claim_counterexample :
  (exists question, py_json_loads planet_array = Ok (JList [question]))
  /\ parse_quiz_questions py_json_loads planet_quiz
     = Ok planet_options.
Proof.
  split; [eexists; vm_compute; reflexivity|].
  vm_compute. reflexivity.
Qed.

Lemma extractors_never_raise_witness :
  parse_quiz_questions py_json_loads (lit "[[[ {'text': ") = Ok []
  /\ parse_midterm_analysis py_json_loads (lit "no records here") = Ok [].
Proof.
  destruct (extractors_never_raise py_json_loads)
    as (_ & Hquiz & Herrors & _ & _).
  split; [apply Hquiz; reflexivity|].
  apply Herrors; reflexivity.
Defined.

(** An exception inside the body, here the [TypeError] of comparing the
    string ["5"] with [0], ends in the empty list. *)
Example type_error_is_swallowed :
  parse_midterm_analysis_body py_json_loads
    (lit "[{'question': 1, 'marksReceived': 1, 'totalMarks': '5'}]")
  = Raise TypeError
  /\ parse_midterm_analysis py_json_loads
       (lit "[{'question': 1, 'marksReceived': 1, 'totalMarks': '5'}]")
     = Ok [].
Proof. split; vm_compute; reflexivity. Qed.

(** The end-to-end scenario of the fenced block. *)
Example fenced_block_scenario :
  parse_quiz_questions py_json_loads fenced_quiz
  = Ok [fenced_question].
Proof. vm_compute. reflexivity. Qed.

(** A text cut off inside its third record, through the entry point: the
    fallback search hands the salvage scanner the text up to the last
    closing bracket, which lies inside the second record, so only the first
    record comes back. *)
Example truncated_quiz_scenario :
  parse_quiz_questions py_json_loads
    (lit "Here: [" ++ records_text [first_record; second_record] ++ cut_tail)
  = Ok (records_from 0 [rec_dict first_record]).
Proof. vm_compute. reflexivity. Qed.

(** When decoding fails, [parse_midterm_analysis] returns what the
    error-object scanner finds as it is: these records do not go through the
    normalization loop and carry no correctness field. *)
Example salvaged_errors_are_returned_raw :
  parse_midterm_analysis py_json_loads (lit "[{'question': 1} {'question': 2}]")
  = Ok [ JDict [(chars "question", JNum 1)];
         JDict [(chars "question", JNum 2)] ].
Proof. vm_compute. reflexivity. Qed.

(* ================================================================== *)
(** ** Order of the records *)

Section SourceFacts.

Variable json_loads : text -> result json.
Variable first_topic : text.

























End SourceFacts.


(* ================================================================== *)
(** ** The token budget *)

Section BudgetFacts.

(** X1.  Whatever [max_tokens] the caller passes, [generate_response]
    sends a value between 2048 and 8192 (the nearest one in that range),
    and a thinking budget between 1024 and 2048 tokens, which is above the
    minimum of 512 and at most half of the tokens sent. *)
Theorem token_budget_bounds :
  forall max_tokens : Z,
    clamp_max_tokens max_tokens = Z.max 2048 (Z.min 8192 max_tokens)
    /\ (2048 <= clamp_max_tokens max_tokens <= 8192)%Z
    /\ (min_thinking_tokens < 1024 <= max_thinking_tokens max_tokens)%Z
    /\ (max_thinking_tokens max_tokens <= 2048)%Z
    /\ (2 * max_thinking_tokens max_tokens
        <= clamp_max_tokens max_tokens)%Z.
Proof.
  intros max_tokens.
  assert (Hc : clamp_max_tokens max_tokens
               = Z.max 2048 (Z.min 8192 max_tokens)).
  { unfold clamp_max_tokens.
    destruct (Z.ltb_spec max_tokens 2048);
      [ destruct (Z.ltb_spec 8192 2048) | destruct (Z.ltb_spec 8192 max_tokens) ];
      lia. }
  split; [exact Hc|].
  unfold max_thinking_tokens, min_thinking_tokens. rewrite Hc.
  set (sent := Z.max 2048 (Z.min 8192 max_tokens)).
  assert (Hs : (2048 <= sent <= 8192)%Z) by (unfold sent; lia).
  assert (Hd : (1024 <= sent / 2)%Z) by (apply Z.div_le_lower_bound; lia).
  assert (Hh : (2 * (sent / 2) <= sent)%Z)
    by (apply Z.mul_div_le; lia).
  repeat split; lia.
Qed.

End BudgetFacts.

(* ================================================================== *)
(** ** The spans the scanners cut out *)

Section SpanFacts.

Lemma firstn_snoc_prefix (body : text) c rest :
  firstn (S (List.length body)) (body ++ c :: rest) = body ++ [c].
Proof.
  induction body as [|a body IH]; [reflexivity|].
  cbn [List.length app firstn]. f_equal. exact IH.
Qed.

Lemma bracket_from_balance s :
  forall count n,
    bracket_from count s = Some n ->
    (exists body rest, s = body ++ "]"%char :: rest
                       /\ n = S (List.length body))
    /\ (count + Z.of_nat (occurrences "["%char (firstn n s))
        = Z.of_nat (occurrences "]"%char (firstn n s)))%Z.
Proof.
  induction s as [|c rest IH]; intros count n H; [discriminate|].
  cbn [bracket_from] in H. unfold bracket_char in H.
  unfold occurrences in *.
  destruct (Ascii.eqb c "["%char) eqn:Eo.
  - destruct (bracket_from (count + 1) rest) as [m|] eqn:Em; [|discriminate].
    injection H as <-. destruct (IH _ _ Em) as ((body & tl & Hs & Hm) & Hc).
    apply Ascii.eqb_eq in Eo. subst c. split.
    + exists ("["%char :: body), tl. rewrite Hs, Hm. split; reflexivity.
    + cbn [firstn filter]. cbn [Ascii.eqb Bool.eqb andb List.length].
      lia.
  - destruct (Ascii.eqb c "]"%char) eqn:Ec.
    + apply Ascii.eqb_eq in Ec. subst c.
      destruct (count - 1 =? 0)%Z eqn:Ez.
      * injection H as <-. apply Z.eqb_eq in Ez. split.
        -- exists [], rest. split; reflexivity.
        -- cbn. lia.
      * destruct (bracket_from (count - 1) rest) as [m|] eqn:Em;
          [|discriminate].
        injection H as <-.
        destruct (IH _ _ Em) as ((body & tl & Hs & Hm) & Hc). split.
        -- exists ("]"%char :: body), tl. rewrite Hs, Hm.
           split; reflexivity.
        -- cbn [firstn filter]. cbn [Ascii.eqb Bool.eqb andb List.length].
           lia.
    + destruct (bracket_from count rest) as [m|] eqn:Em; [|discriminate].
      injection H as <-.
      destruct (IH _ _ Em) as ((body & tl & Hs & Hm) & Hc). split.
      * exists (c :: body), tl. rewrite Hs, Hm. split; reflexivity.
      * cbn [firstn filter].
        rewrite (Ascii.eqb_sym "["%char c), (Ascii.eqb_sym "]"%char c), Eo, Ec.
        exact Hc.
Qed.

(** X2.  The text the bracket scanner of [parse_quiz_questions] cuts out
    is a prefix of what it was given, ends with a closing bracket and holds
    as many opening brackets as closing ones. *)
Theorem bracket_span_balanced :
  forall s t,
    array_span s = Some t ->
    (exists body rest, t = body ++ ["]"%char] /\ s = t ++ rest)
    /\ occurrences "["%char t = occurrences "]"%char t.
Proof.
  intros s t H. unfold array_span in H.
  destruct (bracket_from 0 s) as [n|] eqn:E; [|discriminate].
  injection H as <-.
  destruct (bracket_from_balance _ _ _ E) as ((body & rest & Hs & Hn) & Hc).
  split; [|lia].
  exists body, rest. subst n.
  assert (Hf : firstn (S (List.length body)) s = body ++ ["]"%char]).
  { rewrite Hs. apply firstn_snoc_prefix. }
  rewrite Hf. split; [reflexivity|].
  rewrite Hs at 1. rewrite <- app_assoc. reflexivity.
Qed.

Lemma bracket_span_balanced_witness :
  array_span (lit "[[1, 2], [3]] and more")
  = Some (lit "[[1, 2], [3]]")
  /\ occurrences "["%char (lit "[[1, 2], [3]]")
     = occurrences "]"%char (lit "[[1, 2], [3]]").
Proof.
  split; [reflexivity|].
  exact (proj2 (bracket_span_balanced (lit "[[1, 2], [3]] and more")
                  (lit "[[1, 2], [3]]") eq_refl)).
Defined.

Lemma scan_from_closing s :
  forall st n,
    scan_from st s = Some n ->
    exists body rest st',
      s = body ++ "}"%char :: rest
      /\ n = S (List.length body)
      /\ scan_chars st body = Continue st'
      /\ brace_count st' = 1%Z
      /\ in_string st' = false
      /\ escape_next st' = false.
Proof.
  induction s as [|c rest IH]; intros st n H; [discriminate|].
  cbn [scan_from] in H.
  destruct (scan_char st c) as [st1|] eqn:Ec.
  - destruct (scan_from st1 rest) as [m|] eqn:Em; [|discriminate].
    injection H as <-.
    destruct (IH _ _ Em) as (body & tl & st' & Hs & Hm & Hb & H1 & H2 & H3).
    exists (c :: body), tl, st'. rewrite Hs, Hm.
    cbn [scan_chars]. rewrite Ec.
    repeat split; assumption.
  - injection H as <-.
    unfold scan_char in Ec.
    destruct (escape_next st) eqn:Ee; [discriminate|].
    destruct (Ascii.eqb c backslash); [discriminate|].
    destruct (Ascii.eqb c dquote); [discriminate|].
    destruct (in_string st) eqn:Ei; cbn [negb] in Ec; [discriminate|].
    destruct (Ascii.eqb c "{"%char); [discriminate|].
    destruct (Ascii.eqb c "}"%char) eqn:Eb; [|discriminate].
    destruct (brace_count st - 1 =? 0)%Z eqn:Ez; [|discriminate].
    apply Ascii.eqb_eq in Eb. subst c. apply Z.eqb_eq in Ez.
    exists [], rest, st. cbn [scan_chars app List.length].
    repeat split; try assumption; lia.
Qed.

(** X3.  The span the object scanner of
    [_extract_questions_from_broken_json] cuts out is a prefix of what it
    was given and ends with a closing brace; when that brace is read the
    scanner is outside every string literal, at depth one, and the loop has
    not stopped before. *)
Theorem object_span_closes :
  forall s t,
    object_span s = Some t ->
    exists body rest st,
      t = body ++ ["}"%char]
      /\ s = t ++ rest
      /\ scan_chars scan_init body = Continue st
      /\ brace_count st = 1%Z
      /\ in_string st = false
      /\ escape_next st = false.
Proof.
  intros s t H. unfold object_span in H.
  destruct (scan_from scan_init s) as [n|] eqn:E; [|discriminate].
  injection H as <-.
  destruct (scan_from_closing _ _ _ E)
    as (body & rest & st & Hs & Hn & Hb & H1 & H2 & H3).
  exists body, rest, st. subst n.
  assert (Hf : firstn (S (List.length body)) s = body ++ ["}"%char]).
  { rewrite Hs. apply firstn_snoc_prefix. }
  rewrite Hf. repeat split; try assumption.
  rewrite Hs at 1. rewrite <- app_assoc. reflexivity.
Qed.

Lemma object_span_closes_witness :
  object_span (lit "{'a': {'b': '}'}} tail") = Some (lit "{'a': {'b': '}'}}")
  /\ exists body rest st,
       lit "{'a': {'b': '}'}}" = body ++ ["}"%char]
       /\ lit "{'a': {'b': '}'}} tail" = lit "{'a': {'b': '}'}}" ++ rest
       /\ scan_chars scan_init body = Continue st
       /\ brace_count st = 1%Z
       /\ in_string st = false
       /\ escape_next st = false.
Proof.
  split; [reflexivity|].
  exact (object_span_closes (lit "{'a': {'b': '}'}} tail")
           (lit "{'a': {'b': '}'}}") eq_refl).
Defined.

End SpanFacts.

(* ================================================================== *)
(** ** What the repair pass keeps and removes *)

Section RepairBounds.

Lemma subsequence_refl s : subsequence s s.
Proof. induction s; constructor; assumption. Qed.

Lemma subsequence_trans a b c :
  subsequence a b -> subsequence b c -> subsequence a c.
Proof.
  intros Hab Hbc. revert a Hab.
  induction Hbc as [|x b c Hbc IH|x b c Hbc IH]; intros a Hab.
  - exact Hab.
  - inversion Hab; subst.
    + apply sub_keep, IH. assumption.
    + apply sub_drop, IH. assumption.
  - apply sub_drop, IH, Hab.
Qed.

Lemma subsequence_length a b : subsequence a b -> List.length a <= List.length b.
Proof. induction 1; cbn [List.length]; lia. Qed.

Lemma remove_trailing_commas_deletes s :
  subsequence (remove_trailing_commas s) s
  /\ occurrences newline (remove_trailing_commas s) = occurrences newline s.
Proof.
  unfold occurrences.
  induction s as [|c rest [IH1 IH2]]; [split; [constructor|reflexivity]|].
  cbn [remove_trailing_commas].
  destruct (Ascii.eqb c ","%char) eqn:Ec; cbn [andb].
  - apply Ascii.eqb_eq in Ec. subst c.
    destruct (closer_ahead rest).
    + split; [apply sub_drop, IH1|]. cbn [filter].
      change (Ascii.eqb newline ","%char) with false. cbv iota. exact IH2.
    + split; [apply sub_keep, IH1|]. cbn [filter].
      change (Ascii.eqb newline ","%char) with false. cbv iota. exact IH2.
  - split; [apply sub_keep, IH1|]. cbn [filter].
    destruct (Ascii.eqb newline c); cbn [List.length]; rewrite IH2;
      reflexivity.
Qed.

Lemma strip_line_comments_deletes s :
  forall in_comment,
    subsequence (strip_line_comments in_comment s) s
    /\ occurrences newline (strip_line_comments in_comment s)
       = occurrences newline s.
Proof.
  unfold occurrences.
  induction s as [|c rest IH]; intros in_comment;
    [split; [constructor|reflexivity]|].
  cbn [strip_line_comments]. destruct in_comment.
  - destruct (Ascii.eqb c newline) eqn:Ec.
    + destruct (IH false) as [IH1 IH2].
      split; [apply sub_keep, IH1|]. cbn [filter].
      destruct (Ascii.eqb newline c); cbn [List.length]; rewrite IH2;
        reflexivity.
    + destruct (IH true) as [IH1 IH2].
      split; [apply sub_drop, IH1|]. cbn [filter].
      rewrite (Ascii.eqb_sym newline c), Ec. exact IH2.
  - destruct rest as [|d rest'].
    + split; [apply subsequence_refl|reflexivity].
    + destruct (Ascii.eqb c "/"%char && Ascii.eqb d "/"%char) eqn:E.
      * destruct (IH true) as [IH1 IH2].
        split; [apply sub_drop, IH1|].
        apply andb_true_iff in E as [Ec _]. apply Ascii.eqb_eq in Ec.
        subst c. cbn [filter] in *.
        change (Ascii.eqb newline "/"%char) with false. cbv iota.
        exact IH2.
      * destruct (IH false) as [IH1 IH2].
        split; [apply sub_keep, IH1|]. cbn [filter] in *.
        destruct (Ascii.eqb newline c); cbn [List.length]; rewrite IH2;
          reflexivity.
Qed.

(** X4.  [_fix_json] only deletes: its result is the text it was given
    with some characters left out, so it is never longer; every line feed
    is kept as it is, the substitution meant to escape line feeds changing
    nothing. *)
Theorem fix_json_only_deletes :
  forall s,
    subsequence (fix_json s) s
    /\ List.length (fix_json s) <= List.length s
    /\ occurrences newline (fix_json s) = occurrences newline s
    /\ fix_json s = strip_line_comments false (remove_trailing_commas s).
Proof.
  intros s.
  assert (E : fix_json s
              = strip_line_comments false (remove_trailing_commas s)).
  { unfold fix_json. rewrite sub_unescaped_newlines_id. reflexivity. }
  assert (Hsub : subsequence (fix_json s) s).
  { rewrite E.
    apply subsequence_trans with (b := remove_trailing_commas s).
    - apply strip_line_comments_deletes.
    - apply remove_trailing_commas_deletes. }
  split; [exact Hsub|].
  split; [apply subsequence_length, Hsub|].
  split; [|exact E].
  rewrite E.
  rewrite (proj2 (strip_line_comments_deletes _ false)).
  apply remove_trailing_commas_deletes.
Qed.

Lemma strip_line_comments_slashes s :
  forall in_comment,
    has_double_slash (strip_line_comments in_comment s) = false
    /\ (head_is_slash (strip_line_comments in_comment s) = true ->
        in_comment = false
        /\ exists r, s = "/"%char :: r /\ head_is_slash r = false).
Proof.
  induction s as [|c rest IH]; intros in_comment.
  - split; [reflexivity|discriminate].
  - cbn [strip_line_comments]. destruct in_comment.
    + destruct (Ascii.eqb c newline) eqn:Ec.
      * apply Ascii.eqb_eq in Ec. subst c.
        rewrite double_slash_cons.
        change (Ascii.eqb newline "/"%char) with false. cbn [andb orb].
        split; [apply (IH false)|].
        cbn [head_is_slash].
        change (Ascii.eqb newline "/"%char) with false. discriminate.
      * destruct (IH true) as [IH1 IH2]. split; [exact IH1|].
        intros H. destruct (IH2 H) as [Hb _]. discriminate.
    + destruct rest as [|d rest'].
      * split; [reflexivity|]. cbn [head_is_slash]. intros H.
        split; [reflexivity|]. apply Ascii.eqb_eq in H. subst c.
        exists []. split; reflexivity.
      * destruct (Ascii.eqb c "/"%char && Ascii.eqb d "/"%char) eqn:E.
        -- destruct (IH true) as [IH1 IH2]. split; [exact IH1|].
           intros H. destruct (IH2 H) as [Hb _]. discriminate.
        -- destruct (IH false) as [IH1 IH2].
           rewrite double_slash_cons, IH1, orb_false_r.
           split.
           ++ destruct (Ascii.eqb c "/"%char) eqn:Ec; [|reflexivity].
              cbn [andb] in *.
              destruct (head_is_slash (strip_line_comments false (d :: rest')))
                eqn:Eh; [|reflexivity].
              destruct (IH2 eq_refl) as [_ (r & Hr & _)].
              injection Hr as -> _. discriminate.
           ++ cbn [head_is_slash]. intros Hc. split; [reflexivity|].
              rewrite Hc in E. cbn [andb] in E.
              apply Ascii.eqb_eq in Hc. subst c.
              exists (d :: rest'). split; [reflexivity|exact E].
Qed.

(** X5.  Whatever the text, the result of [_fix_json] holds no two
    slashes in a row: everything from a [//] to the end of its line is
    gone, also where the slashes stand inside a string literal, as in a
    URL. *)
Theorem fix_json_leaves_no_comment :
  forall s, has_double_slash (fix_json s) = false.
Proof.
  intros s. unfold fix_json. apply strip_line_comments_slashes.
Qed.

End RepairBounds.

Section RepairClass.

Lemma remove_trailing_commas_shrinks s :
  has_trailing_comma s = true ->
  List.length (remove_trailing_commas s) < List.length s.
Proof.
  induction s as [|c rest IH]; [discriminate|].
  cbn [has_trailing_comma remove_trailing_commas].
  pose proof (subsequence_length _ _
                (proj1 (remove_trailing_commas_deletes rest))) as Hle.
  destruct (Ascii.eqb c ","%char && closer_ahead rest); cbn [orb].
  - intros _. cbn [List.length]. lia.
  - intros H. cbn [List.length]. specialize (IH H). lia.
Qed.

Lemma strip_line_comments_shrinks s :
  has_double_slash s = true ->
  forall in_comment,
    List.length (strip_line_comments in_comment s) < List.length s.
Proof.
  induction s as [|c rest IH]; [discriminate|].
  rewrite double_slash_cons. intros H in_comment.
  cbn [strip_line_comments]. destruct in_comment.
  - destruct (Ascii.eqb c newline) eqn:Ec.
    + apply Ascii.eqb_eq in Ec. subst c.
      change (Ascii.eqb newline "/"%char) with false in H. cbn [andb orb] in H.
      cbn [List.length]. specialize (IH H false). lia.
    + pose proof (subsequence_length _ _
                    (proj1 (strip_line_comments_deletes rest true))) as Hle.
      cbn [List.length]. lia.
  - destruct rest as [|d rest'];
      [cbn in H; rewrite andb_false_r in H; discriminate|].
    cbn [head_is_slash] in H.
    destruct (Ascii.eqb c "/"%char && Ascii.eqb d "/"%char); cbn [orb] in H.
    + pose proof (subsequence_length _ _
                    (proj1 (strip_line_comments_deletes (d :: rest') true)))
        as Hle.
      cbn [List.length] in *. lia.
    + specialize (IH H false). cbn [List.length] in *. lia.
Qed.

Lemma fix_json_pipeline s :
  fix_json s = strip_line_comments false (remove_trailing_commas s).
Proof. unfold fix_json. rewrite sub_unescaped_newlines_id. reflexivity. Qed.

Lemma fix_json_fixed_point s :
  fix_json s = s
  <-> has_double_slash s = false /\ has_trailing_comma s = false.
Proof.
  split.
  - intros E.
    pose proof (subsequence_length _ _
                  (proj1 (remove_trailing_commas_deletes s))) as Hr.
    pose proof (subsequence_length _ _
                  (proj1 (strip_line_comments_deletes
                            (remove_trailing_commas s) false))) as Hs.
    rewrite <- fix_json_pipeline, E in Hs.
    destruct (has_trailing_comma s) eqn:Et.
    { apply remove_trailing_commas_shrinks in Et. lia. }
    split; [|reflexivity].
    rewrite fix_json_pipeline, (remove_trailing_commas_clean s Et) in E.
    destruct (has_double_slash s) eqn:Ed; [|reflexivity].
    pose proof (strip_line_comments_shrinks s Ed false) as Hlt.
    rewrite E in Hlt. lia.
  - intros [Hd Ht]. rewrite (fix_json_no_comment s Hd).
    apply remove_trailing_commas_clean, Ht.
Qed.

(** C3 (amended).  For every text, running the repair pass on its own
    result only removes commas, and the second run gives what the first
    gave exactly when the first result holds no comma followed, after white
    space only, by a closing brace or bracket.  That is so for every text
    with no two slashes in a row and no two commas, separated by white
    space only, in front of a closer.  The pass leaves a text as it is
    exactly when the text holds no two slashes in a row and no comma in
    front of a closer. *)
Theorem fix_json_idempotent_iff :
  forall s,
    fix_json (fix_json s) = remove_trailing_commas (fix_json s)
    /\ (fix_json (fix_json s) = fix_json s
        <-> has_trailing_comma (fix_json s) = false)
    /\ (has_double_slash s = false ->
        has_double_trailing_comma s = false ->
        fix_json (fix_json s) = fix_json s)
    /\ (fix_json s = s
        <-> has_double_slash s = false /\ has_trailing_comma s = false).
Proof.
  intros s.
  assert (Hd : has_double_slash (fix_json s) = false)
    by (unfold fix_json; apply strip_line_comments_slashes).
  split; [apply fix_json_no_comment, Hd|].
  split.
  { rewrite fix_json_fixed_point. split; [intros [_ H]; exact H|].
    intros H. split; [exact Hd|exact H]. }
  split; [|apply fix_json_fixed_point].
  intros Hs Hc.
  rewrite (fix_json_no_comment s Hs).
  rewrite fix_json_no_comment by (apply no_double_slash_after_removal, Hs).
  apply remove_trailing_commas_twice, Hc.
Qed.

Lemma fix_json_idempotent_iff_witness :
  fix_json (fix_json (lit "[{'a': 1, }, ]")) = fix_json (lit "[{'a': 1, }, ]")
  /\ fix_json (fix_json (lit "{'a': 1 // one|}"))
     = fix_json (lit "{'a': 1 // one|}")
  /\ fix_json (lit "[{'a': 1}]") = lit "[{'a': 1}]".
Proof.
  split; [|split].
  - destruct (fix_json_idempotent_iff (lit "[{'a': 1, }, ]"))
      as (_ & _ & H & _).
    apply H; reflexivity.
  - destruct (fix_json_idempotent_iff (lit "{'a': 1 // one|}"))
      as (_ & H & _).
    apply H. reflexivity.
  - destruct (fix_json_idempotent_iff (lit "[{'a': 1}]")) as (_ & _ & _ & H).
    apply H. split; reflexivity.
Defined.

End RepairClass.

(* ================================================================== *)
(** ** The records the salvage passes return *)

Section SalvageShape.

Variable json_loads : text -> result json.

Lemma str_nat_nonempty n : truthy (JStr (str_nat n)) = true.
Proof.
  unfold str_nat.
  destruct (Nat.to_uint n) eqn:E; try reflexivity.
  exfalso. destruct n as [|n]; [discriminate|].
  pose proof (Unsigned.of_to (S n)) as H. rewrite E in H. discriminate.
Qed.

Lemma default_field_sets d k v :
  truthy v = true -> truthy (get (default_field d k v) k) = true.
Proof.
  intros Hv. unfold default_field.
  destruct (truthy (get d k)) eqn:E; [exact E|].
  unfold get. rewrite lookup_set_same. exact Hv.
Qed.

Lemma default_field_other d k v k' :
  text_eqb k' k = false -> lookup k' (default_field d k v) = lookup k' d.
Proof.
  intros Hk. unfold default_field.
  destruct (truthy (get d k)); [reflexivity|].
  apply lookup_set_other, Hk.
Qed.

Lemma default_field_keeps d k v k' :
  truthy (get d k') = true -> get (default_field d k v) k' = get d k'.
Proof.
  intros H. unfold default_field.
  destruct (truthy (get d k)) eqn:E; [reflexivity|].
  destruct (text_eqb k' k) eqn:Ek.
  - apply text_eqb_eq in Ek. subst k'. congruence.
  - unfold get. rewrite lookup_set_other by exact Ek. reflexivity.
Qed.

Lemma default_field_same d k v :
  truthy (get d k) = true -> default_field d k v = d.
Proof. intros H. unfold default_field. rewrite H. reflexivity. Qed.

Lemma fill_defaults_keeps i d k :
  truthy (get d k) = true -> get (fill_defaults i d) k = get d k.
Proof.
  intros H. unfold fill_defaults.
  set (d1 := default_field d (chars "id") (JStr (str_nat i))).
  set (d2 := default_field d1 (chars "correctAnswer") (JStr (chars "a"))).
  set (d3 := default_field d2 (chars "explanation")
               (JStr (chars "Generated question"))).
  assert (E1 : get d1 k = get d k) by apply default_field_keeps, H.
  assert (E2 : get d2 k = get d k).
  { unfold d2. rewrite default_field_keeps; [exact E1|]. rewrite E1. exact H. }
  assert (E3 : get d3 k = get d k).
  { unfold d3. rewrite default_field_keeps; [exact E2|]. rewrite E2. exact H. }
  rewrite default_field_keeps; [exact E3|]. rewrite E3. exact H.
Qed.

Lemma fill_defaults_fields i d :
  truthy (get (fill_defaults i d) (chars "id")) = true
  /\ truthy (get (fill_defaults i d) (chars "correctAnswer")) = true
  /\ truthy (get (fill_defaults i d) (chars "explanation")) = true
  /\ truthy (get (fill_defaults i d) (chars "topic")) = true.
Proof.
  unfold fill_defaults.
  set (d1 := default_field d (chars "id") (JStr (str_nat i))).
  set (d2 := default_field d1 (chars "correctAnswer") (JStr (chars "a"))).
  set (d3 := default_field d2 (chars "explanation")
               (JStr (chars "Generated question"))).
  assert (H1 : truthy (get d1 (chars "id")) = true)
    by apply default_field_sets, str_nat_nonempty.
  assert (H2 : truthy (get d2 (chars "correctAnswer")) = true)
    by (apply default_field_sets; reflexivity).
  assert (H3 : truthy (get d3 (chars "explanation")) = true)
    by (apply default_field_sets; reflexivity).
  assert (H12 : truthy (get d2 (chars "id")) = true)
    by (unfold d2; rewrite default_field_keeps; assumption).
  assert (H13 : truthy (get d3 (chars "id")) = true)
    by (unfold d3; rewrite default_field_keeps; assumption).
  assert (H23 : truthy (get d3 (chars "correctAnswer")) = true)
    by (unfold d3; rewrite default_field_keeps; assumption).
  repeat split.
  - rewrite default_field_keeps; assumption.
  - rewrite default_field_keeps; assumption.
  - rewrite default_field_keeps; assumption.
  - apply default_field_sets. reflexivity.
Qed.

Lemma fill_defaults_other i d k :
  text_eqb k (chars "id") = false ->
  text_eqb k (chars "correctAnswer") = false ->
  text_eqb k (chars "explanation") = false ->
  text_eqb k (chars "topic") = false ->
  lookup k (fill_defaults i d) = lookup k d.
Proof.
  intros H1 H2 H3 H4. unfold fill_defaults.
  rewrite !default_field_other by assumption. reflexivity.
Qed.

(** X6.  Filling in the defaults is settled after one pass: a second
    pass, with any number for the id, changes nothing, and a field that
    already holds a non-empty value keeps it. *)
Theorem fill_defaults_settles :
  forall (i j : nat) (d : dict),
    fill_defaults j (fill_defaults i d) = fill_defaults i d
    /\ forall k,
         truthy (get d k) = true -> get (fill_defaults i d) k = get d k.
Proof.
  intros i j d. split; [|intros k; apply fill_defaults_keeps].
  destruct (fill_defaults_fields i d) as (H1 & H2 & H3 & H4).
  unfold fill_defaults at 1.
  rewrite (default_field_same _ (chars "id")) by exact H1.
  rewrite (default_field_same _ (chars "correctAnswer")) by exact H2.
  rewrite (default_field_same _ (chars "explanation")) by exact H3.
  apply default_field_same, H4.
Qed.

Lemma fill_defaults_settles_witness :
  get (fill_defaults 3 [(chars "topic", JStr (chars "Graphs"))])
      (chars "topic")
  = JStr (chars "Graphs").
Proof.
  exact (proj2 (fill_defaults_settles 3 0
                  [(chars "topic", JStr (chars "Graphs"))])
           (chars "topic") eq_refl).
Defined.

Lemma filled_has_fields i d :
  has_key (chars "text") d = true ->
  has_key (chars "options") d = true ->
  has_required_fields (JDict (fill_defaults i d)) = true.
Proof.
  intros Ht Ho. unfold has_required_fields, has_key in *.
  rewrite !fill_defaults_other by reflexivity.
  destruct (fill_defaults_fields i d) as (H1 & H2 & H3 & H4).
  rewrite Ht, Ho, H1, H2, H3, H4. reflexivity.
Qed.

Lemma question_shaped_keys obj d :
  question_shaped obj = Some d ->
  obj = JDict d
  /\ has_key (chars "text") d = true
  /\ has_key (chars "options") d = true.
Proof.
  unfold question_shaped. destruct obj as [| | | | | |d0]; try discriminate.
  destruct (has_key (chars "text") d0) eqn:Ht; [|discriminate].
  destruct (has_key (chars "options") d0) eqn:Ho; [|discriminate].
  cbn [andb].
  destruct (get d0 (chars "options")) as [| | | | |l|]; try discriminate.
  destruct (2 <=? List.length l); [|discriminate].
  intros H. injection H as <-. repeat split; assumption.
Qed.

Lemma question_shaped_filled i obj d :
  question_shaped obj = Some d ->
  question_shaped (JDict (fill_defaults i d)) = Some (fill_defaults i d).
Proof.
  intros H. destruct (question_shaped_keys _ _ H) as (-> & Ht & Ho).
  unfold question_shaped, has_key, get in *.
  rewrite !fill_defaults_other by reflexivity.
  destruct (lookup (chars "text") d); [|discriminate].
  destruct (lookup (chars "options") d) as [[| | | | |l|]|]; try discriminate.
  cbn [andb] in *.
  destruct (2 <=? List.length l); [reflexivity|discriminate].
Qed.

Lemma process_span_kept acc t :
  Forall kept_record acc -> Forall kept_record (process_span json_loads acc t).
Proof.
  intros Hacc. unfold process_span.
  destruct (json_loads t) as [obj|]; [|exact Hacc].
  destruct (question_shaped obj) as [d|] eqn:E; [|exact Hacc].
  apply Forall_app. split; [exact Hacc|].
  constructor; [|constructor].
  destruct (question_shaped_keys _ _ E) as (_ & Ht & Ho). split.
  - apply filled_has_fields; assumption.
  - eexists. eapply question_shaped_filled, E.
Qed.

Lemma balanced_loop_kept s :
  forall skip acc,
    Forall kept_record acc ->
    Forall kept_record (balanced_loop json_loads skip s acc).
Proof.
  induction s as [|c rest IH]; intros skip acc Hacc; [exact Hacc|].
  cbn [balanced_loop]. destruct skip as [|k]; [|apply IH, Hacc].
  destruct (Ascii.eqb c "{"%char); [|apply IH, Hacc].
  destruct (scan_from scan_init (c :: rest)); [|apply IH, Hacc].
  apply IH, process_span_kept, Hacc.
Qed.

Lemma complete_partial_fields i t r :
  complete_partial json_loads i t = Some r -> has_required_fields r = true.
Proof.
  unfold complete_partial.
  destruct (negb (ends_with_brace t)); [|discriminate].
  destruct (search options_pattern t) as [m|]; [|discriminate].
  destruct (json_loads _) as [[| | | | | |d]|]; try discriminate.
  destruct (has_key (chars "text") d) eqn:Ht; [|discriminate].
  destruct (has_key (chars "options") d) eqn:Ho; [|discriminate].
  cbn [andb]. intros H. injection H as <-.
  apply filled_has_fields; assumption.
Qed.

Lemma regex_loop_fields matches :
  forall i,
    Forall (fun r => has_required_fields r = true)
      (regex_loop json_loads i matches).
Proof.
  induction matches as [|m rest IH]; intros i; [constructor|].
  cbn [regex_loop].
  destruct (complete_partial json_loads i (m_text m)) as [r|] eqn:E;
    [|apply IH].
  constructor; [eapply complete_partial_fields, E|apply IH].
Qed.

(** X7.  Every record [_extract_questions_from_broken_json] returns, by
    either of its passes and whatever the decoder answers, is a dict that
    has the keys [text] and [options] and non-empty values under [id],
    [correctAnswer], [explanation] and [topic]; a record of the first pass
    has, besides, a list of two options or more. *)
Theorem salvaged_records_have_fields :
  forall json_str,
    Forall (fun r => has_required_fields r = true)
      (extract_questions_from_broken_json json_loads json_str)
    /\ Forall (fun r => exists d, question_shaped r = Some d)
         (balanced_pass json_loads json_str).
Proof.
  intros json_str.
  assert (Hb : Forall kept_record (balanced_pass json_loads json_str))
    by (apply balanced_loop_kept; constructor).
  split.
  - unfold extract_questions_from_broken_json.
    destruct (balanced_pass json_loads json_str) as [|q qs] eqn:E.
    + apply regex_loop_fields.
    + eapply Forall_impl; [|exact Hb]. intros r [H _]. exact H.
  - eapply Forall_impl; [|exact Hb]. intros r [_ H]. exact H.
Qed.

End SalvageShape.

(* ================================================================== *)
(** ** The records of the text fallback *)

Section TextFallback.

Lemma text_questions_loop_shape groups :
  forall i,
    Forall placeholder_record (text_questions_loop i groups)
    /\ List.length (text_questions_loop i groups) <= List.length groups.
Proof.
  induction groups as [|g rest IH]; intros i; cbn [text_questions_loop].
  - split; [constructor|apply Nat.le_refl].
  - destruct (IH (S i)) as [IH1 IH2].
    destruct (20 <? List.length (strip g)) eqn:E.
    + split; [|cbn [List.length]; lia].
      constructor; [|exact IH1].
      eexists _, (firstn 200 (strip g)).
      split; [reflexivity|]. split; [reflexivity|].
      split; [|repeat split; reflexivity].
      rewrite length_firstn. apply Nat.ltb_lt in E. lia.
    + split; [exact IH1|]. cbn [List.length]. lia.
Qed.

(** X8.  Every question [_extract_questions_from_text] makes out of
    prose is a placeholder: its text is a passage of 21 to 200 characters,
    its options are the four dummy options A to D, and its correct answer
    is always [a]; there is at most one such question per heading
    found. *)
Theorem text_fallback_gives_placeholders :
  forall t,
    Forall placeholder_record (extract_questions_from_text t)
    /\ List.length (extract_questions_from_text t)
       <= List.length (question_text_groups t).
Proof.
  intros t. unfold extract_questions_from_text.
  apply text_questions_loop_shape.
Qed.

End TextFallback.

(* ================================================================== *)
(** ** The normalized records and the statistics read from them *)

Section MidtermFacts.

Lemma derive_correctness_canonical e c :
  derive_correctness e = Ok c -> In c canonical_correctness.
Proof.
  unfold derive_correctness.
  destruct (recognize (correctness_of e)) as [w|] eqn:E.
  - intros H. injection H as <-. eapply recognize_canonical, E.
  - apply from_marks_canonical.
Qed.

Lemma normalize_error_shape error d :
  normalize_error error = Ok d -> normalized_record (JDict d).
Proof.
  unfold normalize_error. destruct error as [| | | | | |e]; try discriminate.
  destruct (derive_correctness e) as [c|] eqn:E; [|discriminate].
  cbn [bind]. intros H. injection H as <-.
  eexists. exists c. split; [reflexivity|]. split; [reflexivity|].
  split; [reflexivity|]. eapply derive_correctness_canonical, E.
Qed.

Lemma normalize_errors_records :
  forall errors normalized_errors,
    normalize_errors errors = Ok normalized_errors ->
    List.length normalized_errors = List.length errors
    /\ Forall normalized_record normalized_errors.
Proof.
  induction errors as [|error rest IH]; intros out H.
  - injection H as <-. split; [reflexivity|constructor].
  - cbn [normalize_errors] in H.
    destruct (normalize_error error) as [d|] eqn:Ed; [|discriminate].
    destruct (normalize_errors rest) as [out'|] eqn:Er; [|discriminate].
    cbn [bind] in H. injection H as <-.
    destruct (IH _ eq_refl) as [IH1 IH2]. split.
    + cbn [List.length]. rewrite IH1. reflexivity.
    + constructor; [eapply normalize_error_shape, Ed|exact IH2].
Qed.

(** X9.  When the normalization loop of [parse_midterm_analysis] goes
    through, it returns one record per input record, each with exactly the
    eight keys of the response format, in their fixed order, and a
    correctness that is one of the three canonical words. *)
Theorem normalized_records_shape :
  forall errors normalized_errors,
    normalize_errors errors = Ok normalized_errors ->
    List.length normalized_errors = List.length errors
    /\ Forall normalized_record normalized_errors.
Proof. exact normalize_errors_records. Qed.

Lemma normalized_records_shape_witness :
  List.length [JDict (sample_error 3)] = 1
  /\ exists c,
       normalize_errors [JDict (sample_error 3)]
       = Ok [ JDict [ (chars "question", JNum 4);
                      (chars "yourAnswer", JStr []);
                      (chars "correctAnswer", JStr []);
                      (chars "topic", JStr (chars "Unknown"));
                      (chars "feedback", JStr []);
                      (chars "marksReceived", JNum 3);
                      (chars "totalMarks", JNum 5);
                      (chars "correctness", JStr c) ] ]
       /\ In c canonical_correctness.
Proof.
  split; [reflexivity|].
  exists (chars "partially_correct"). split; [reflexivity|].
  pose proof (proj2 (normalized_records_shape [JDict (sample_error 3)] _
                       eq_refl)) as H.
  inversion H as [|r l (d & c & Hr & _ & Hc & Hin) _]; subst.
  injection Hr as <-. injection Hc as <-. exact Hin.
Defined.

Lemma normalized_label r :
  normalized_record r ->
  exists d c,
    r = JDict d
    /\ In c canonical_correctness
    /\ correctness_label r = Ok c
    /\ truthy (get d (chars "correctness")) = true.
Proof.
  intros (d & c & -> & _ & Hc & Hin). exists d, c.
  split; [reflexivity|]. split; [exact Hin|].
  unfold correctness_label, get_default. unfold get in Hc.
  destruct (lookup (chars "correctness") d) as [v|] eqn:El;
    [|discriminate].
  subst v. unfold get. rewrite El.
  destruct Hin as [<-|[<-|[<-|[]]]]; split; reflexivity.
Qed.

Lemma counts_of_normalized qs :
  Forall normalized_record qs ->
  exists errors nc ni np,
    errors_only qs = Ok errors
    /\ count_if (label_in [chars "correct"]) qs = Ok nc
    /\ count_if (label_in [chars "incorrect"]) qs = Ok ni
    /\ count_if (label_in partial_labels) qs = Ok np
    /\ count_if is_unknown qs = Ok 0
    /\ nc + ni + np = List.length qs
    /\ List.length errors = ni + np.
Proof.
  induction 1 as [|r qs Hr _ IH].
  - exists [], 0, 0, 0. repeat split; reflexivity.
  - destruct IH as (errors & nc & ni & np & He & Hc & Hi & Hp & Hu & Hsum & Hlen).
    destruct (normalized_label _ Hr) as (d & c & -> & Hin & Hl & Ht).
    assert (Hstep : forall ws n,
               count_if (label_in ws) qs = Ok n ->
               count_if (label_in ws) (JDict d :: qs)
               = Ok (if member c ws then S n else n)).
    { intros ws n Hn. cbn [count_if]. unfold label_in at 1.
      rewrite Hl, Hn. reflexivity. }
    assert (Hunk : count_if is_unknown (JDict d :: qs)
                   = Ok (if negb (member c known_labels) then 1 else 0)).
    { cbn [count_if]. unfold is_unknown at 1. rewrite Ht. cbn [negb].
      unfold label_in. rewrite Hl, Hu. reflexivity. }
    assert (Herr : errors_only (JDict d :: qs)
                   = Ok (if member c [chars "correct"] then errors
                         else JDict d :: errors)).
    { cbn [errors_only]. unfold label_in. rewrite Hl, He. reflexivity. }
    rewrite Herr, Hunk, (Hstep _ _ Hc), (Hstep _ _ Hi), (Hstep _ _ Hp).
    destruct Hin as [<-|[<-|[<-|[]]]].
    + exists errors, (S nc), ni, np.
      repeat split; try reflexivity; cbn [List.length]; lia.
    + exists (JDict d :: errors), nc, (S ni), np.
      repeat split; try reflexivity; cbn [List.length]; lia.
    + exists (JDict d :: errors), nc, ni, (S np).
      repeat split; try reflexivity; cbn [List.length]; lia.
Qed.

(** X10.  For the questions that come out of the normalization loop, the
    statistics of a midterm add up: [analyze_midterm] keeps as errors
    exactly the questions that are not correct, [save_midterm_analysis]
    counts every question as correct, wrong or partially correct, the three
    counts sum to the number of questions, the number of errors is the sum
    of the last two, and no question falls under [unknown] in the
    breakdown. *)
Theorem midterm_counts_add_up :
  forall raw all_questions,
    normalize_errors raw = Ok all_questions ->
    exists errors st,
      errors_only all_questions = Ok errors
      /\ midterm_stats errors all_questions = Ok st
      /\ total_questions st = List.length raw
      /\ correct_count st + wrong_count st + partially_correct_count st
         = total_questions st
      /\ total_errors st = wrong_count st + partially_correct_count st
      /\ count_if is_unknown all_questions = Ok 0.
Proof.
  intros raw qs H.
  destruct (normalize_errors_records _ _ H) as [Hlen Hall].
  destruct (counts_of_normalized _ Hall)
    as (errors & nc & ni & np & He & Hc & Hi & Hp & Hu & Hsum & Hel).
  exists errors.
  destruct qs as [|q qs'].
  - cbn in He. injection He as <-.
    exists (mk_stats 0 0 0 0 0).
    repeat split; try reflexivity. cbn [total_questions]. exact Hlen.
  - exists (mk_stats (List.length errors) (List.length (q :: qs')) nc ni np).
    split; [exact He|]. split.
    + unfold midterm_stats. cbn [truthy]. rewrite Hc, Hi, Hp. reflexivity.
    + cbn [total_questions correct_count wrong_count
             partially_correct_count total_errors].
      repeat split; assumption.
Qed.

Lemma midterm_counts_add_up_witness :
  exists errors st,
    errors_only
      [ JDict [ (chars "question", JNum 4);
                (chars "yourAnswer", JStr []);
                (chars "correctAnswer", JStr []);
                (chars "topic", JStr (chars "Unknown"));
                (chars "feedback", JStr []);
                (chars "marksReceived", JNum 5);
                (chars "totalMarks", JNum 5);
                (chars "correctness", JStr (chars "correct")) ] ]
    = Ok errors
    /\ midterm_stats errors
         [ JDict [ (chars "question", JNum 4);
                   (chars "yourAnswer", JStr []);
                   (chars "correctAnswer", JStr []);
                   (chars "topic", JStr (chars "Unknown"));
                   (chars "feedback", JStr []);
                   (chars "marksReceived", JNum 5);
                   (chars "totalMarks", JNum 5);
                   (chars "correctness", JStr (chars "correct")) ] ]
       = Ok st
    /\ total_questions st = 1
    /\ correct_count st + wrong_count st + partially_correct_count st = 1
    /\ total_errors st = wrong_count st + partially_correct_count st.
Proof.
  destruct (midterm_counts_add_up [JDict (sample_error 5)] _ eq_refl)
    as (errors & st & H1 & H2 & H3 & H4 & H5 & _).
  exists errors, st. rewrite H3 in H4.
  repeat split; assumption.
Defined.

End MidtermFacts.

(* ================================================================== *)
(** ** White space at the ends of a text *)

Section StripFacts.

Lemma drop_while_split p s : exists sp, s = sp ++ drop_while p s.
Proof.
  induction s as [|c rest [sp IH]]; [exists []; reflexivity|].
  cbn [drop_while]. destruct (p c).
  - exists (c :: sp). cbn [app]. f_equal. exact IH.
  - exists []. reflexivity.
Qed.

Lemma drop_while_head p s c r : drop_while p s = c :: r -> p c = false.
Proof.
  induction s as [|a rest IH]; [discriminate|].
  cbn [drop_while]. destruct (p a) eqn:E; [exact IH|].
  intros H. injection H as <- _. exact E.
Qed.

Lemma drop_while_idem p s :
  drop_while p (drop_while p s) = drop_while p s.
Proof.
  destruct (drop_while p s) as [|c r] eqn:E; [reflexivity|].
  cbn [drop_while]. rewrite (drop_while_head _ _ _ _ E). reflexivity.
Qed.

Lemma drop_while_in p s c : In c (drop_while p s) -> In c s.
Proof.
  destruct (drop_while_split p s) as [sp E]. intros H.
  rewrite E. apply in_or_app. right. exact H.
Qed.

Lemma strip_in s c : In c (strip s) -> In c s.
Proof.
  unfold strip. intros H.
  apply in_rev, drop_while_in, in_rev, drop_while_in in H. exact H.
Qed.

(** The head of a stripped text, if any, is not white space. *)
Lemma strip_head s : drop_while is_space (strip s) = strip s.
Proof.
  unfold strip.
  set (A := drop_while is_space s).
  destruct (drop_while_split is_space (rev A)) as [sp E].
  set (R := drop_while is_space (rev A)) in *.
  assert (HA : A = rev R ++ rev sp).
  { rewrite <- (rev_involutive A), E, rev_app_distr. reflexivity. }
  destruct (rev R) as [|c t] eqn:ER; [reflexivity|].
  cbn [drop_while].
  assert (Hc : is_space c = false).
  { apply (drop_while_head is_space s c (t ++ rev sp)).
    fold A. rewrite HA. reflexivity. }
  rewrite Hc. reflexivity.
Qed.

Lemma strip_idempotent s : strip (strip s) = strip s.
Proof.
  unfold strip at 1. rewrite strip_head.
  unfold strip. rewrite rev_involutive, drop_while_idem. reflexivity.
Qed.

End StripFacts.

(* ================================================================== *)
(** ** The questions the validator keeps *)

Section ValidatorShape.

Variable first_topic : text.

Lemma py_or_truthy a b : truthy b = true -> truthy (py_or a b) = true.
Proof.
  intros H. unfold py_or. destruct (truthy a) eqn:E; assumption.
Qed.

Lemma default_id_nonempty n : truthy (JStr (default_id n)) = true.
Proof.
  unfold default_id. destruct (n <? 26); [reflexivity|].
  apply str_nat_nonempty.
Qed.

Lemma add_option_identified valid opt :
  Forall identified valid -> Forall identified (add_option valid opt).
Proof.
  intros H. unfold add_option.
  destruct opt as [| | | |t| |o]; try assumption.
  - apply Forall_app. split; [assumption|].
    constructor; [|constructor]. eexists _, _. split; [reflexivity|].
    apply default_id_nonempty.
  - destruct (has_key (chars "text") o || has_key (chars "id") o);
      [|assumption].
    apply Forall_app. split; [assumption|].
    constructor; [|constructor]. eexists _, _. split; [reflexivity|].
    destruct (truthy (get o (chars "id"))) eqn:E; [exact E|].
    apply default_id_nonempty.
Qed.

Lemma collect_options_identified items :
  Forall identified (collect_options items).
Proof.
  unfold collect_options.
  assert (H : forall valid, Forall identified valid ->
                            Forall identified (fold_left add_option items valid)).
  { induction items as [|opt items IH]; intros valid Hv; cbn [fold_left].
    - exact Hv.
    - apply IH, add_option_identified, Hv. }
  apply H. constructor.
Qed.

Lemma validate_question_kept count q v :
  validate_question first_topic count q = Ok (Some v) ->
  exists d t items,
    q = JDict d
    /\ v = [ (chars "id",
              py_or (get d (chars "id")) (JStr (str_nat (count + 1))));
             (chars "text", JStr (strip t));
             (chars "options", JList (map JDict (collect_options items)));
             (chars "correctAnswer",
              py_or (py_or (get d (chars "correctAnswer"))
                           (get d (chars "correct_answer")))
                    (first_option_id (collect_options items)));
             (chars "explanation",
              py_or (get d (chars "explanation")) (JStr []));
             (chars "topic",
              py_or (get d (chars "topic")) (JStr first_topic)) ]
    /\ 10 <= List.length (strip t)
    /\ 2 <= List.length (collect_options items).
Proof.
  unfold validate_question. destruct q as [| | | | | |d]; try discriminate.
  destruct (negb (truthy _)); [discriminate|].
  destruct (py_or _ _) as [| | | |t| |]; try discriminate.
  destruct (List.length (strip t) <? 10) eqn:Ht; [discriminate|].
  destruct (negb (truthy _)).
  { destruct (py_len _); discriminate. }
  destruct (py_len _) as [n|]; [|discriminate]. simpl.
  destruct (n <? 2); [discriminate|].
  destruct (py_iter _) as [items|]; [|discriminate]. simpl.
  destruct (List.length (collect_options items) <? 2) eqn:Hlen;
    [discriminate|].
  intros H. inversion H. exists d, t, items.
  apply Nat.ltb_ge in Hlen, Ht. repeat split; assumption.
Qed.

Lemma validate_question_presentable count q v :
  first_topic <> [] ->
  validate_question first_topic count q = Ok (Some v) ->
  presentable v
  /\ exists t, get v (chars "text") = JStr t /\ strip t = t.
Proof.
  intros Hft H.
  destruct (validate_question_kept _ _ _ H)
    as (d & t & items & -> & -> & Ht & Ho).
  pose proof (collect_options_identified items) as Hid.
  split; [|exists (strip t); split; [reflexivity|apply strip_idempotent]].
  unfold presentable.
  split; [reflexivity|].
  split; [exists (strip t); split; [reflexivity|exact Ht]|].
  split.
  { exists (map JDict (collect_options items)).
    split; [reflexivity|]. split; [rewrite length_map; exact Ho|].
    apply Forall_map. eapply Forall_impl; [|exact Hid].
    intros o (i & x & -> & Hi). exists i, x. split; [reflexivity|exact Hi]. }
  split; [apply py_or_truthy, str_nat_nonempty|].
  split.
  - apply py_or_truthy.
    destruct (collect_options items) as [|o rest]; [cbn in Ho; lia|].
    inversion Hid as [|? ? (i & x & -> & Hi) _]; subst. exact Hi.
  - apply py_or_truthy. destruct first_topic; [contradiction|reflexivity].
Qed.

Lemma validate_loop_presentable parsed :
  first_topic <> [] ->
  forall acc out,
    validate_loop first_topic acc parsed = Ok out ->
    Forall presentable acc ->
    Forall (fun q => exists t, get q (chars "text") = JStr t /\ strip t = t)
      acc ->
    Forall presentable out
    /\ Forall (fun q => exists t, get q (chars "text") = JStr t
                                  /\ strip t = t) out
    /\ List.length out <= List.length acc + List.length parsed.
Proof.
  intros Hft. induction parsed as [|q rest IH]; intros acc out H Ha Hs.
  - injection H as <-. cbn [List.length]. repeat split; try assumption. lia.
  - cbn [validate_loop] in H.
    destruct (validate_question first_topic (List.length acc) q)
      as [[v|]|] eqn:Eq; [| |discriminate]; cbn [bind] in H.
    + destruct (validate_question_presentable _ _ _ Hft Eq) as [Hp Ht].
      destruct (IH _ _ H) as (H1 & H2 & H3).
      * apply Forall_app. split; [exact Ha|]. constructor; [exact Hp|].
        constructor.
      * apply Forall_app. split; [exact Hs|]. constructor; [exact Ht|].
        constructor.
      * repeat split; try assumption.
        rewrite length_app in H3. cbn [List.length] in *. lia.
    + destruct (IH _ _ H Ha Hs) as (H1 & H2 & H3).
      repeat split; try assumption. cbn [List.length]. lia.
Qed.

(** X11.  When the validation loop of [generate_quiz_from_errors] goes
    through, every question it keeps can be shown: it has exactly the six
    keys of a quiz question, a text of ten characters or more with no white
    space at either end, two options or more that each have an id and a
    text field with a non-empty id, and a non-empty id, correct answer and
    topic.  No question is added: the list is at most as long as the one
    parsed. *)
Theorem validated_questions_presentable :
  forall parsed_questions validated_questions,
    first_topic <> [] ->
    validate_questions first_topic parsed_questions
    = Ok validated_questions ->
    Forall presentable validated_questions
    /\ Forall (fun q => exists t, get q (chars "text") = JStr t
                                  /\ strip t = t) validated_questions
    /\ List.length validated_questions <= List.length parsed_questions.
Proof.
  intros parsed out Hft H.
  destruct (validate_loop_presentable parsed Hft [] out H
              (Forall_nil _) (Forall_nil _))
    as (H1 & H2 & H3).
  repeat split; assumption.
Qed.

Lemma validate_loop_raises parsed :
  forall acc q,
    In q parsed -> is_dict q = false ->
    exists e, validate_loop first_topic acc parsed = Raise e.
Proof.
  induction parsed as [|p rest IH]; intros acc q Hin Hq; [contradiction|].
  cbn [validate_loop].
  destruct Hin as [->|Hin].
  - exists AttributeError.
    destruct q; try reflexivity. discriminate.
  - destruct (validate_question first_topic (List.length acc) p)
      as [[v|]|e]; cbn [bind].
    + eapply IH; eassumption.
    + eapply IH; eassumption.
    + exists e. reflexivity.
Qed.

Lemma fold_add_option_strings ts :
  forall valid,
    List.length valid + List.length ts <= 26 ->
    fold_left add_option (map JStr ts) valid
    = valid
      ++ map (fun it => option_record (JStr (chr97 (fst it))) (JStr (snd it)))
           (combine (seq (List.length valid) (List.length ts)) ts).
Proof.
  induction ts as [|t rest IH]; intros valid H.
  - cbn. rewrite app_nil_r. reflexivity.
  - cbn [map fold_left add_option List.length seq combine fst snd].
    cbn [List.length] in H.
    rewrite IH by (rewrite length_app; cbn [List.length]; lia).
    rewrite length_app. cbn [List.length].
    rewrite <- app_assoc. cbn [app].
    unfold default_id.
    replace (List.length valid <? 26) with true
      by (symmetry; apply Nat.ltb_lt; lia).
    replace (List.length valid + 1) with (S (List.length valid)) by lia.
    reflexivity.
Qed.

(** X12.  Options given as plain strings, 26 at most, come out of the
    validator lettered in order: the n-th string becomes the option whose
    id is the n-th lower-case letter and whose text is the string itself,
    also when the string is empty. *)
Theorem string_options_are_lettered :
  forall ts,
    List.length ts <= 26 ->
    collect_options (map JStr ts)
    = map (fun it => option_record (JStr (chr97 (fst it))) (JStr (snd it)))
        (combine (seq 0 (List.length ts)) ts).
Proof.
  intros ts H. unfold collect_options.
  rewrite fold_add_option_strings by (cbn [List.length]; lia).
  reflexivity.
Qed.

Lemma string_options_are_lettered_witness :
  collect_options [JStr (chars "3"); JStr (chars "4"); JStr []]
  = [ option_record (JStr (chars "a")) (JStr (chars "3"));
      option_record (JStr (chars "b")) (JStr (chars "4"));
      option_record (JStr (chars "c")) (JStr []) ].
Proof.
  apply (string_options_are_lettered [chars "3"; chars "4"; []]).
  cbn. lia.
Defined.

End ValidatorShape.

Lemma validated_questions_presentable_witness :
  exists v,
    validate_questions (chars "Algebra") [JDict (sample_question (JStr []))]
    = Ok [v]
    /\ presentable v.
Proof.
  eexists. split; [reflexivity|].
  assert (Hft : chars "Algebra" <> []) by discriminate.
  destruct (validated_questions_presentable (chars "Algebra")
              [JDict (sample_question (JStr []))] _ Hft eq_refl)
    as (H & _ & _).
  inversion H; subst. assumption.
Defined.

(* ================================================================== *)
(** ** What the randomizer writes and what it leaves alone *)

Section RandomizerShape.

Lemma relabel_ids l :
  forall ids l',
    relabel ids l = Ok l' ->
    map (fun opt => match opt with
                    | JDict o => get o (chars "id")
                    | _ => JNull
                    end) l'
    = map JStr (firstn (List.length l) ids).
Proof.
  induction l as [|opt rest IH]; intros ids l' H.
  - injection H as <-. reflexivity.
  - cbn [relabel] in H. destruct ids as [|new_id ids]; [discriminate|].
    destruct opt as [| | | | | |o]; try discriminate.
    destruct (relabel ids rest) as [rest'|] eqn:E; [|discriminate].
    cbn [bind] in H. injection H as <-.
    cbn [map List.length firstn]. f_equal.
    + unfold get. rewrite lookup_set_same. reflexivity.
    + apply IH, E.
Qed.

(** X13.  Whenever the randomizer changes a question, the options it
    leaves carry the first letters of a, b, c, d, e, f as ids, in that
    order and one per option, there are as many options as before, and the
    new correct answer is one of these ids; in every other case the question
    is returned as it was. *)
Theorem randomized_ids_are_canonical :
  forall (shuffle : list json -> list json) (question question' : dict),
    (forall l, Permutation l (shuffle l)) ->
    randomize_question shuffle question = Ok question' ->
    question' = question
    \/ (option_ids_of question'
        = map JStr (firstn (List.length (option_texts question))
                      canonical_ids)
        /\ List.length (option_texts question')
           = List.length (option_texts question)
        /\ In (get question' (chars "correctAnswer"))
              (option_ids_of question')).
Proof.
  intros shuffle question question' Hperm H.
  destruct (randomize_question_cases _ _ _ H)
    as [->|(options & idx & relabelled & new_correct
            & Ho & Hidx & Hrel & Hnth & ->)];
    [left; reflexivity|right].
  assert (Hlen : List.length (shuffle options) = List.length options)
    by (symmetry; apply Permutation_length, Hperm).
  assert (Hids : option_ids_of
                   (set (set question (chars "correctAnswer")
                           (JStr new_correct))
                      (chars "options") (JList relabelled))
                 = map JStr (firstn (List.length options) canonical_ids)).
  { unfold option_ids_of. rewrite lookup_set_same.
    rewrite (relabel_ids _ _ _ Hrel), firstn_firstn, Nat.min_id, Hlen.
    reflexivity. }
  unfold option_texts. rewrite Ho, lookup_set_same, !length_map.
  split; [exact Hids|]. split.
  - rewrite (relabel_length _ _ _ Hrel). exact Hlen.
  - rewrite Hids. unfold get.
    rewrite lookup_set_other by reflexivity. rewrite lookup_set_same.
    apply in_map. rewrite <- Hlen. eapply nth_error_In, Hnth.
Qed.

Lemma randomized_ids_are_canonical_witness :
  exists question',
    randomize_question (@rev json)
      (make_question [make_option "x" "one"; make_option "y" "two";
                      make_option "z" "three"] "y")
    = Ok question'
    /\ option_ids_of question'
       = [JStr (chars "a"); JStr (chars "b"); JStr (chars "c")]
    /\ get question' (chars "correctAnswer") = JStr (chars "b").
Proof.
  eexists. split; [reflexivity|].
  destruct (randomized_ids_are_canonical (@rev json)
              (make_question [make_option "x" "one"; make_option "y" "two";
                              make_option "z" "three"] "y")
              _ (@Permutation_rev json) eq_refl)
    as [H|(H & _ & _)].
  - discriminate H.
  - split; [exact H|reflexivity].
Defined.

Lemma randomize_from_length shuffle questions :
  forall k questions',
    randomize_from shuffle k questions = Ok questions' ->
    List.length questions' = List.length questions.
Proof.
  induction questions as [|q rest IH]; intros k out H.
  - injection H as <-. reflexivity.
  - cbn [randomize_from] in H.
    destruct (randomize_question (shuffle k) q) as [q'|]; [|discriminate].
    destruct (randomize_from shuffle (S k) rest) as [rest'|] eqn:E;
      [|discriminate].
    cbn [bind] in H. injection H as <-. cbn [List.length].
    rewrite (IH _ _ E). reflexivity.
Qed.

(** X14.  The randomizer touches two fields only: in a question it
    returns, every key other than [options] and [correctAnswer] holds what
    it held before (or is absent as before), and the list it returns has as
    many questions as the list it was given. *)
Theorem randomizer_keeps_other_fields :
  forall (shuffle : nat -> list json -> list json)
         (questions questions' : list dict),
    randomize_question_options shuffle questions = Ok questions' ->
    List.length questions' = List.length questions
    /\ forall i question question' k,
         nth_error questions i = Some question ->
         nth_error questions' i = Some question' ->
         text_eqb k (chars "options") = false ->
         text_eqb k (chars "correctAnswer") = false ->
         lookup k question' = lookup k question.
Proof.
  intros shuffle questions questions' H.
  split; [eapply randomize_from_length, H|].
  unfold randomize_question_options in H. revert H.
  generalize 0 as n. revert questions'.
  induction questions as [|q rest IH]; intros out n H i question question' k
    Hq Hq' Ko Kc.
  - destruct i; discriminate.
  - cbn [randomize_from] in H.
    destruct (randomize_question (shuffle n) q) as [q'|] eqn:Eq;
      [|discriminate].
    destruct (randomize_from shuffle (S n) rest) as [rest'|] eqn:E;
      [|discriminate].
    cbn [bind] in H. injection H as <-.
    destruct i as [|i]; cbn [nth_error] in Hq, Hq'.
    + injection Hq as <-. injection Hq' as <-.
      destruct (randomize_question_cases _ _ _ Eq)
        as [->|(options & idx & relabelled & new_correct
                & _ & _ & _ & _ & ->)]; [reflexivity|].
      rewrite !lookup_set_other by assumption. reflexivity.
    + eapply IH; eassumption.
Qed.

Lemma randomizer_keeps_other_fields_witness :
  exists question',
    randomize_question_options (fun _ => @rev json)
      [make_question [make_option "x" "one"; make_option "y" "two"] "y"]
    = Ok [question']
    /\ lookup (chars "text") question'
       = Some (JStr (chars "Pick the right one")).
Proof.
  eexists. split; [reflexivity|].
  exact (proj2 (randomizer_keeps_other_fields (fun _ => @rev json)
                  [make_question [make_option "x" "one";
                                  make_option "y" "two"] "y"]
                  _ eq_refl)
           0 _ _ (chars "text") eq_refl eq_refl eq_refl eq_refl).
Defined.

End RandomizerShape.

(* ================================================================== *)
(** ** The topic list and the questions of [generate_quiz_from_errors] *)

Section EndpointFacts.

Variable json_loads : text -> result json.
Variable shuffle : nat -> list json -> list json.

Lemma drop_while_nil p s : drop_while p s = [] <-> forallb p s = true.
Proof.
  induction s as [|c rest IH]; cbn [drop_while forallb]; [tauto|].
  destruct (p c); cbn [andb]; [exact IH|]. split; discriminate.
Qed.

Lemma strip_nil w : strip w = [] <-> forallb is_space w = true.
Proof.
  unfold strip. split.
  - intros H. apply (f_equal (@rev ascii)) in H.
    rewrite rev_involutive in H. cbn [rev] in H.
    apply drop_while_nil in H.
    destruct (drop_while is_space w) as [|c r] eqn:E;
      [apply drop_while_nil, E|].
    exfalso. pose proof (drop_while_head _ _ _ _ E) as Hc.
    rewrite forallb_forall in H.
    rewrite (H c) in Hc; [discriminate|].
    apply in_rev. rewrite rev_involutive. left. reflexivity.
  - intros H. apply drop_while_nil in H. rewrite H. reflexivity.
Qed.

Lemma split_on_no_sep sep s :
  split_on sep s <> []
  /\ Forall (fun w => ~ In sep w) (split_on sep s).
Proof.
  induction s as [|c rest [IH1 IH2]]; cbn [split_on].
  - split; [discriminate|]. constructor; [intros []|constructor].
  - destruct (Ascii.eqb c sep) eqn:E.
    + split; [discriminate|]. constructor; [intros []|exact IH2].
    + destruct (split_on sep rest) as [|w ws]; [contradiction|].
      split; [discriminate|].
      inversion IH2 as [|? ? Hw Hws]; subst.
      constructor; [|exact Hws].
      intros [->|Hin]; [|exact (Hw Hin)].
      rewrite Ascii.eqb_refl in E. discriminate.
Qed.

Lemma split_on_blank sep s :
  forallb (fun c => Ascii.eqb c sep || is_space c) s
  = forallb (forallb is_space) (split_on sep s).
Proof.
  induction s as [|c rest IH]; [reflexivity|].
  cbn [forallb split_on]. rewrite IH.
  destruct (Ascii.eqb c sep); cbn [orb andb forallb]; [reflexivity|].
  destruct (split_on_no_sep sep rest) as [Hne _].
  destruct (split_on sep rest) as [|w ws]; [contradiction|].
  cbn [forallb]. rewrite andb_assoc. reflexivity.
Qed.

Lemma filter_strip_nil l :
  filter nonblank (map strip l) = []
  <-> forallb (forallb is_space) l = true.
Proof.
  induction l as [|w ws IH]; cbn [map filter forallb]; [tauto|].
  destruct (strip w) as [|c r] eqn:E; cbn [nonblank].
  - apply strip_nil in E. rewrite E. cbn [andb]. exact IH.
  - split; [discriminate|]. intros H. apply andb_true_iff in H as [H _].
    apply strip_nil in H. congruence.
Qed.

Lemma topics_list_items error_topics :
  Forall (fun t => t <> [] /\ ~ In ","%char t /\ strip t = t)
    (topics_list error_topics).
Proof.
  unfold topics_list. apply Forall_forall. intros t Ht.
  apply filter_In in Ht as [Ht Hne]. apply in_map_iff in Ht as (w & <- & Hw).
  split; [intros E; rewrite E in Hne; discriminate|].
  split; [|apply strip_idempotent].
  intros Hin. apply strip_in in Hin.
  destruct (split_on_no_sep ","%char error_topics) as [_ Hall].
  rewrite Forall_forall in Hall. exact (Hall _ Hw Hin).
Qed.

(** X15.  The topics [generate_quiz_from_errors] reads out of its
    comma-separated parameter are clean: none is empty, none holds a comma,
    none begins or ends with white space.  The list is empty, and the
    endpoint answers with status 400, exactly when the parameter holds
    nothing but commas and white space. *)
Theorem topics_list_is_clean :
  forall error_topics,
    Forall (fun t => t <> [] /\ ~ In ","%char t /\ strip t = t)
      (topics_list error_topics)
    /\ (topics_list error_topics = []
        <-> forallb (fun c => Ascii.eqb c ","%char || is_space c)
              error_topics = true)
    /\ forall num_questions ai_response,
         quiz_from_errors json_loads shuffle error_topics num_questions
           ai_response = BadRequest
         <-> topics_list error_topics = [].
Proof.
  intros error_topics. split; [|split].
  - apply topics_list_items.
  - unfold topics_list. rewrite split_on_blank. apply filter_strip_nil.
  - intros num_questions ai_response. unfold quiz_from_errors.
    destruct (topics_list error_topics) as [|first_topic rest].
    + split; reflexivity.
    + split; [|discriminate].
      destruct (bind _ _) as [questions|]; [|discriminate].
      unfold json_response. destruct (forallb _ _); discriminate.
Qed.

Lemma fallback_from_presentable topics :
  forall i,
    Forall (fun t => t <> []) topics ->
    Forall presentable (fallback_from i topics).
Proof.
  induction topics as [|topic rest IH]; intros i H; [constructor|].
  inversion H as [|? ? Ht Hrest]; subst.
  cbn [fallback_from]. constructor; [|apply IH, Hrest].
  unfold presentable.
  split; [reflexivity|].
  split.
  { eexists. split; [reflexivity|]. rewrite length_app.
    change (List.length (chars "Test question about ")) with 20. lia. }
  split.
  { eexists. split; [reflexivity|]. split; [cbn; lia|].
    repeat constructor; eexists _, _; split; reflexivity. }
  split; [apply str_nat_nonempty|].
  split; [reflexivity|].
  destruct topic; [contradiction|reflexivity].
Qed.

Lemma forall_firstn {A : Type} (P : A -> Prop) n (l : list A) :
  Forall P l -> Forall P (firstn n l).
Proof.
  intros H. rewrite <- (firstn_skipn n l) in H.
  apply Forall_app in H. apply H.
Qed.

Lemma forall_slice {A : Type} (P : A -> Prop) n (l : list A) :
  Forall P l -> Forall P (py_slice_to n l).
Proof.
  intros H. unfold py_slice_to.
  destruct (0 <=? n)%Z; apply forall_firstn, H.
Qed.

Lemma chain_validated first_topic ai_response questions :
  bind (parse_quiz_questions json_loads ai_response) (fun parsed =>
  bind (randomize_items shuffle 0 parsed) (fun parsed =>
  validate_questions first_topic parsed)) = Ok questions ->
  exists parsed randomized,
    parse_quiz_questions json_loads ai_response = Ok parsed
    /\ randomize_items shuffle 0 parsed = Ok randomized
    /\ validate_questions first_topic randomized = Ok questions.
Proof.
  destruct (parse_quiz_questions json_loads ai_response) as [parsed|];
    [|discriminate].
  cbn [bind].
  destruct (randomize_items shuffle 0 parsed) as [randomized|] eqn:Er;
    [|discriminate].
  cbn [bind]. intros H. exists parsed, randomized.
  split; [reflexivity|]. split; [exact Er|exact H].
Qed.

(** X16.  Whenever [generate_quiz_from_errors] returns a quiz, every
    question in it can be shown, whether it went through the validation loop
    or is a placeholder: the six keys, a text of ten characters or more,
    two options or more each with a non-empty id, and a non-empty id,
    correct answer and topic.  With [num_questions] at least one the quiz
    is never empty; the placeholders stand in when validation leaves
    nothing. *)
Theorem quiz_from_errors_is_presentable :
  forall error_topics num_questions ai_response questions,
    quiz_from_errors json_loads shuffle error_topics num_questions
      ai_response = Returned questions ->
    Forall presentable questions
    /\ ((1 <= num_questions)%Z -> questions <> []).
Proof.
  intros error_topics num_questions ai_response questions.
  unfold quiz_from_errors.
  pose proof (topics_list_items error_topics) as Hclean.
  destruct (topics_list error_topics) as [|first_topic rest] eqn:Et;
    [discriminate|].
  assert (Hne : Forall (fun t : text => t <> []) (first_topic :: rest)).
  { eapply Forall_impl; [|exact Hclean]. intros t (H & _). exact H. }
  assert (Hft : first_topic <> []) by (inversion Hne; assumption).
  destruct (bind _ _) as [validated|] eqn:Echain; [|discriminate].
  unfold json_response. destruct (forallb _ _); [|discriminate].
  intros H. injection H as <-.
  destruct validated as [|q qs]; cbn [or_placeholders].
  - split.
    + apply fallback_from_presentable, forall_slice, Hne.
    + intros Hn. unfold fallback_questions, py_slice_to.
      replace (0 <=? num_questions)%Z with true
        by (symmetry; apply Z.leb_le; lia).
      destruct (Z.to_nat num_questions) as [|n] eqn:En; [lia|].
      cbn [firstn fallback_from]. discriminate.
  - destruct (chain_validated _ _ _ Echain) as (parsed & randomized & _ & _ & Hv).
    split; [|discriminate].
    apply (validate_loop_presentable first_topic randomized Hft [] _ Hv
             (Forall_nil _) (Forall_nil _)).
Qed.

Lemma randomize_items_keep_others questions :
  forall k randomized q,
    randomize_items shuffle k questions = Ok randomized ->
    In q questions -> is_dict q = false ->
    In q randomized.
Proof.
  induction questions as [|p rest IH]; intros k out q H Hin Hq;
    [contradiction|].
  cbn [randomize_items] in H.
  destruct (randomize_item (shuffle k) p) as [p'|] eqn:Ep; [|discriminate].
  destruct (randomize_items shuffle (S k) rest) as [rest'|] eqn:Er;
    [|discriminate].
  cbn [bind] in H. injection H as <-.
  destruct Hin as [->|Hin].
  - left. unfold randomize_item in Ep.
    destruct q as [| | | |s|l|d]; try discriminate.
    + destruct (is_infix _ s); [discriminate|]. injection Ep as <-.
      reflexivity.
    + destruct (existsb _ l); [discriminate|]. injection Ep as <-.
      reflexivity.
  - right. eapply IH; eassumption.
Qed.

(** X17.  If the list [parse_quiz_questions] returns holds anything that
    is not a dict (a string, a number, a list), [generate_quiz_from_errors]
    does not return a quiz: the randomizer or the validation loop raises,
    and the endpoint answers with status 500. *)
Theorem non_dict_question_fails :
  forall error_topics num_questions ai_response parsed q,
    topics_list error_topics <> [] ->
    parse_quiz_questions json_loads ai_response = Ok parsed ->
    In q parsed ->
    is_dict q = false ->
    quiz_from_errors json_loads shuffle error_topics num_questions
      ai_response = ServerError.
Proof.
  intros error_topics num_questions ai_response parsed q Ht Hp Hin Hq.
  unfold quiz_from_errors.
  destruct (topics_list error_topics) as [|first_topic rest];
    [contradiction|].
  rewrite Hp. cbn [bind].
  destruct (randomize_items shuffle 0 parsed) as [randomized|] eqn:Er;
    [|reflexivity].
  cbn [bind].
  destruct (validate_loop_raises first_topic randomized [] q) as [e He];
    [eapply randomize_items_keep_others; eassumption|exact Hq|].
  unfold validate_questions. rewrite He. reflexivity.
Qed.

End EndpointFacts.

Lemma topics_list_is_clean_witness :
  topics_list (chars " Graphs , ,Trees,") = [chars "Graphs"; chars "Trees"]
  /\ Forall (fun t => t <> [] /\ ~ In ","%char t /\ strip t = t)
       (topics_list (chars " Graphs , ,Trees,"))
  /\ quiz_from_errors py_json_loads (fun _ => @rev json) (chars " , ,") 5
       (chars "no answer") = BadRequest.
Proof.
  split; [reflexivity|].
  destruct (topics_list_is_clean py_json_loads (fun _ => @rev json)
              (chars " Graphs , ,Trees,")) as (H & _ & _).
  split; [exact H|].
  destruct (topics_list_is_clean py_json_loads (fun _ => @rev json)
              (chars " , ,")) as (_ & H2 & H3).
  apply H3, H2. reflexivity.
Defined.

Lemma quiz_from_errors_is_presentable_witness :
  exists questions,
    quiz_from_errors py_json_loads (fun _ => @rev json)
      (chars "Graphs, Trees") 2 (chars "no questions here")
    = Returned questions
    /\ List.length questions = 2
    /\ Forall presentable questions
    /\ questions <> [].
Proof.
  eexists. split; [reflexivity|]. split; [reflexivity|].
  destruct (quiz_from_errors_is_presentable py_json_loads
              (fun _ => @rev json) (chars "Graphs, Trees") 2
              (chars "no questions here") _ eq_refl) as [H1 H2].
  split; [exact H1|]. apply H2. lia.
Defined.

Lemma non_dict_question_fails_witness :
  parse_quiz_questions py_json_loads string_list_answer
  = Ok [ JStr (chars "What is the capital of France?");
         JStr (chars "Which planet is the largest in the solar system?");
         JStr (chars "Who wrote the play Hamlet?") ]
  /\ quiz_from_errors py_json_loads (fun _ => @rev json) (chars "Graphs") 10
       string_list_answer = ServerError.
Proof.
  split; [vm_compute; reflexivity|].
  apply (non_dict_question_fails py_json_loads (fun _ => @rev json)
           (chars "Graphs") 10 string_list_answer
           [ JStr (chars "What is the capital of France?");
             JStr (chars "Which planet is the largest in the solar system?");
             JStr (chars "Who wrote the play Hamlet?") ]
           (JStr (chars "What is the capital of France?"))).
  - vm_compute. discriminate.
  - vm_compute. reflexivity.
  - left. reflexivity.
  - reflexivity.
Defined.

(* ================================================================== *)
(** ** Answers that hold no bracket and no brace *)

Section PlainText.

Variable json_loads : text -> result json.

Lemma shift_some k x r : shift k x = Some r -> exists r', x = Some r'.
Proof.
  destruct x as [[n ms]|]; [eexists; reflexivity|discriminate].
Qed.

Lemma greedy_run_tail (p : ascii -> bool) (ps : list piece) :
  forall s r,
    (fix run (s : text) : option (nat * list nat) :=
       match s with
       | [] => None
       | c :: s' =>
           if p c then
             match run s' with
             | Some r => shift 1 (Some r)
             | None => shift 1 (match_pieces ps s')
             end
           else None
       end) s = Some r ->
    exists pre s' r', s = pre ++ s' /\ match_pieces ps s' = Some r'.
Proof.
  induction s as [|c rest IH]; intros r H; [discriminate|].
  destruct (p c); [|discriminate].
  match type of H with
  | match ?x with _ => _ end = _ => destruct x as [r0|] eqn:E
  end.
  - destruct (IH _ eq_refl) as (pre & s' & r' & -> & Hm).
    exists (c :: pre), s', r'. split; [reflexivity|exact Hm].
  - apply shift_some in H as [r' Hr].
    exists [c], rest, r'. split; [reflexivity|exact Hr].
Qed.

Lemma lazy_run_tail (ps : list piece) :
  forall s r,
    (fix lazy (s : text) : option (nat * list nat) :=
       match match_pieces ps s with
       | Some r => Some r
       | None =>
           match s with
           | [] => None
           | _ :: s' => shift 1 (lazy s')
           end
       end) s = Some r ->
    exists pre s' r', s = pre ++ s' /\ match_pieces ps s' = Some r'.
Proof.
  induction s as [|c rest IH]; intros r H.
  - destruct (match_pieces ps []) as [r0|] eqn:E; [|discriminate].
    exists [], [], r0. split; [reflexivity|exact E].
  - destruct (match_pieces ps (c :: rest)) as [r0|] eqn:E.
    + exists [], (c :: rest), r0. split; [reflexivity|exact E].
    + apply shift_some in H as [r' Hr].
      destruct (IH _ Hr) as (pre & s' & r'' & -> & Hm).
      exists (c :: pre), s', r''. split; [reflexivity|exact Hm].
Qed.

Lemma alternatives_tail (ps : list piece) (s : text) :
  forall ts r,
    (fix alternatives (ts : list text) : option (nat * list nat) :=
       match ts with
       | [] => None
       | t :: ts' =>
           match (if starts_with_ci t s
                  then shift (List.length t)
                         (match_pieces ps (skipn (List.length t) s))
                  else None) with
           | Some r => Some r
           | None => alternatives ts'
           end
       end) ts = Some r ->
    exists pre s' r', s = pre ++ s' /\ match_pieces ps s' = Some r'.
Proof.
  induction ts as [|t ts IH]; intros r H; [discriminate|].
  destruct (starts_with_ci t s).
  - destruct (shift (List.length t)
                (match_pieces ps (skipn (List.length t) s))) as [r0|] eqn:E.
    + apply shift_some in E as [r' Hr].
      exists (firstn (List.length t) s), (skipn (List.length t) s), r'.
      split; [symmetry; apply firstn_skipn|exact Hr].
    + apply (IH _ H).
  - apply (IH _ H).
Qed.

(** Whatever piece comes first, the rest of the pattern matches at some
    later point of the text; a literal piece stands at the head of the
    text. *)
Lemma match_tail p ps s r :
  match_pieces (p :: ps) s = Some r ->
  exists pre s' r',
    s = pre ++ s'
    /\ match_pieces ps s' = Some r'
    /\ forall t, p = PLit t -> pre = t.
Proof.
  intros H.
  assert (Hweak : (exists pre s' r',
                      s = pre ++ s' /\ match_pieces ps s' = Some r') ->
                  (forall t, p <> PLit t) ->
                  exists pre s' r',
                    s = pre ++ s'
                    /\ match_pieces ps s' = Some r'
                    /\ forall t, p = PLit t -> pre = t).
  { intros (pre & s' & r' & Hs & Hm) Hp. exists pre, s', r'.
    split; [exact Hs|]. split; [exact Hm|].
    intros t Ht. destruct (Hp t Ht). }
  destruct p as [t|t|ts|t|p|p|c| | |look|]; cbn [match_pieces] in H.
  - destruct (starts_with t s) eqn:E; [|discriminate].
    apply shift_some in H as [r' Hr].
    exists t, (skipn (List.length t) s), r'.
    split; [apply starts_with_split, E|]. split; [exact Hr|].
    intros t' Ht. injection Ht as <-. reflexivity.
  - apply Hweak; [|discriminate].
    destruct (starts_with_ci t s); [|discriminate].
    apply shift_some in H as [r' Hr].
    exists (firstn (List.length t) s), (skipn (List.length t) s), r'.
    split; [symmetry; apply firstn_skipn|exact Hr].
  - apply Hweak; [|discriminate]. eapply alternatives_tail, H.
  - apply Hweak; [|discriminate].
    destruct (starts_with t s) eqn:E.
    + destruct (shift (List.length t)
                  (match_pieces ps (skipn (List.length t) s)))
        as [r0|] eqn:Es.
      * apply shift_some in Es as [r' Hr].
        exists t, (skipn (List.length t) s), r'.
        split; [apply starts_with_split, E|exact Hr].
      * exists [], s, r. split; [reflexivity|exact H].
    + exists [], s, r. split; [reflexivity|exact H].
  - apply Hweak; [|discriminate].
    match type of H with
    | match ?x with _ => _ end = _ => destruct x as [r0|] eqn:E
    end.
    + eapply greedy_run_tail, E.
    + exists [], s, r. split; [reflexivity|exact H].
  - apply Hweak; [|discriminate]. eapply greedy_run_tail, H.
  - apply Hweak; [|discriminate].
    destruct (index_of c s) as [i|]; [|discriminate].
    apply shift_some in H as [r' Hr].
    exists (firstn (S i) s), (skipn (S i) s), r'.
    split; [symmetry; apply firstn_skipn|exact Hr].
  - apply Hweak; [|discriminate].
    destruct s as [|c rest]; [discriminate|].
    apply shift_some in H as [r' Hr].
    exists [c], rest, r'. split; [reflexivity|exact Hr].
  - apply Hweak; [|discriminate]. eapply lazy_run_tail, H.
  - apply Hweak; [|discriminate].
    destruct (look s); [|discriminate].
    exists [], s, r. split; [reflexivity|exact H].
  - apply Hweak; [|discriminate].
    destruct (match_pieces ps s) as [[n ms]|] eqn:E; [|discriminate].
    exists [], s, (n, ms). split; [reflexivity|exact E].
Qed.

Lemma match_needs c :
  forall ps s r,
    needs c ps = true -> match_pieces ps s = Some r -> In c s.
Proof.
  induction ps as [|p ps IH]; intros s r Hn Hm; [discriminate|].
  destruct (match_tail _ _ _ _ Hm) as (pre & s' & r' & -> & Hm' & Hlit).
  unfold needs in Hn. cbn [existsb] in Hn.
  apply orb_true_iff in Hn as [Hp|Hps].
  - destruct p as [t| | | | | | | | | |]; try discriminate.
    rewrite (Hlit t eq_refl). apply in_or_app. left.
    apply existsb_exists in Hp as (x & Hx & Hcx).
    apply Ascii.eqb_eq in Hcx. subst x. exact Hx.
  - apply in_or_app. right. eapply IH; eassumption.
Qed.

Lemma lacks_not_in c s : lacks c s = true -> ~ In c s.
Proof.
  unfold lacks. intros H Hin. rewrite forallb_forall in H.
  specialize (H _ Hin). rewrite Ascii.eqb_refl in H. discriminate.
Qed.

Lemma lacks_tail c d s : lacks c (d :: s) = true -> lacks c s = true.
Proof.
  unfold lacks. cbn [forallb]. intros H.
  apply andb_true_iff in H. apply H.
Qed.

Lemma match_lacking c ps s :
  needs c ps = true -> lacks c s = true -> match_pieces ps s = None.
Proof.
  intros Hn Hl. destruct (match_pieces ps s) as [r|] eqn:E; [|reflexivity].
  destruct (lacks_not_in _ _ Hl (match_needs _ _ _ _ Hn E)).
Qed.

Lemma search_lacking c ps s :
  needs c ps = true -> lacks c s = true -> search ps s = None.
Proof.
  intros Hn. induction s as [|d rest IH]; intros Hl.
  - cbn [search]. rewrite (match_lacking c) by assumption. reflexivity.
  - cbn [search]. rewrite (match_lacking c) by assumption.
    rewrite IH by (eapply lacks_tail, Hl). reflexivity.
Qed.

Lemma search_either_lacking c c' p q s :
  needs c p = true -> needs c' q = true ->
  lacks c s = true -> lacks c' s = true ->
  search_either p q s = None.
Proof.
  intros Hp Hq. induction s as [|d rest IH]; intros Hl Hl'.
  - cbn [search_either]. rewrite (match_lacking c), (match_lacking c')
      by assumption.
    reflexivity.
  - cbn [search_either]. rewrite (match_lacking c), (match_lacking c')
      by assumption.
    apply IH; eapply lacks_tail; eassumption.
Qed.

Lemma finditer_lacking c ps s :
  needs c ps = true -> lacks c s = true -> finditer ps s = [].
Proof.
  intros Hn Hl. unfold finditer.
  destruct (finditer_from ps 0 0 s) as [|m ms] eqn:E; [reflexivity|].
  destruct (finditer_from_in ps 0 0 s m) as (pre & suffix & n & marks
                                            & Hs & Hm & _).
  { rewrite E. left. reflexivity. }
  exfalso. apply (lacks_not_in _ _ Hl). rewrite Hs.
  apply in_or_app. right. eapply match_needs; eassumption.
Qed.

Lemma bracket_loop_lacking s :
  forall best,
    lacks "["%char s = true -> bracket_loop json_loads s best = Ok best.
Proof.
  induction s as [|c rest IH]; intros best Hl; [reflexivity|].
  cbn [bracket_loop].
  assert (Hc : Ascii.eqb c "["%char = false).
  { unfold lacks in Hl. cbn [forallb] in Hl.
    apply andb_true_iff in Hl as [Hc _].
    rewrite Ascii.eqb_sym. apply negb_true_iff, Hc. }
  rewrite Hc. apply IH. eapply lacks_tail, Hl.
Qed.

Lemma search_long_array_lacking s :
  lacks "["%char s = true -> search_long_array s = None.
Proof.
  induction s as [|c rest IH]; intros Hl; [reflexivity|].
  cbn [search_long_array].
  assert (Hc : Ascii.eqb c "["%char = false).
  { unfold lacks in Hl. cbn [forallb] in Hl.
    apply andb_true_iff in Hl as [Hc _].
    rewrite Ascii.eqb_sym. apply negb_true_iff, Hc. }
  rewrite Hc. apply IH. eapply lacks_tail, Hl.
Qed.

Lemma salvage_lacking s :
  lacks "{"%char s = true ->
  extract_questions_from_broken_json json_loads s = [].
Proof.
  intros Hl. unfold extract_questions_from_broken_json.
  assert (Hb : balanced_pass json_loads s = []).
  { unfold balanced_pass. rewrite <- (app_nil_r s).
    rewrite balanced_loop_no_brace; [reflexivity|].
    unfold no_brace. unfold lacks in Hl.
    rewrite forallb_forall in *. intros x Hx.
    rewrite Ascii.eqb_sym. apply Hl, Hx. }
  rewrite Hb. unfold regex_pass.
  rewrite (finditer_lacking "{"%char) by (reflexivity || assumption).
  reflexivity.
Qed.

(** X18.  An answer that holds no bracket and no brace never reaches the
    decoder.  [parse_quiz_questions] then returns exactly what the text
    fallback makes of the answer, and [parse_midterm_analysis] what the
    structured-text fallback makes of it, or the empty list when that
    fallback raises. *)
Theorem plain_text_goes_to_fallback :
  forall ai_response,
    lacks "["%char ai_response = true ->
    lacks "{"%char ai_response = true ->
    parse_quiz_questions json_loads ai_response
    = Ok (extract_questions_from_text ai_response)
    /\ parse_midterm_analysis json_loads ai_response
       = match text_errors_loop (error_text_groups ai_response) with
         | Ok errors => Ok errors
         | Raise _ => Ok []
         end.
Proof.
  intros s Hb Hc. split.
  - unfold parse_quiz_questions, parse_quiz_questions_body.
    unfold code_block, fallback_search, questions_object.
    rewrite (search_lacking "["%char) by (reflexivity || assumption).
    rewrite bracket_loop_lacking by assumption.
    rewrite search_long_array_lacking by assumption.
    rewrite (search_lacking "{"%char) by (reflexivity || assumption).
    rewrite salvage_lacking by assumption.
    cbn [bind nonempty or_else].
    destruct (extract_questions_from_text s); reflexivity.
  - unfold parse_midterm_analysis, parse_midterm_analysis_body.
    unfold find_json_str.
    rewrite (search_lacking "["%char) by (reflexivity || assumption).
    rewrite (search_lacking "{"%char) by (reflexivity || assumption).
    rewrite (search_either_lacking "{"%char "["%char)
      by (reflexivity || assumption).
    cbn [or_else].
    destruct (text_errors_loop (error_text_groups s)); reflexivity.
Qed.

End PlainText.

Lemma plain_text_goes_to_fallback_witness :
  parse_quiz_questions py_json_loads
    (chars "Question 1: What is the time complexity of binary search?")
  = Ok (extract_questions_from_text
          (chars "Question 1: What is the time complexity of binary search?"))
  /\ List.length
       (extract_questions_from_text
          (chars "Question 1: What is the time complexity of binary search?"))
     = 1.
Proof.
  split; [|reflexivity].
  exact (proj1 (plain_text_goes_to_fallback py_json_loads
                  (chars "Question 1: What is the time complexity of binary search?")
                  eq_refl eq_refl)).
Defined.

(* ================================================================== *)
(** ** The length of a quiz title *)

Section TitleFacts.

Lemma py_split_words s : Forall (fun w => is_word w = true) (py_split s).
Proof.
  induction s as [|c rest IH]; [constructor|].
  cbn [py_split]. destruct (is_space c) eqn:Ec; [exact IH|].
  assert (Hc : is_word [c] = true)
    by (unfold is_word; cbn; rewrite Ec; reflexivity).
  destruct (begins_word rest).
  - destruct (py_split rest) as [|w ws]; [repeat constructor; exact Hc|].
    inversion IH as [|? ? Hw Hws]; subst.
    constructor; [|exact Hws].
    unfold is_word in *. cbn [nonblank forallb andb]. rewrite Ec.
    apply andb_true_iff in Hw as [_ Hw]. exact Hw.
  - constructor; [exact Hc|exact IH].
Qed.

Lemma py_split_length s : List.length (py_split s) <= List.length s.
Proof.
  induction s as [|c rest IH]; [apply Nat.le_refl|].
  cbn [py_split List.length]. destruct (is_space c); [lia|].
  destruct (begins_word rest).
  - destruct (py_split rest) as [|w ws]; cbn [List.length] in *; lia.
  - cbn [List.length]. lia.
Qed.

Lemma py_split_begins s : begins_word s = true -> py_split s <> [].
Proof.
  destruct s as [|c rest]; [discriminate|].
  cbn [begins_word py_split]. intros H. apply negb_true_iff in H.
  rewrite H. destruct (begins_word rest); [|discriminate].
  destruct (py_split rest); discriminate.
Qed.

Lemma py_split_word w : is_word w = true -> py_split w = [w].
Proof.
  unfold is_word. induction w as [|c rest IH]; [discriminate|].
  cbn [nonblank forallb andb py_split]. intros H.
  apply andb_true_iff in H as [Hc Hrest]. apply negb_true_iff in Hc.
  rewrite Hc. destruct rest as [|d rest']; [reflexivity|].
  cbn [begins_word].
  pose proof Hrest as Hd. cbn [forallb] in Hd.
  apply andb_true_iff in Hd as [Hd _]. rewrite Hd.
  rewrite IH by exact Hrest. reflexivity.
Qed.

Lemma py_split_app_space a b :
  py_split (a ++ " "%char :: b) = py_split a ++ py_split b.
Proof.
  induction a as [|c rest IH]; [reflexivity|].
  rewrite <- app_comm_cons. cbn [py_split].
  destruct (is_space c); [exact IH|].
  destruct rest as [|d rest'].
  - reflexivity.
  - rewrite <- app_comm_cons in *. cbn [begins_word].
    destruct (negb (is_space d)) eqn:Ed.
    + rewrite IH.
      assert (Hne : py_split (d :: rest') <> [])
        by (apply py_split_begins; exact Ed).
      destruct (py_split (d :: rest')) as [|w ws]; [contradiction|].
      reflexivity.
    + rewrite IH. reflexivity.
Qed.

Lemma py_split_join ws :
  Forall (fun w => is_word w = true) ws -> py_split (join_space ws) = ws.
Proof.
  induction ws as [|w rest IH]; intros H; [reflexivity|].
  inversion H as [|? ? Hw Hrest]; subst.
  cbn [join_space]. destruct rest as [|w2 rest'].
  - apply py_split_word, Hw.
  - rewrite py_split_app_space, (py_split_word _ Hw), (IH Hrest).
    reflexivity.
Qed.

Lemma join_space_length w1 w2 rest :
  is_word w1 = true ->
  2 <= List.length (join_space (w1 :: w2 :: rest)).
Proof.
  intros Hw. cbn [join_space]. rewrite length_app. cbn [List.length].
  destruct w1; [discriminate|]. cbn [List.length]. lia.
Qed.

Lemma six_words ws :
  6 < List.length ws ->
  Forall (fun w => is_word w = true) ws ->
  py_split (join_space (firstn 6 ws)) = firstn 6 ws
  /\ List.length (firstn 6 ws) = 6
  /\ 2 <= List.length (join_space (firstn 6 ws)).
Proof.
  intros Hlen Hw. split; [apply py_split_join, forall_firstn, Hw|].
  split; [rewrite length_firstn; lia|].
  destruct ws as [|w1 [|w2 rest]]; cbn [List.length] in Hlen; try lia.
  cbn [firstn]. apply join_space_length.
  inversion Hw; assumption.
Qed.

Lemma returned_title topics title :
  nonblank title = true -> 2 <= List.length title ->
  (if negb (nonblank title) || (List.length title <? 2)
   then topics_title topics else title) = title.
Proof.
  intros Hn Hl. rewrite Hn. cbn [negb orb].
  replace (List.length title <? 2) with false
    by (symmetry; apply Nat.ltb_ge; exact Hl).
  reflexivity.
Qed.

Lemma nonblank_length (t : text) : 1 <= List.length t -> nonblank t = true.
Proof. destruct t; cbn [List.length nonblank]; [lia|reflexivity]. Qed.

Lemma topics_title_words topics :
  topics = [] -> List.length (py_split (topics_title topics)) <= 6.
Proof. intros ->. vm_compute. lia. Qed.

Lemma title_from_response_words topics response :
  py_split (clean_response response) <> [] ->
  List.length (py_split (title_from_response topics response)) <= 6
  /\ (3 <= List.length (py_split (clean_response response)) <= 6 ->
      title_from_response topics response = clean_response response).
Proof.
  intros Hne. unfold title_from_response, sized_title.
  set (title := clean_response response) in *.
  pose proof (py_split_words title) as Hw.
  pose proof (py_split_length title) as Hl.
  assert (Hpos : 1 <= List.length (py_split title))
    by (destruct (py_split title); [contradiction|cbn [List.length]; lia]).
  destruct (6 <? List.length (py_split title)) eqn:E6.
  - apply Nat.ltb_lt in E6.
    destruct (six_words _ E6 Hw) as (Hs & Hn & H2).
    rewrite returned_title by (try apply nonblank_length; lia).
    rewrite Hs, Hn. split; [lia|intros; lia].
  - apply Nat.ltb_ge in E6.
    destruct (List.length (py_split title) <? 3) eqn:E3.
    + apply Nat.ltb_lt in E3.
      replace (0 <? List.length (py_split title)) with true
        by (symmetry; apply Nat.ltb_lt; lia).
      cbn [andb]. split; [|intros; lia].
      destruct topics as [|first rest].
      * destruct (negb (nonblank title) || (List.length title <? 2)).
        -- apply topics_title_words. reflexivity.
        -- lia.
      * set (extra := firstn 2 (py_split first)).
        assert (Hextra : py_split (title ++ " "%char :: join_space extra)
                         = py_split title ++ extra).
        { rewrite py_split_app_space, py_split_join; [reflexivity|].
          apply forall_firstn, py_split_words. }
        assert (Hcount : List.length (py_split title ++ extra) <= 4).
        { rewrite length_app. unfold extra. rewrite length_firstn. lia. }
        rewrite Hextra.
        replace (6 <? List.length (py_split title ++ extra)) with false
          by (symmetry; apply Nat.ltb_ge; lia).
        rewrite returned_title.
        -- rewrite Hextra. lia.
        -- apply nonblank_length. rewrite length_app. cbn [List.length]. lia.
        -- rewrite length_app. cbn [List.length]. lia.
    + apply Nat.ltb_ge in E3. cbn [andb].
      rewrite returned_title by (try apply nonblank_length; lia).
      split; [lia|reflexivity].
Qed.

(** X19.  Whenever the model answers the title prompt with at least one
    word (after the quotes, the white space and everything from the first
    full stop or line feed are stripped), the title [generate_quiz_title]
    returns has six words at most; and when no subject is used, an answer of
    three to six words is returned as cleaned, and an answer of more than
    six words is cut to its first six. *)
Theorem title_has_at_most_six_words :
  forall topics subject response,
    py_split (clean_response response) <> [] ->
    List.length (py_split (generate_quiz_title topics subject (Ok response)))
    <= 6
    /\ (subject_title subject = None -> topics <> [] ->
        (3 <= List.length (py_split (clean_response response)) <= 6 ->
         generate_quiz_title topics subject (Ok response)
         = clean_response response)
        /\ (6 < List.length (py_split (clean_response response)) ->
            py_split (generate_quiz_title topics subject (Ok response))
            = firstn 6 (py_split (clean_response response)))).
Proof.
  intros topics subject response Hne.
  destruct (title_from_response_words topics response Hne) as [Hle Hsame].
  unfold generate_quiz_title. split.
  - destruct (subject_title subject) as [t|] eqn:Es.
    + unfold subject_title in Es.
      destruct subject as [subject|]; [|discriminate].
      destruct (nonblank subject && _); [|discriminate].
      destruct (member _ generic_subjects); [discriminate|].
      destruct (List.length (py_split _) <=? 6) eqn:E; [|discriminate].
      injection Es as <-. apply Nat.leb_le, E.
    + destruct topics as [|first rest]; [vm_compute; lia|exact Hle].
  - intros Hs Ht. rewrite Hs.
    destruct topics as [|first rest]; [contradiction|].
    split; [exact Hsame|].
    intros H6. unfold title_from_response, sized_title.
    replace (6 <? List.length (py_split (clean_response response)))
      with true by (symmetry; apply Nat.ltb_lt; exact H6).
    destruct (six_words _ H6 (py_split_words _)) as (Hsplit & Hn & H2).
    rewrite returned_title by (try apply nonblank_length; lia).
    exact Hsplit.
Qed.

Lemma title_has_at_most_six_words_witness :
  generate_quiz_title [chars "Merge Sort"; chars "Quick Sort"] None
    (Ok (lit "'Sorting Algorithms and Their Many Clever Variations'|"))
  = chars "Sorting Algorithms and Their Many Clever"
  /\ List.length
       (py_split
          (generate_quiz_title [chars "Merge Sort"; chars "Quick Sort"] None
             (Ok (lit "'Sorting Algorithms and Their Many Clever Variations'|"))))
     <= 6.
Proof.
  split; [reflexivity|].
  apply (title_has_at_most_six_words
           [chars "Merge Sort"; chars "Quick Sort"] None
           (lit "'Sorting Algorithms and Their Many Clever Variations'|")).
  vm_compute. discriminate.
Defined.

End TitleFacts.

(* ================================================================== *)
(** ** Records that carry no correctness *)

Section UnlabelledRecords.

Lemma unlabelled_counts qs :
  Forall unlabelled_record qs ->
  errors_only qs = Ok qs
  /\ count_if (label_in [chars "correct"]) qs = Ok 0
  /\ count_if (label_in [chars "incorrect"]) qs = Ok 0
  /\ count_if (label_in partial_labels) qs = Ok 0
  /\ count_if is_unknown qs = Ok (List.length qs).
Proof.
  induction 1 as [|r qs (d & -> & Hd) _ (He & Hc & Hi & Hp & Hu)].
  - repeat split; reflexivity.
  - assert (Hl : correctness_label (JDict d) = Ok []).
    { unfold correctness_label, get_default. rewrite Hd. reflexivity. }
    cbn [errors_only count_if]. rewrite He, Hc, Hi, Hp, Hu.
    unfold label_in, is_unknown, get. rewrite Hd, Hl.
    repeat split; reflexivity.
Qed.

(** X20.  Records that carry no correctness field, which is how the
    salvage scanner of [parse_midterm_analysis] returns what it recovers,
    are all kept as errors by [analyze_midterm] and counted by
    [save_midterm_analysis] as neither correct, wrong nor partially
    correct: the three counts are zero whatever the number of errors, and
    the breakdown files every record under [unknown]. *)
Theorem unlabelled_records_are_uncounted :
  forall all_questions,
    Forall unlabelled_record all_questions ->
    errors_only all_questions = Ok all_questions
    /\ midterm_stats all_questions all_questions
       = Ok (mk_stats (List.length all_questions)
               (List.length all_questions) 0 0 0)
    /\ count_if is_unknown all_questions = Ok (List.length all_questions).
Proof.
  intros qs H.
  destruct (unlabelled_counts qs H) as (He & Hc & Hi & Hp & Hu).
  split; [exact He|]. split; [|exact Hu].
  unfold midterm_stats.
  assert (Hq : (if truthy (JList qs) then qs else qs) = qs)
    by (destruct (truthy (JList qs)); reflexivity).
  rewrite Hq, Hc, Hi, Hp. reflexivity.
Qed.

Lemma unlabelled_records_are_uncounted_witness :
  parse_midterm_analysis py_json_loads
    (lit "[{'question': 1} {'question': 2}]")
  = Ok [ JDict [(chars "question", JNum 1)];
         JDict [(chars "question", JNum 2)] ]
  /\ midterm_stats
       [ JDict [(chars "question", JNum 1)];
         JDict [(chars "question", JNum 2)] ]
       [ JDict [(chars "question", JNum 1)];
         JDict [(chars "question", JNum 2)] ]
     = Ok (mk_stats 2 2 0 0 0).
Proof.
  split; [vm_compute; reflexivity|].
  refine (proj1 (proj2 (unlabelled_records_are_uncounted
                          [ JDict [(chars "question", JNum 1)];
                            JDict [(chars "question", JNum 2)] ] _))).
  repeat constructor; eexists; split; reflexivity.
Defined.

End UnlabelledRecords.

(* ================================================================== *)
(** ** The size of a RAG quiz *)

Section RagQuizFacts.

Lemma extend_topics_stops (all_weak_topics : list text) num_questions :
  all_weak_topics <> [] ->
  forall fuel topics_list,
    (num_questions <= Z.of_nat (List.length topics_list + fuel))%Z ->
    Forall (fun t => In t all_weak_topics) topics_list ->
    exists extended,
      extend_topics fuel all_weak_topics topics_list num_questions
      = Some extended
      /\ Forall (fun t => In t all_weak_topics) extended.
Proof.
  intros Hne. induction fuel as [|fuel IH]; intros topics_list Hn Hin;
    cbn [extend_topics].
  - replace (Z.of_nat (List.length topics_list) <? num_questions)%Z
      with false by (symmetry; apply Z.ltb_ge; lia).
    exists topics_list. split; [reflexivity|exact Hin].
  - destruct (Z.of_nat (List.length topics_list) <? num_questions)%Z.
    + apply IH.
      * rewrite length_app.
        destruct all_weak_topics; [contradiction|]. cbn [List.length]. lia.
      * apply Forall_app. split; [exact Hin|].
        apply Forall_forall. intros t Ht. exact Ht.
    + exists topics_list. split; [reflexivity|exact Hin].
Qed.

Lemma pad_from_length count i topics_list :
  List.length (pad_from count i topics_list) = count.
Proof.
  revert i. induction count as [|count IH]; intros i; [reflexivity|].
  cbn [pad_from List.length]. rewrite IH. reflexivity.
Qed.

Lemma topic_at_in (all_weak_topics : list text) i topics_list :
  all_weak_topics <> [] ->
  topics_list <> [] ->
  Forall (fun t => In t all_weak_topics) topics_list ->
  In (topic_at i topics_list) all_weak_topics.
Proof.
  intros Hne Hnl Hin. unfold topic_at.
  destruct topics_list as [|t0 rest] eqn:E; [contradiction|].
  rewrite <- E in *. rewrite Forall_forall in Hin. apply Hin.
  apply nth_In. apply Nat.mod_upper_bound.
  rewrite E. discriminate.
Qed.

Lemma pad_from_placeholders (all_weak_topics : list text) topics_list :
  all_weak_topics <> [] ->
  topics_list <> [] ->
  Forall (fun t => In t all_weak_topics) topics_list ->
  forall count i,
    Forall (fun p => exists k topic,
                       p = rag_placeholder k topic /\ In topic all_weak_topics)
      (pad_from count i topics_list).
Proof.
  intros Hne Hnl Hin. induction count as [|count IH]; intros i;
    [constructor|].
  cbn [pad_from]. constructor; [|apply IH].
  exists i, (topic_at i topics_list). split; [reflexivity|].
  apply topic_at_in; assumption.
Qed.

Lemma extend_topics_nonempty fuel (all_weak_topics : list text) num_questions :
  forall topics_list extended,
    extend_topics fuel all_weak_topics topics_list num_questions
    = Some extended ->
    topics_list <> [] -> extended <> [].
Proof.
  induction fuel as [|fuel IH]; intros topics_list extended;
    cbn [extend_topics];
    destruct (Z.of_nat (List.length topics_list) <? num_questions)%Z;
    try discriminate.
  - intros H. injection H as <-. exact (fun H => H).
  - intros H Hnl. eapply IH; [exact H|].
    destruct topics_list; [contradiction|discriminate].
  - intros H. injection H as <-. exact (fun H => H).
Qed.

(** X21.  With at least one weak topic and [num_questions] not negative,
    the padding loop of [generate_rag_quiz] stops and the quiz holds
    exactly [num_questions] questions: the parsed ones first, in their
    order, cut to [num_questions] if there are more, then placeholders each
    on one of the weak topics.  The token budget the endpoint asks for lies
    between 4096 and 8192, so [generate_response] sends it unchanged. *)
Theorem rag_quiz_has_requested_size :
  forall (all_weak_topics : list text) (num_questions : Z)
         (questions : list json),
    all_weak_topics <> [] ->
    (0 <= num_questions)%Z ->
    (exists returned padding,
       rag_questions (Z.to_nat num_questions) all_weak_topics num_questions
         questions = Some returned
       /\ List.length returned = Z.to_nat num_questions
       /\ returned = firstn (Z.to_nat num_questions) questions ++ padding
       /\ Forall (fun p => exists k topic,
                            p = rag_placeholder k topic
                            /\ In topic all_weak_topics) padding)
    /\ clamp_max_tokens (rag_max_tokens num_questions)
       = rag_max_tokens num_questions.
Proof.
  intros all n qs Hne Hn. split.
  2:{ unfold clamp_max_tokens, rag_max_tokens.
      destruct (Z.ltb_spec (Z.min 8192 (Z.max 4096 (n * 400))) 2048);
        [lia|].
      destruct (Z.ltb_spec 8192 (Z.min 8192 (Z.max 4096 (n * 400))));
        [lia|reflexivity]. }
  unfold rag_questions, py_slice_to.
  replace (0 <=? n)%Z with true by (symmetry; apply Z.leb_le; exact Hn).
  destruct (extend_topics_stops all n Hne (Z.to_nat n) all) as (tl & Htl & Hin).
  { lia. }
  { apply Forall_forall. intros t Ht. exact Ht. }
  assert (Htne : tl <> []) by (eapply extend_topics_nonempty; eassumption).
  destruct (Z.of_nat (List.length qs) <? n)%Z eqn:Elt.
  - apply Z.ltb_lt in Elt. rewrite orb_true_r, Htl. cbn [option_map].
    set (pad := pad_from (Z.to_nat (n - Z.of_nat (List.length qs)))
                  (List.length qs) tl).
    assert (Hpad : List.length pad = Z.to_nat n - List.length qs)
      by (unfold pad; rewrite pad_from_length; lia).
    exists (firstn (Z.to_nat n) (qs ++ pad)), pad.
    split; [reflexivity|].
    assert (Hall : firstn (Z.to_nat n) (qs ++ pad) = qs ++ pad)
      by (apply firstn_all2; rewrite length_app; lia).
    split; [rewrite Hall, length_app; lia|].
    split.
    + rewrite Hall, firstn_all2 by lia. reflexivity.
    + apply pad_from_placeholders; assumption.
  - apply Z.ltb_ge in Elt. rewrite orb_false_r.
    destruct qs as [|q qs'].
    + cbn [truthy negb]. rewrite Htl. cbn [option_map].
      cbn [List.length] in *.
      assert (n = 0%Z) by lia. subst n.
      exists [], []. repeat split; constructor.
    + cbn [truthy negb option_map].
      exists (firstn (Z.to_nat n) (q :: qs')), [].
      split; [reflexivity|].
      split; [rewrite length_firstn; cbn [List.length] in *; lia|].
      split; [rewrite app_nil_r; reflexivity|constructor].
Qed.

Lemma rag_quiz_has_requested_size_witness :
  exists returned,
    rag_questions 3 [chars "Graphs"; chars "Trees"] 3
      [JDict [(chars "id", JStr (chars "q1"))]]
    = Some returned
    /\ List.length returned = 3.
Proof.
  assert (Hne : [chars "Graphs"; chars "Trees"] <> []) by discriminate.
  assert (Hn : (0 <= 3)%Z) by lia.
  destruct (rag_quiz_has_requested_size [chars "Graphs"; chars "Trees"] 3
              [JDict [(chars "id", JStr (chars "q1"))]] Hne Hn)
    as ((returned & padding & H1 & H2 & _) & _).
  exists returned. split; [exact H1|exact H2].
Defined.

End RagQuizFacts.

(* ================================================================== *)
(** ** Answers that cannot make the endpoint fail *)

Section SafeAnswers.

Variable json_loads : text -> result json.
Variable shuffle : nat -> list json -> list json.
Hypothesis shuffle_permutes : forall k l, Permutation l (shuffle k l).

Lemma str_or_empty_truthy v :
  str_or_empty v = true -> truthy v = true -> exists t, v = JStr t.
Proof.
  destruct v as [| | | |t| |]; cbn [str_or_empty]; intros H Ht;
    try (rewrite Ht in H; discriminate).
  exists t. reflexivity.
Qed.

Lemma validatable_returns first_topic count q :
  validatable q = true ->
  exists r, validate_question first_topic count q = Ok r.
Proof.
  unfold validatable. destruct q as [| | | | | |d]; try discriminate.
  intros H. apply andb_true_iff in H as [H Ho].
  apply andb_true_iff in H as [Ht Hq].
  unfold validate_question.
  set (question_text :=
         py_or (py_or (get d (chars "text")) (get d (chars "question")))
               (JStr [])).
  assert (Hstr : exists t, question_text = JStr t).
  { unfold question_text, py_or.
    destruct (truthy (get d (chars "text"))) eqn:E1.
    - rewrite E1. apply str_or_empty_truthy; assumption.
    - destruct (truthy (get d (chars "question"))) eqn:E2.
      + apply str_or_empty_truthy; assumption.
      + exists []. reflexivity. }
  destruct Hstr as [t ->].
  destruct (negb (truthy (JStr t))); [eauto|].
  destruct (List.length (strip t) <? 10); [eauto|].
  unfold get_default.
  destruct (lookup (chars "options") d) as [[| | | | |options|]|];
    try discriminate.
  - destruct (negb (truthy (JList options))); cbn [py_len bind]; [eauto|].
    destruct (List.length options <? 2); [eauto|].
    cbn [py_iter bind].
    destruct (List.length (collect_options options) <? 2); eauto.
  - cbn [truthy negb py_len bind]. eauto.
Qed.

Lemma validate_loop_returns first_topic parsed :
  forallb validatable parsed = true ->
  forall acc, exists out, validate_loop first_topic acc parsed = Ok out.
Proof.
  induction parsed as [|q rest IH]; intros H acc; [eexists; reflexivity|].
  cbn [forallb] in H. apply andb_true_iff in H as [Hq Hrest].
  cbn [validate_loop].
  destruct (validatable_returns first_topic (List.length acc) q Hq)
    as [r ->].
  cbn [bind]. destruct r; apply IH, Hrest.
Qed.

Lemma relabel_dicts l :
  forall ids l', relabel ids l = Ok l' -> forallb is_dict l' = true.
Proof.
  induction l as [|opt rest IH]; intros ids l' H.
  - injection H as <-. reflexivity.
  - cbn [relabel] in H. destruct ids as [|new_id ids]; [discriminate|].
    destruct opt as [| | | | | |o]; try discriminate.
    destruct (relabel ids rest) as [rest'|] eqn:E; [|discriminate].
    cbn [bind] in H. injection H as <-.
    cbn [forallb is_dict andb]. eapply IH, E.
Qed.

Lemma randomize_question_returns k d :
  safe_question (JDict d) = true ->
  exists d',
    randomize_question (shuffle k) d = Ok d'
    /\ validatable (JDict d') = true.
Proof.
  unfold safe_question. intros H. apply andb_true_iff in H as [Hv Hs].
  destruct (randomize_question (shuffle k) d) as [d'|e] eqn:Er.
  - exists d'. split; [reflexivity|].
    destruct (randomize_question_cases _ _ _ Er)
      as [->|(options & idx & relabelled & new_correct
              & Ho & _ & Hrel & _ & ->)]; [exact Hv|].
    unfold validatable, get in *.
    rewrite !(lookup_set_other _ (chars "text")) by reflexivity.
    rewrite !(lookup_set_other _ (chars "question")) by reflexivity.
    rewrite lookup_set_same. rewrite Ho in Hv.
    rewrite andb_true_r in *. exact Hv.
  - exfalso. unfold randomize_question in Er.
    destruct (lookup (chars "options") d) as [[| | | | |options|]|];
      try discriminate.
    apply andb_true_iff in Hs as [Hd Hlen]. apply Nat.leb_le in Hlen.
    destruct (1 <? List.length options); [|discriminate].
    destruct (find _ options) as [co|]; [|discriminate].
    destruct (truthy co); [|discriminate].
    destruct (find_index _ (shuffle k options)) as [idx|] eqn:Hidx;
      [|discriminate].
    pose proof (shuffle_permutes k options) as Hp.
    assert (Hlen' : List.length (shuffle k options) = List.length options)
      by (symmetry; apply Permutation_length, Hp).
    destruct (relabel_returns
                (firstn (List.length (shuffle k options)) canonical_ids)
                (shuffle k options)) as [relabelled Hrel].
    { unfold all_dicts. eapply Permutation_Forall; [exact Hp|].
      apply Forall_forall. rewrite forallb_forall in Hd. exact Hd. }
    { rewrite length_firstn. unfold canonical_ids. simpl List.length. lia. }
    rewrite Hrel in Er. cbn [bind] in Er. unfold nth_id in Er.
    apply find_index_bound in Hidx.
    destruct (nth_error _ idx) as [t|] eqn:Hnth; [discriminate|].
    apply nth_error_None in Hnth. rewrite length_firstn in Hnth.
    unfold canonical_ids in Hnth. simpl List.length in Hnth. lia.
Qed.

Lemma randomize_items_return parsed :
  forallb safe_question parsed = true ->
  forall k,
    exists randomized,
      randomize_items shuffle k parsed = Ok randomized
      /\ forallb validatable randomized = true.
Proof.
  induction parsed as [|q rest IH]; intros H k.
  - exists []. split; reflexivity.
  - cbn [forallb] in H. apply andb_true_iff in H as [Hq Hrest].
    cbn [randomize_items].
    destruct q as [| | | | | |d]; try discriminate.
    destruct (randomize_question_returns k d Hq) as (d' & Hd & Hv).
    destruct (IH Hrest (S k)) as (rest' & Hr & Hvr).
    unfold randomize_item. rewrite Hd. cbn [bind]. rewrite Hr. cbn [bind].
    exists (JDict d' :: rest'). split; [reflexivity|].
    cbn [forallb]. rewrite Hv, Hvr. reflexivity.
Qed.

Lemma renders_lookup d k v :
  renders (JDict d) = true -> lookup k d = Some v -> renders v = true.
Proof.
  cbn [renders]. induction d as [|[k' v'] d IH]; cbn [forallb lookup snd];
    [discriminate|].
  intros H. apply andb_true_iff in H as [Hv Hd].
  destruct (text_eqb k k'); [intros E; injection E as <-; exact Hv|].
  apply IH, Hd.
Qed.

Lemma renders_get d k : renders (JDict d) = true -> renders (get d k) = true.
Proof.
  intros H. unfold get. destruct (lookup k d) as [v|] eqn:E; [|reflexivity].
  eapply renders_lookup; eassumption.
Qed.

Lemma renders_set d k v :
  renders (JDict d) = true -> renders v = true ->
  renders (JDict (set d k v)) = true.
Proof.
  cbn [renders]. intros Hd Hv.
  induction d as [|[k' v'] d IH]; cbn [set forallb snd].
  - rewrite Hv. reflexivity.
  - cbn [forallb snd] in Hd. apply andb_true_iff in Hd as [Hv' Hd].
    destruct (text_eqb k k'); cbn [forallb snd].
    + rewrite Hv, Hd. reflexivity.
    + rewrite Hv', (IH Hd). reflexivity.
Qed.

Lemma renders_py_or a b :
  renders a = true -> renders b = true -> renders (py_or a b) = true.
Proof. unfold py_or. destruct (truthy a); auto. Qed.

Lemma renders_py_or_str a t :
  renders a = true -> renders (py_or a (JStr t)) = true.
Proof. intros H. apply renders_py_or; [exact H|reflexivity]. Qed.

Lemma relabel_renders l :
  forall ids l',
    relabel ids l = Ok l' -> forallb renders l = true ->
    forallb renders l' = true.
Proof.
  induction l as [|opt rest IH]; intros ids l' H Hl.
  - injection H as <-. reflexivity.
  - cbn [relabel] in H. destruct ids as [|new_id ids]; [discriminate|].
    destruct opt as [| | | | | |o]; try discriminate.
    destruct (relabel ids rest) as [rest'|] eqn:E; [|discriminate].
    cbn [bind] in H. injection H as <-.
    cbn [forallb] in Hl. apply andb_true_iff in Hl as [Ho Hrest].
    apply forallb_forall. intros x [<-|Hx].
    + apply renders_set; [exact Ho|reflexivity].
    + pose proof (IH _ _ E Hrest) as Hr. rewrite forallb_forall in Hr.
      apply Hr, Hx.
Qed.

Lemma randomize_question_renders k d d' :
  randomize_question (shuffle k) d = Ok d' ->
  renders (JDict d) = true -> renders (JDict d') = true.
Proof.
  intros Hr Hd.
  destruct (randomize_question_cases _ _ _ Hr)
    as [->|(options & idx & relabelled & new_correct
            & Ho & _ & Hrel & _ & ->)]; [exact Hd|].
  apply renders_set; [apply renders_set; [exact Hd|reflexivity]|].
  change (renders (JList relabelled)) with (forallb renders relabelled).
  eapply relabel_renders; [exact Hrel|].
  pose proof (renders_lookup _ _ _ Hd Ho) as Hopts.
  change (renders (JList options)) with (forallb renders options) in Hopts.
  apply forallb_forall. intros x Hx. rewrite forallb_forall in Hopts.
  apply Hopts. eapply Permutation_in; [|exact Hx].
  apply Permutation_sym, shuffle_permutes.
Qed.

Lemma randomize_items_render parsed :
  forall k randomized,
    randomize_items shuffle k parsed = Ok randomized ->
    forallb renders parsed = true ->
    forallb renders randomized = true.
Proof.
  induction parsed as [|q rest IH]; intros k randomized H Hp.
  - injection H as <-. reflexivity.
  - cbn [randomize_items] in H.
    destruct (randomize_item (shuffle k) q) as [q'|] eqn:Eq; [|discriminate].
    destruct (randomize_items shuffle (S k) rest) as [rest'|] eqn:Er;
      [|discriminate].
    cbn [bind] in H. injection H as <-.
    cbn [forallb] in Hp. apply andb_true_iff in Hp as [Hq Hrest].
    cbn [forallb]. rewrite (IH _ _ Er Hrest), andb_true_r.
    unfold randomize_item in Eq.
    destruct q as [| | | |s|l|d]; try discriminate.
    + destruct (is_infix _ s); [discriminate|]. injection Eq as <-.
      reflexivity.
    + destruct (existsb _ l); [discriminate|]. injection Eq as <-.
      exact Hq.
    + destruct (randomize_question (shuffle k) d) as [d'|] eqn:Ed;
        [|discriminate].
      cbn [bind] in Eq. injection Eq as <-.
      eapply randomize_question_renders; eassumption.
Qed.

Lemma forallb_snoc {A : Type} (f : A -> bool) l x :
  forallb f l = true -> f x = true -> forallb f (l ++ [x]) = true.
Proof.
  intros Hl Hx. induction l as [|y l IH]; cbn [app forallb] in *.
  - rewrite Hx. reflexivity.
  - apply andb_true_iff in Hl as [Hy Hl]. rewrite Hy, (IH Hl). reflexivity.
Qed.

Lemma add_option_renders valid opt :
  forallb (fun o => renders (JDict o)) valid = true ->
  renders opt = true ->
  forallb (fun o => renders (JDict o)) (add_option valid opt) = true.
Proof.
  intros Hv Ho. unfold add_option.
  destruct opt as [| | | |t| |o]; try exact Hv.
  - apply forallb_snoc; [exact Hv|reflexivity].
  - destruct (has_key _ o || has_key _ o); [|exact Hv].
    apply forallb_snoc; [exact Hv|].
    pose proof (renders_get o (chars "id") Ho) as Hid.
    pose proof (renders_get o (chars "text") Ho) as Htext.
    unfold option_record. cbn [renders forallb snd].
    destruct (truthy (get o (chars "id")));
      destruct (truthy (get o (chars "text")));
      rewrite ?Hid, ?Htext; reflexivity.
Qed.

Lemma collect_options_render options :
  forallb renders options = true ->
  forallb (fun o => renders (JDict o)) (collect_options options) = true.
Proof.
  unfold collect_options.
  assert (H : forall valid,
             forallb (fun o => renders (JDict o)) valid = true ->
             forallb renders options = true ->
             forallb (fun o => renders (JDict o))
               (fold_left add_option options valid) = true).
  { induction options as [|opt rest IH]; intros valid Hv Ho; [exact Hv|].
    cbn [forallb] in Ho. apply andb_true_iff in Ho as [Hopt Hrest].
    cbn [fold_left]. apply IH; [|exact Hrest].
    apply add_option_renders; assumption. }
  intros Ho. apply H; [reflexivity|exact Ho].
Qed.

Lemma first_option_id_renders valid :
  forallb (fun o => renders (JDict o)) valid = true ->
  renders (first_option_id valid) = true.
Proof.
  destruct valid as [|o rest]; [reflexivity|].
  cbn [forallb first_option_id]. intros H.
  apply andb_true_iff in H as [Ho _]. unfold get_default.
  destruct (lookup (chars "id") o) as [v|] eqn:E; [|reflexivity].
  eapply renders_lookup; eassumption.
Qed.

Lemma renders_dicts l :
  forallb (fun o => renders (JDict o)) l = true ->
  renders (JList (map JDict l)) = true.
Proof.
  intros H. induction l as [|o l IH]; [reflexivity|].
  cbn [forallb] in H. apply andb_true_iff in H as [Ho Hl].
  change (renders (JList (map JDict (o :: l))))
    with (renders (JDict o) && renders (JList (map JDict l))).
  rewrite Ho, (IH Hl). reflexivity.
Qed.

Lemma renders_fields (d : dict) :
  Forall (fun kv => renders (snd kv) = true) d -> renders (JDict d) = true.
Proof.
  intros H. cbn [renders]. apply forallb_forall. intros kv Hkv.
  rewrite Forall_forall in H. apply H, Hkv.
Qed.

Lemma validated_record_renders first_topic count d t valid :
  renders (JDict d) = true ->
  forallb (fun o => renders (JDict o)) valid = true ->
  renders
    (JDict
       [ (chars "id",
          py_or (get d (chars "id")) (JStr (str_nat (count + 1))));
         (chars "text", JStr (strip t));
         (chars "options", JList (map JDict valid));
         (chars "correctAnswer",
          py_or (py_or (get d (chars "correctAnswer"))
                       (get d (chars "correct_answer")))
                (first_option_id valid));
         (chars "explanation",
          py_or (get d (chars "explanation")) (JStr []));
         (chars "topic",
          py_or (get d (chars "topic")) (JStr first_topic)) ]) = true.
Proof.
  intros Hd Hc. apply renders_fields.
  repeat constructor; cbn [snd].
  - apply renders_py_or_str, renders_get, Hd.
  - apply renders_dicts, Hc.
  - apply renders_py_or; [apply renders_py_or; apply renders_get, Hd|].
    apply first_option_id_renders, Hc.
  - apply renders_py_or_str, renders_get, Hd.
  - apply renders_py_or_str, renders_get, Hd.
Qed.

Lemma validate_question_renders first_topic count q r :
  validate_question first_topic count q = Ok (Some r) ->
  renders q = true -> renders (JDict r) = true.
Proof.
  unfold validate_question. destruct q as [| | | | | |d]; try discriminate.
  intros H Hd.
  destruct (negb (truthy _)); [discriminate|].
  destruct (py_or (py_or _ _) _) as [| | | |t| |]; try discriminate.
  destruct (List.length (strip t) <? 10); [discriminate|].
  assert (Hopts : renders (get_default d (chars "options") (JList [])) = true).
  { unfold get_default.
    destruct (lookup (chars "options") d) as [v|] eqn:E; [|reflexivity].
    eapply renders_lookup; eassumption. }
  destruct (get_default d (chars "options") (JList [])) as [| | | |s|l|o];
    cbn [py_len py_iter bind] in H;
    try (destruct (negb (truthy _)); discriminate).
  - destruct (negb (truthy (JStr s))); [discriminate|].
    destruct (List.length s <? 2); [discriminate|].
    destruct (List.length (collect_options _) <? 2) eqn:El; [discriminate|].
    injection H as <-.
    apply validated_record_renders; [exact Hd|].
    apply collect_options_render. clear. induction s; [reflexivity|].
    cbn [map forallb]. exact IHs.
  - destruct (negb (truthy (JList l))); [discriminate|].
    destruct (List.length l <? 2); [discriminate|].
    destruct (List.length (collect_options _) <? 2) eqn:El; [discriminate|].
    injection H as <-.
    apply validated_record_renders; [exact Hd|].
    apply collect_options_render. exact Hopts.
  - destruct (negb (truthy (JDict o))); [discriminate|].
    destruct (List.length o <? 2); [discriminate|].
    destruct (List.length (collect_options _) <? 2) eqn:El; [discriminate|].
    injection H as <-.
    apply validated_record_renders; [exact Hd|].
    apply collect_options_render. clear. induction o; [reflexivity|].
    cbn [map forallb]. exact IHo.
Qed.

Lemma validate_loop_renders first_topic parsed :
  forall acc out,
    validate_loop first_topic acc parsed = Ok out ->
    forallb (fun q => renders (JDict q)) acc = true ->
    forallb renders parsed = true ->
    forallb (fun q => renders (JDict q)) out = true.
Proof.
  induction parsed as [|q rest IH]; intros acc out H Hacc Hp.
  - injection H as <-. exact Hacc.
  - cbn [validate_loop] in H. cbn [forallb] in Hp.
    apply andb_true_iff in Hp as [Hq Hrest].
    destruct (validate_question first_topic (List.length acc) q)
      as [[r|]|] eqn:Ev; [| |discriminate]; cbn [bind] in H.
    + eapply IH; [exact H| |exact Hrest].
      apply forallb_snoc; [exact Hacc|].
      exact (validate_question_renders _ _ _ _ Ev Hq).
    + eapply IH; eassumption.
Qed.

Lemma fallback_from_renders topics :
  forall i,
    forallb (fun q => renders (JDict q)) (fallback_from i topics) = true.
Proof.
  induction topics as [|topic rest IH]; intros i; [reflexivity|].
  cbn [fallback_from forallb]. rewrite IH. reflexivity.
Qed.

(** X22.  Once the model has answered, status 500 needs a malformed
    answer.  If every question [parse_quiz_questions] returns is a dict whose
    [text] and [question] are strings or empty and whose options, when
    present, are a list of at most six dicts, then neither the randomizer
    nor the validation loop raises: the endpoint reaches the rendering of
    its response with the validated questions, or with the placeholders
    when there are none.  If moreover no value in the parsed questions is a
    NaN or an infinity, the rendering goes through as well and
    [generate_quiz_from_errors] returns a quiz.  Values are null, booleans,
    integers, the three non-finite floats, 8-bit strings, lists and dicts. *)
Theorem well_formed_answer_never_fails :
  forall error_topics num_questions ai_response parsed,
    topics_list error_topics <> [] ->
    parse_quiz_questions json_loads ai_response = Ok parsed ->
    forallb safe_question parsed = true ->
    (exists first_topic randomized validated,
        head (topics_list error_topics) = Some first_topic
        /\ randomize_items shuffle 0 parsed = Ok randomized
        /\ validate_questions first_topic randomized = Ok validated
        /\ quiz_from_errors json_loads shuffle error_topics num_questions
             ai_response
           = json_response
               (or_placeholders (topics_list error_topics) num_questions
                  validated))
    /\ (forallb renders parsed = true ->
        exists questions,
          quiz_from_errors json_loads shuffle error_topics num_questions
            ai_response = Returned questions).
Proof.
  intros error_topics num_questions ai_response parsed Ht Hp Hsafe.
  unfold quiz_from_errors.
  destruct (topics_list error_topics) as [|first_topic rest] eqn:Et;
    [contradiction|].
  rewrite Hp. cbn [bind].
  destruct (randomize_items_return parsed Hsafe 0) as (randomized & Hr & Hv).
  rewrite Hr. cbn [bind]. unfold validate_questions.
  destruct (validate_loop_returns first_topic randomized Hv [])
    as [validated Hval].
  rewrite Hval. split.
  - exists first_topic, randomized, validated.
    repeat split; assumption.
  - intros Hren. unfold json_response.
    assert (H : forallb (fun q => renders (JDict q))
                  (or_placeholders (first_topic :: rest) num_questions
                     validated) = true).
    { destruct validated as [|q qs]; cbn [or_placeholders].
      - apply fallback_from_renders.
      - eapply validate_loop_renders; [exact Hval|reflexivity|].
        eapply randomize_items_render; eassumption. }
    rewrite H. eauto.
Qed.

End SafeAnswers.

(** The converse side: one NaN in an otherwise well-formed answer passes
    the randomizer and the validation loop and fails in the rendering. *)
Lemma nan_explanation_is_not_rendered :
  forallb safe_question
    (match parse_quiz_questions py_json_loads nan_quiz with
     | Ok parsed => parsed
     | Raise _ => [JNull]
     end) = true
  /\ quiz_from_errors py_json_loads (fun _ => @rev json) (chars "Math") 5
       nan_quiz = ServerError.
Proof. split; vm_compute; reflexivity. Qed.

Lemma well_formed_answer_never_fails_witness :
  exists questions,
    quiz_from_errors py_json_loads (fun _ => @rev json) (chars "Math") 5
      fenced_quiz = Returned questions.
Proof.
  apply (well_formed_answer_never_fails py_json_loads (fun _ => @rev json)
           (fun _ => @Permutation_rev json)
           (chars "Math") 5 fenced_quiz [fenced_question]).
  - vm_compute. discriminate.
  - vm_compute. reflexivity.
  - reflexivity.
  - reflexivity.
Defined.
